(** * NSP2 overexpression heatmaps: the table pipeline of
      [makeunbiased_heatmap.py] and [makeheatmap_NSPpathways.py]

    The two scripts read DESeq2 log2-fold-change tables with pandas, join
    them with gene annotations or pathway lists, filter and sort the rows
    and hand the result to seaborn.  This development embeds the table part
    of both scripts: a data frame is the list of its rows, a row is a record
    of the columns the script addresses by name, a float64 cell is a
    primitive binary64 float (so a missing value is a NaN, as in pandas),
    and an object cell that may be missing is an [option string].

    The pandas and numpy operations the scripts call ([.loc] with a boolean
    mask, [pd.merge], [.str] accessors, [sort_values]) are embedded with the
    behaviour of the pandas 1.x / numpy 1.x releases the scripts were
    written for (2022-2023). *)

From Stdlib Require Import ZArith List String Ascii Floats Lia Bool Sorted.
From stdpp Require Import base option list strings gmap.
Import ListNotations.

Local Open Scope nat_scope.

(** ** float64 cells *)

(** [x < y] and [x > y] on float64 values are the IEEE 754 comparisons: both
    are false as soon as one side is a NaN. *)
Definition flt (x y : float) : bool := PrimFloat.ltb x y.
Definition fgt (x y : float) : bool := PrimFloat.ltb y x.

(** [pandas.isna] on a float64 cell. *)
Definition isna (x : float) : bool := negb (PrimFloat.eqb x x).

#[global] Instance float_inhabited : Inhabited float := populate 0%float.

(** ** Columns shared by every frame that is filtered or sorted

    [filter_lfc] and [sort_values(by='NSP2ox6')] address the condition
    columns by name and work on any frame that has them. *)
Class LfcColumns (R : Type) := {
  NSP2ox1 : R -> float;
  NSP2ox3 : R -> float;
  NSP2ox6 : R -> float
}.

(** The three designated condition columns of a row. *)
Definition condition_values {R} `{LfcColumns R} (r : R) : list float :=
  [NSP2ox1 r; NSP2ox3 r; NSP2ox6 r].

(** ** Boolean-mask row selection *)

Section Filter.
Context {R : Type} `{LfcColumns R}.

(** The mask of [filter_lfc], one boolean per row:
    [(df['NSP2ox1'] < lfc_low) | (df['NSP2ox3'] < lfc_low) |
     (df['NSP2ox6'] < lfc_low) | (df['NSP2ox1'] > lfchigh) |
     (df['NSP2ox3'] > lfchigh) | (df['NSP2ox6'] > lfchigh)]. *)
Definition lfc_mask_row (lfc_low lfchigh : float) (r : R) : bool :=
  flt (NSP2ox1 r) lfc_low || flt (NSP2ox3 r) lfc_low || flt (NSP2ox6 r) lfc_low
  || fgt (NSP2ox1 r) lfchigh || fgt (NSP2ox3 r) lfchigh || fgt (NSP2ox6 r) lfchigh.

Definition lfc_mask (df_in : list R) (lfc_low lfchigh : float) : list bool :=
  map (lfc_mask_row lfc_low lfchigh) df_in.

(** [df.loc[mask]]: a new frame with the rows whose mask entry is [True],
    in frame order. *)
Fixpoint loc (df : list R) (mask : list bool) : list R :=
  match df, mask with
  | r :: df', b :: mask' => if b then r :: loc df' mask' else loc df' mask'
  | _, _ => []
  end.

(** The frame [filter_lfc] returns (its prints are modelled further down). *)
Definition filter_rows (df_in : list R) (lfc_low lfchigh : float) : list R :=
  loc df_in (lfc_mask df_in lfc_low lfchigh).
End Filter.

(** ** Frames of [makeunbiased_heatmap.py] *)

(** A row of the frame [merge_geneid_annotation] returns, the one that is
    filtered, sorted and drawn: the label column ['Names'] and the four
    fold-change columns. *)
Record named_row := {
  Names : string;
  nr_nsp2_9 : float;
  nr_NSP2ox1 : float;
  nr_NSP2ox3 : float;
  nr_NSP2ox6 : float
}.

#[global] Instance named_row_lfc : LfcColumns named_row :=
  {| NSP2ox1 := nr_NSP2ox1; NSP2ox3 := nr_NSP2ox3; NSP2ox6 := nr_NSP2ox6 |}.

(** The rows of the example of the filter: NSP2ox1 = -8, -1, 3, 9 and the two
    other condition columns inside the interval. *)
Definition example_row (name : string) (ox1 : float) : named_row :=
  {| Names := name; nr_nsp2_9 := 0; nr_NSP2ox1 := ox1; nr_NSP2ox3 := 0; nr_NSP2ox6 := 0 |}.

Definition example_frame : list named_row :=
  [example_row "a" (-8); example_row "b" (-1); example_row "c" 3; example_row "d" 9].

(** ** Strings: the [str] methods and [.str] accessors the scripts use

    Strings are byte strings; the scripts' identifiers and labels are ASCII. *)

Module PyStr.

(** [s[start:-back]] for [back > 0]: the characters from position [start]
    up to, and without, the last [back] ones; empty when the string is too
    short, as Python's slices are. *)
Definition slice (start back : nat) (s : string) : string :=
  let stop := String.length s - back in
  substring start (stop - start) s.

(** [pat in s]: what [.str.contains(pat)] computes for a pattern without
    regular-expression metacharacters. *)
Fixpoint contains (pat s : string) : bool :=
  String.prefix pat s ||
  match s with
  | EmptyString => false
  | String _ s' => contains pat s'
  end.

Fixpoint mem_char (c : ascii) (chars : string) : bool :=
  match chars with
  | EmptyString => false
  | String d chars' => Ascii.eqb c d || mem_char c chars'
  end.

(** [s.lstrip(chars)]: drops the longest prefix made of characters of
    [chars]. *)
Fixpoint lstrip (chars s : string) : string :=
  match s with
  | EmptyString => EmptyString
  | String c s' => if mem_char c chars then lstrip chars s' else s
  end.

(** [s.replace(pat, '')] for a non-empty literal [pat]: every occurrence,
    found from left to right without overlap, is removed.  [skip] counts
    the characters of a match that are still to be dropped. *)
Fixpoint remove_from (skip : nat) (pat s : string) : string :=
  match s with
  | EmptyString => EmptyString
  | String c s' =>
      match skip with
      | S k => remove_from k pat s'
      | O => if String.prefix pat s
             then remove_from (String.length pat - 1) pat s'
             else String c (remove_from 0 pat s')
      end
  end.

Definition remove_all (pat s : string) : string := remove_from 0 pat s.

Definition is_digit (c : ascii) : bool :=
  (48 <=? nat_of_ascii c) && (nat_of_ascii c <=? 57).

Definition newline : string := String (ascii_of_nat 10) EmptyString.

(** Does the regular expression [\.\d$] match at the head of [s]: a dot, a
    digit, and then the end of the string or the newline that ends it. *)
Definition dot_digit_end_here (s : string) : bool :=
  match s with
  | String c (String d rest) =>
      Ascii.eqb c "." && is_digit d
      && (String.eqb rest EmptyString || String.eqb rest newline)
  | _ => false
  end.

(** [re.sub(r'\.\d$', '', s)]: the match, if there is one, is cut out. *)
Fixpoint sub_dot_digit_end (s : string) : string :=
  match s with
  | EmptyString => EmptyString
  | String c s' =>
      if dot_digit_end_here s
      then match s' with String _ rest => rest | EmptyString => EmptyString end
      else String c (sub_dot_digit_end s')
  end.

(** [fillna('')] on an object cell. *)
Definition fillna (o : option string) : string :=
  match o with Some s => s | None => EmptyString end.

End PyStr.

(** ** [pd.merge] on a string key *)

Section Merge.
Context {A B : Type} (key_l : A -> string) (key_r : B -> string).

Definition matches (k : string) (r : list B) : list B :=
  List.filter (fun b => String.eqb k (key_r b)) r.

(** [how='left']: every left row, in left order, with each right row of the
    same key in right order, or once with the right columns missing. *)
Definition merge_left (l : list A) (r : list B) : list (A * option B) :=
  flat_map (fun a =>
              match matches (key_l a) r with
              | [] => [(a, None)]
              | ms => map (fun b => (a, Some b)) ms
              end) l.

(** A left row with the first right row of its key: the left join when the
    right keys are distinct. *)
Definition first_match (r : list B) (a : A) : A * option B :=
  (a, List.find (fun b => String.eqb (key_l a) (key_r b)) r).

(** The distinct keys in order of first appearance: the group numbers the
    join assigns to the left keys. *)
Fixpoint key_groups (ks : list string) : list string :=
  match ks with
  | [] => []
  | k :: ks' => k :: List.filter (fun k' => negb (String.eqb k k')) (key_groups ks')
  end.

(** [how='inner'] (pandas before 2.2): key group by key group in order of
    first appearance on the left, and in a group every left row with every
    right row.  When the left keys are distinct this is the left order. *)
Definition merge_inner (l : list A) (r : list B) : list (A * B) :=
  flat_map (fun k =>
              flat_map (fun a => map (fun b => (a, b)) (matches k r))
                       (List.filter (fun a => String.eqb k (key_l a)) l))
           (key_groups (map key_l l)).
End Merge.

(** ** Input tables *)

(** A row of a DESeq2 fold-change table, and of the frames
    [prepare_dataframe] returns, which have the same columns. *)
Record lfc_row := {
  Gene_id : string;
  nsp2_9 : float;
  lfc_NSP2ox1 : float;
  lfc_NSP2ox3 : float;
  lfc_NSP2ox6 : float
}.

#[global] Instance lfc_row_lfc : LfcColumns lfc_row :=
  {| NSP2ox1 := lfc_NSP2ox1; NSP2ox3 := lfc_NSP2ox3; NSP2ox6 := lfc_NSP2ox6 |}.

(** A row of the annotation table: the columns ['# feature'], ['locus_tag'],
    ['name'] and ['symbol']; the last two may be empty in the file, which
    pandas reads as missing. *)
Record feature_row := {
  feature : string;
  locus_tag : string;
  name : option string;
  symbol : option string
}.

(** A row of a pathway table. *)
Record pathway_row := {
  geneid : string;
  annotation : string
}.

(** A row of the frame [annotate_dataframe] returns. *)
Record annotated_row := {
  Annotation : string;
  an_Gene_id : string;
  an_nsp2_9 : float;
  an_NSP2ox1 : float;
  an_NSP2ox3 : float;
  an_NSP2ox6 : float
}.

#[global] Instance annotated_row_lfc : LfcColumns annotated_row :=
  {| NSP2ox1 := an_NSP2ox1; NSP2ox3 := an_NSP2ox3; NSP2ox6 := an_NSP2ox6 |}.

(** ** The annotator *)

(** [df['Gene_id'] = df['Gene_id'].str[7:-2]] *)
Definition strip_gene_id (e : lfc_row) : lfc_row :=
  {| Gene_id := PyStr.slice 7 2 (Gene_id e); nsp2_9 := nsp2_9 e;
     lfc_NSP2ox1 := lfc_NSP2ox1 e; lfc_NSP2ox3 := lfc_NSP2ox3 e;
     lfc_NSP2ox6 := lfc_NSP2ox6 e |}.

(** [annotation_df[annotation_df['# feature'].str.contains('mRNA')]] *)
Definition mRNA_rows (annotation_df : list feature_row) : list feature_row :=
  List.filter (fun a => PyStr.contains "mRNA" (feature a)) annotation_df.

(** [df['symbol'].fillna('') + sep + df['name'].fillna('')] on one row of the
    left join; an unmatched row has both cells missing. *)
Definition annotation_label (sep : string) (sym nm : option string) : string :=
  PyStr.fillna sym +:+ sep +:+ PyStr.fillna nm.

Definition annotate_row (sep : string) (p : lfc_row * option feature_row) : annotated_row :=
  let (e, m) := p in
  {| Annotation := annotation_label sep (m ≫= symbol) (m ≫= name);
     an_Gene_id := Gene_id e; an_nsp2_9 := nsp2_9 e;
     an_NSP2ox1 := lfc_NSP2ox1 e; an_NSP2ox3 := lfc_NSP2ox3 e;
     an_NSP2ox6 := lfc_NSP2ox6 e |}.

(** The body both scripts share; they differ in the separator. *)
Definition annotate_with (sep : string) (df : list lfc_row)
    (annotation_df : list feature_row) : list annotated_row :=
  let df := map strip_gene_id df in
  let annotation_df := mRNA_rows annotation_df in
  map (annotate_row sep) (merge_left Gene_id locus_tag df annotation_df).

(** [merge_geneid_annotation], the same in both scripts:
    [Names = (Annotation + ' ' + Gene_id).lstrip('| ')]. *)
Definition names_label (ann gene : string) : string :=
  PyStr.lstrip "| " (ann +:+ " " +:+ gene).

Definition merge_geneid_annotation (df : list annotated_row) : list named_row :=
  map (fun r => {| Names := names_label (Annotation r) (an_Gene_id r);
                   nr_nsp2_9 := an_nsp2_9 r; nr_NSP2ox1 := an_NSP2ox1 r;
                   nr_NSP2ox3 := an_NSP2ox3 r; nr_NSP2ox6 := an_NSP2ox6 r |}) df.

Module Unbiased.
(** [annotate_dataframe] of [makeunbiased_heatmap.py]. *)
Definition annotate_dataframe := annotate_with " | ".

(** The display label of a gene from the cells of its annotation. *)
Definition label (sym nm : option string) (gene : string) : string :=
  names_label (annotation_label " | " sym nm) gene.
End Unbiased.

Module Pathways.
(** [annotate_dataframe] of [makeheatmap_NSPpathways.py], applied to the
    annotation table it reads. *)
Definition annotate_dataframe := annotate_with " ".
End Pathways.


(** ** [sort_values(by='NSP2ox6')]

    Both scripts call [sort_values] with its defaults: ascending, missing
    keys last, and [kind='quicksort'].  pandas sorts the positions of the
    rows: it sets the rows with a missing key aside, hands the other keys to
    numpy's [argsort] and appends the positions set aside.  For float64 keys
    and [kind='quicksort'] numpy runs its introsort on an index array (the
    generic [aquicksort_] of [npysort/quicksort.cpp], the index sort of the
    releases up to 1.24; later releases run another sort on processors with
    wide vector units): median-of-three quicksort
    down to ranges of at most 16 positions, which are finished by insertion
    sort, and heapsort for a range whose depth budget is used up.  The index
    array is a list updated in place; positions are natural numbers. *)

Module NumpySort.

(** [npy::double_tag::less]: [a < b || (b != b && a == a)]. *)
Definition less (a b : float) : bool := flt a b || (isna b && negb (isna a)).

Definition SMALL_QUICKSORT : nat := 15.

Section Argsort.
(** The keys [v]; the index array is [a], [v[a[p]]] is [key a p]. *)
Variable v : list float.

Definition key (a : list nat) (p : nat) : float := v !!! (a !!! p).

(** [INTP_SWAP(a[i], a[j])] *)
Definition swap (a : list nat) (i j : nat) : list nat :=
  <[j := a !!! i]> (<[i := a !!! j]> a).

Definition median3 (a : list nat) (pl pm pr : nat) : list nat :=
  let a := if less (key a pm) (key a pl) then swap a pm pl else a in
  let a := if less (key a pr) (key a pm) then swap a pr pm else a in
  if less (key a pm) (key a pl) then swap a pm pl else a.

(** [do { ++pi; } while (less(v[*pi], vp));] entered at the incremented
    [pi]; [room] is the distance to the pivot parked at [pr - 1], where
    the test fails. *)
Fixpoint scan_up (a : list nat) (vp : float) (pi room : nat) : nat :=
  match room with
  | O => pi
  | S room' => if less (key a pi) vp then scan_up a vp (S pi) room' else pi
  end.

(** [do { --pj; } while (less(vp, v[*pj]));] entered at the decremented
    [pj]; [room] is the distance to [pl], whose key is not above the
    pivot, so that the test fails there. *)
Fixpoint scan_down (a : list nat) (vp : float) (pj room : nat) : nat :=
  match room with
  | O => pj
  | S room' => if less vp (key a pj) then scan_down a vp (pj - 1) room' else pj
  end.

(** The [for (;;)] loop of the partition.  [pj - pi] shrinks in every
    round, so [pr - pl] rounds are never used up. *)
Fixpoint partition_loop (rounds : nat) (a : list nat) (vp : float)
    (pl pr pi pj : nat) : list nat * nat :=
  match rounds with
  | O => (a, pi)
  | S rounds' =>
      let pi := scan_up a vp (S pi) (pr - 1 - S pi) in
      let pj := scan_down a vp (pj - 1) (pj - 1 - pl) in
      if pj <=? pi then (a, pi)
      else partition_loop rounds' (swap a pi pj) vp pl pr pi pj
  end.

Definition partition (a : list nat) (pl pr : nat) : list nat * nat :=
  let pm := pl + (pr - pl) / 2 in
  let a := median3 a pl pm pr in
  let vp := key a pm in
  let a := swap a pm (pr - 1) in
  let '(a, pi) := partition_loop (pr - pl) a vp pl pr pl (pr - 1) in
  (swap a pi (pr - 1), pi).

(** [while (pj > pl && less(vp, v[*pk])) { *pj-- = *pk--; }] with
    [pk = pj - 1]; [room] is [pj - pl]. *)
Fixpoint shift_up (a : list nat) (vp : float) (pj room : nat) : list nat * nat :=
  match room with
  | O => (a, pj)
  | S room' =>
      if less vp (key a (pj - 1))
      then shift_up (<[pj := a !!! (pj - 1)]> a) vp (pj - 1) room'
      else (a, pj)
  end.

(** One round of the insertion sort: [vi = *pi; ...; *pj = vi]. *)
Definition insert_at (a : list nat) (pl pi : nat) : list nat :=
  let vi := a !!! pi in
  let '(a', pj) := shift_up a (v !!! vi) pi (pi - pl) in
  <[pj := vi]> a'.

Fixpoint insertion_rounds (a : list nat) (pl pi count : nat) : list nat :=
  match count with
  | O => a
  | S count' => insertion_rounds (insert_at a pl pi) pl (S pi) count'
  end.

(** [for (pi = pl + 1; pi <= pr; ++pi)] *)
Definition insertion_sort (a : list nat) (pl pr : nat) : list nat :=
  insertion_rounds a pl (S pl) (pr - pl).

(** [aheapsort_] on the range that starts at [pl], with its one-based
    positions: [a[k]] is the cell [pl + k - 1]. *)
Definition hget (a : list nat) (pl k : nat) : nat := a !!! (pl + k - 1).
Definition hset (a : list nat) (pl k x : nat) : list nat := <[pl + k - 1 := x]> a.

(** [for (i, j; j <= n;) { ... } a[i] = tmp;]: [j] at least doubles in
    every round, so [n] rounds are never used up. *)
Fixpoint sift (rounds : nat) (a : list nat) (pl n tmp i j : nat) : list nat :=
  match rounds with
  | O => hset a pl i tmp
  | S rounds' =>
      if j <=? n then
        let j := if (j <? n) && less (v !!! hget a pl j) (v !!! hget a pl (j + 1))
                 then j + 1 else j in
        if less (v !!! tmp) (v !!! hget a pl j)
        then sift rounds' (hset a pl i (hget a pl j)) pl n tmp j (j + j)
        else hset a pl i tmp
      else hset a pl i tmp
  end.

(** [for (l = n >> 1; l > 0; --l)] *)
Fixpoint heapify (a : list nat) (pl n l : nat) : list nat :=
  match l with
  | O => a
  | S l' => heapify (sift n a pl n (hget a pl l) l (2 * l)) pl n l'
  end.

(** [for (; n > 1;)] *)
Fixpoint sort_down (a : list nat) (pl n : nat) : list nat :=
  match n with
  | S (S _ as n') =>
      let tmp := hget a pl n in
      let a := hset a pl n (hget a pl 1) in
      sort_down (sift n' a pl n' tmp 1 2) pl n'
  | _ => a
  end.

Definition aheapsort (a : list nat) (pl n : nat) : list nat :=
  sort_down (heapify a pl n (n / 2)) pl n.

(** The main loop on the range [pl..pr] with depth budget [cdepth].  The
    C code keeps the larger part of a partition on an explicit stack
    with its depth and goes on with the smaller one; a part taken from
    the stack is heap-sorted when its depth is negative.  Here the stack
    is the recursion.  A part is strictly shorter than its range, so
    [size], which bounds the length of the range, is never used up. *)
Fixpoint quick (size : nat) (a : list nat) (pl pr : nat) (cdepth : Z) : list nat :=
  match size with
  | O => a
  | S size' =>
      if SMALL_QUICKSORT <? pr - pl then
        let '(a, pi) := partition a pl pr in
        let cdepth := (cdepth - 1)%Z in
        let popped a pl pr :=
          if (cdepth <? 0)%Z then aheapsort a pl (pr - pl + 1)
          else quick size' a pl pr cdepth in
        if pi - pl <? pr - pi
        then popped (quick size' a pl (pi - 1) cdepth) (pi + 1) pr
        else popped (quick size' a (pi + 1) pr cdepth) pl (pi - 1)
      else insertion_sort a pl pr
  end.

(** [argsort(kind='quicksort')]: the index array starts as [0..n-1] and
    the depth budget as twice the position of the highest set bit of
    [n]. *)
Definition argsort : list nat :=
  let n := length v in
  quick n (seq 0 n) 0 (n - 1) (2 * Z.log2 (Z.of_nat n))%Z.
End Argsort.

End NumpySort.

(** [pandas.core.sorting.nargsort] with [ascending=True],
    [na_position='last']: [idx[~mask]], [np.nonzero(mask)[0]] and
    [items[~mask]] for [mask = isna(items)], then
    [concatenate([non_nan_idx[non_nans.argsort(kind)], nan_idx])]. *)
Definition non_nan_idx (items : list float) : list nat :=
  List.filter (fun i => negb (isna (items !!! i))) (seq 0 (length items)).

Definition nan_idx (items : list float) : list nat :=
  List.filter (fun i => isna (items !!! i)) (seq 0 (length items)).

Definition non_nans (items : list float) : list float :=
  map (fun i => items !!! i) (non_nan_idx items).

Definition nargsort (items : list float) : list nat :=
  map (fun p => non_nan_idx items !!! p) (NumpySort.argsort (non_nans items))
  ++ nan_idx items.

(** [df.take(indexer)] *)
Definition take {R : Type} (df : list R) (indexer : list nat) : list R :=
  omap (fun i => df !! i) indexer.

Definition sort_values {R : Type} `{LfcColumns R} (df : list R) : list R :=
  take df (nargsort (map NSP2ox6 df)).


(** ** The pathway merge of [makeheatmap_NSPpathways.py] *)

(** The two [.str.replace] calls of [prepare_dataframe], patterns read as
    regular expressions (the default of pandas 1.x): every ['Parand_'] is
    removed, then a final dot and digit. *)
Definition clean_gene_id (s : string) : string :=
  PyStr.sub_dot_digit_end (PyStr.remove_all "Parand_" s).

(** [x['annotation'] + ' | ' + x['geneid']], then cleaned. *)
Definition pathway_label (p : pathway_row) : string :=
  clean_gene_id (annotation p +:+ " | " +:+ geneid p).

(** [pd.merge(cssp_df, df_lfc, left_on='geneid', right_on='Gene_id',
    how='inner')]: a row of the result has the columns of both rows. *)
Definition pathway_merge (cssp_df : list pathway_row) (df_lfc : list lfc_row)
  : list (pathway_row * lfc_row) :=
  merge_inner geneid Gene_id cssp_df df_lfc.

(** [.assign(Gene_id=...).drop(columns=['annotation', 'geneid'])] and the two
    replacements: the label takes the place of the identifier. *)
Definition labelled_row (m : pathway_row * lfc_row) : lfc_row :=
  let (p, e) := m in
  {| Gene_id := pathway_label p; nsp2_9 := nsp2_9 e;
     lfc_NSP2ox1 := lfc_NSP2ox1 e; lfc_NSP2ox3 := lfc_NSP2ox3 e;
     lfc_NSP2ox6 := lfc_NSP2ox6 e |}.

(** [prepare_dataframe] on the pathway table it reads. *)
Definition prepare_dataframe (cssp_df : list pathway_row) (df_lfc : list lfc_row)
  : list lfc_row :=
  sort_values (map labelled_row (pathway_merge cssp_df df_lfc)).

(** ** The merge of two conditions *)

(** A row of [merged_df]: the columns of the left frame with suffix [_x],
    the ['separator'] column, the columns of the right frame with suffix
    [_y]. *)
Record dual_row := {
  dual_Gene_id : string;
  nsp2_9_x : float;
  NSP2ox1_x : float;
  NSP2ox3_x : float;
  NSP2ox6_x : float;
  separator : float;
  nsp2_9_y : float;
  NSP2ox1_y : float;
  NSP2ox3_y : float;
  NSP2ox6_y : float
}.

Definition dual_of (m : lfc_row * lfc_row) : dual_row :=
  let (l, r) := m in
  {| dual_Gene_id := Gene_id l;
     nsp2_9_x := nsp2_9 l; NSP2ox1_x := lfc_NSP2ox1 l;
     NSP2ox3_x := lfc_NSP2ox3 l; NSP2ox6_x := lfc_NSP2ox6 l;
     separator := nan;
     nsp2_9_y := nsp2_9 r; NSP2ox1_y := lfc_NSP2ox1 r;
     NSP2ox3_y := lfc_NSP2ox3 r; NSP2ox6_y := lfc_NSP2ox6 r |}.

(** [processed_df_NPLOW.merge(processed_df_NlowPhigh, on='Gene_id',
    how='inner')], the ['separator'] column and the column order of the
    script. *)
Definition merge (processed_df_NPLOW processed_df_NlowPhigh : list lfc_row)
  : list dual_row :=
  map dual_of (merge_inner Gene_id Gene_id processed_df_NPLOW processed_df_NlowPhigh).

(** ** [filter_lfc] as a procedure

    [filter_lfc] receives a reference to a frame, prints, builds a new frame
    and returns a reference to it.  The interpreter state is the store of
    frames, the lines printed on the standard output and the warnings issued
    ([warnings.warn]); a computation that raises has no result. *)

(** The two lines [filter_lfc] prints: the fixed first one, and the second
    with the values that fill its three fields. *)
Inductive line :=
  | Filtering_dataframe
  | Done_filtering (found : nat) (lfc_low lfchigh : float).

Section Procedure.
Context {R : Type} `{LfcColumns R}.

Record world := World {
  frames : gmap nat (list R);
  stdout : list line;
  warnings : list string
}.

Definition py (A : Type) : Type := world -> option (A * world).

Definition ret {A} (x : A) : py A := fun w => Some (x, w).

Definition bind {A B} (m : py A) (k : A -> py B) : py B :=
  fun w => match m w with
           | Some (x, w') => k x w'
           | None => None
           end.

Definition print (l : line) : py unit :=
  fun w => Some (tt, World (frames w) (stdout w ++ [l]) (warnings w)).

(** The frame a reference points to. *)
Definition deref (df : nat) : py (list R) :=
  fun w => match frames w !! df with
           | Some rows => Some (rows, w)
           | None => None
           end.

(** A new frame object. *)
Definition new_frame (rows : list R) : py nat :=
  fun w => let df := fresh (dom (frames w)) in
           Some (df, World (<[df := rows]> (frames w)) (stdout w) (warnings w)).

Definition filter_lfc (df_in : nat) (lfc_low lfchigh : float) : py nat :=
  bind (print Filtering_dataframe) (fun _ =>
  bind (deref df_in) (fun rows =>
  bind (new_frame (loc rows (lfc_mask rows lfc_low lfchigh))) (fun df_filtered =>
  bind (deref df_filtered) (fun filtered =>
  bind (print (Done_filtering (length filtered) lfc_low lfchigh)) (fun _ =>
  ret df_filtered))))).

(** What it would mean for a run of [filter_lfc] to report an empty
    result: to raise, or to issue a warning. *)
Definition reports_empty_result (w : world) (run : option (nat * world)) : Prop :=
  match run with
  | None => True
  | Some (_, w') => warnings w' <> warnings w
  end.
End Procedure.

Arguments world R : clear implicits.


(** ** Example tables *)

Definition lfc (gene : string) (ox6 : float) : lfc_row :=
  {| Gene_id := gene; nsp2_9 := 0; lfc_NSP2ox1 := 0; lfc_NSP2ox3 := 0; lfc_NSP2ox6 := ox6 |}.

(** A gene listed under two pathways, and measured once. *)
Definition two_pathways : list pathway_row :=
  [ {| geneid := "Parand_0001234.1"; annotation := "CCD7" |};
    {| geneid := "Parand_0001234.1"; annotation := "strigolactone" |} ].

Definition one_measurement : list lfc_row := [lfc "Parand_0001234.1" 2].

(** Pathway and expression tables with distinct identifiers. *)
Definition pathway_example : list pathway_row :=
  [ {| geneid := "Parand_0001234.1"; annotation := "CCD7" |};
    {| geneid := "Parand_0005678.2"; annotation := "CCD8" |};
    {| geneid := "Parand_0009999.1"; annotation := "MAX1" |} ].

Definition expression_example : list lfc_row :=
  [lfc "Parand_0005678.2" 3; lfc "Parand_0000001.1" 1; lfc "Parand_0001234.1" (-2)].

(** Two prepared frames that share g1, g2 and g3. *)
Definition left_example : list lfc_row :=
  [lfc "g2" (-3); lfc "g4" (-1); lfc "g1" 0; lfc "g3" 5].

Definition right_example : list lfc_row :=
  [lfc "g1" (-2); lfc "g2" 1; lfc "g5" 2; lfc "g3" 4].

(** An annotation table: one messenger RNA with a symbol and no name, one
    gene row that is not used. *)
Definition annotation_example : list feature_row :=
  [ {| feature := "mRNA"; locus_tag := "0001234"; name := None; symbol := Some "ABC" |};
    {| feature := "gene"; locus_tag := "0001234"; name := Some "x"; symbol := None |} ].


(** Two transcripts of one gene under the same pathway, a third gene, and two
    conditions in which all three are measured: every identifier occurs once
    in each table. *)
Definition transcript_pathways : list pathway_row :=
  [ {| geneid := "Parand_0001234.1"; annotation := "CCD7" |};
    {| geneid := "Parand_0001234.2"; annotation := "CCD7" |};
    {| geneid := "Parand_0005678.1"; annotation := "CCD8" |} ].

Definition condition_NPlow : list lfc_row :=
  [lfc "Parand_0001234.1" 1; lfc "Parand_0001234.2" 2; lfc "Parand_0005678.1" 3].

Definition condition_NlowPhigh : list lfc_row :=
  [lfc "Parand_0001234.1" (-1); lfc "Parand_0001234.2" 0; lfc "Parand_0005678.1" 5].


(** A row with no measured condition. *)
Definition missing_row : named_row :=
  {| Names := "m"; nr_nsp2_9 := 1; nr_NSP2ox1 := nan; nr_NSP2ox3 := nan; nr_NSP2ox6 := nan |}.

(** A store with one frame, none of whose rows is outside [-6, 6]. *)
Definition quiet_world : world named_row :=
  World {[ 0 := [example_row "b" (-1); example_row "c" 3] ]} [] [].

(** A store that holds the example frame of the filter. *)
Definition example_world : world named_row :=
  World {[ 0 := example_frame ]} [] [].


(** Seventeen rows with the same NSP2ox6. *)
Definition tied_frame : list named_row :=
  map (fun id => {| Names := id; nr_nsp2_9 := 0; nr_NSP2ox1 := 7; nr_NSP2ox3 := 0;
                    nr_NSP2ox6 := 0 |})
      ["01"; "02"; "03"; "04"; "05"; "06"; "07"; "08"; "09"; "10"; "11"; "12";
       "13"; "14"; "15"; "16"; "17"].


(** ** Notions used to state the properties *)

(** Is every character of [s] one of [chars]? *)
Fixpoint all_in (chars s : string) : bool :=
  match s with
  | EmptyString => true
  | String c s' => PyStr.mem_char c chars && all_in chars s'
  end.

(** The rows that have a key, and the rows whose key is a given value. *)
Definition keyed {R : Type} `{LfcColumns R} (r : R) : bool := negb (isna (NSP2ox6 r)).
Definition key_is {R : Type} `{LfcColumns R} (k : float) (r : R) : bool :=
  PrimFloat.eqb (NSP2ox6 r) k.

(** The annotation rows, among those kept, that carry a given identifier. *)
Definition annotations_of (annotation_df : list feature_row) (gene : string)
  : list feature_row :=
  matches locus_tag gene (mRNA_rows annotation_df).


(** The place of a float64 value in the order of [<], read off its sign,
    exponent and mantissa; the missing value stands above every number,
    which is where [NumpySort.less] puts it. *)
Definition rank (x : float) : Z * Z * Z :=
  match Prim2SF x with
  | S754_zero _ => (0, 0, 0)
  | S754_infinity s => (if s then -2 else 2, 0, 0)
  | S754_nan => (3, 0, 0)
  | S754_finite s m e => if s then (-1, - e, Z.neg m) else (1, e, Z.pos m)
  end%Z.

Definition rank_lt (a b : Z * Z * Z) : Prop :=
  (a.1.1 < b.1.1 \/
   a.1.1 = b.1.1 /\ (a.1.2 < b.1.2 \/ a.1.2 = b.1.2 /\ a.2 < b.2))%Z.

(** The order of the sort on positions of the key array: the key at [x] is
    not above the key at [y]. *)
Definition key_le (v : list float) (x y : nat) : Prop :=
  NumpySort.less (v !!! y) (v !!! x) = false.

(** The cells [pl..pr] of an index array are in ascending order of their
    keys. *)
Definition ascending (v : list float) (a : list nat) (pl pr : nat) : Prop :=
  forall p q, pl <= p -> p <= q -> q <= pr -> key_le v (a !!! p) (a !!! q).

(** [a'] is [a] outside the cells [pl..pr], and in these cells it has
    entries that [a] has in these cells. *)
Definition rearranged (a a' : list nat) (pl pr : nat) : Prop :=
  length a' = length a /\
  (forall p, p < pl \/ pr < p -> a' !!! p = a !!! p) /\
  (forall p, pl <= p <= pr -> exists q, pl <= q <= pr /\ a' !!! p = a !!! q).

(** The cells [pl..pr] are split at [pi]: no key before [pi] is above the
    key at [pi], and no key after it is below. *)
Definition split_at (v : list float) (a : list nat) (pl pi pr : nat) : Prop :=
  (forall p, pl <= p -> p < pi -> key_le v (a !!! p) (a !!! pi)) /\
  (forall p, pi < p -> p <= pr -> key_le v (a !!! pi) (a !!! p)).

(** The cells [pl..pl+n-1], read as the one-based heap of [aheapsort_],
    are a heap from node [l] on: a node whose parent is [l] or a later node
    has a key that is not above the key of its parent. *)
Definition heap_from (v : list float) (a : list nat) (pl n l : nat) : Prop :=
  forall c, 2 * l <= c -> c <= n ->
    key_le v (NumpySort.hget a pl c) (NumpySort.hget a pl (c / 2)).

(** ** The frames handed to the renderer

    [create_heatmap] and [create_heatmapLFC] receive a reference to a frame,
    move its label column into the index in place
    ([set_index(..., inplace=True)]) and hand the frame to [sns.heatmap].
    Here a frame object has named columns of cells and an index that is the
    default one ([None]) or a named list of labels.  The state is the store
    of frame objects and the standard output; a computation that raises has
    no result.  What seaborn and matplotlib do is not part of this
    development: the drawing is a parameter of the two functions. *)

Inductive cell :=
  | Text (s : string)
  | Number (x : float).

Record frame := Frame {
  index : option (string * list cell);
  columns : list (string * list cell)
}.

(** [df[name]], if the frame has such a column. *)
Definition column (name : string) (f : frame) : option (list cell) :=
  snd <$> List.find (fun c => String.eqb name c.1) (columns f).

(** A frame [prepare_dataframe] returns, as a frame object with its columns
    in the order the function gives them. *)
Definition frame_of_lfc (df : list lfc_row) : frame :=
  Frame None
    [ ("Gene_id", map (fun r => Text (Gene_id r)) df);
      ("nsp2-9", map (fun r => Number (nsp2_9 r)) df);
      ("NSP2ox1", map (fun r => Number (lfc_NSP2ox1 r)) df);
      ("NSP2ox3", map (fun r => Number (lfc_NSP2ox3 r)) df);
      ("NSP2ox6", map (fun r => Number (lfc_NSP2ox6 r)) df) ].

Module Renderer.

Record world := World {
  frames : gmap nat frame;
  stdout : list string
}.

Definition py (A : Type) : Type := world -> option (A * world).

Definition ret {A} (x : A) : py A := fun w => Some (x, w).

Definition bind {A B} (m : py A) (k : A -> py B) : py B :=
  fun w => match m w with
           | Some (x, w') => k x w'
           | None => None
           end.

(** [print(a, b)]: the two strings with a space between them. *)
Definition print (a b : string) : py unit :=
  fun w => Some (tt, World (frames w) (stdout w ++ [a +:+ " " +:+ b])).

(** [df.copy()]: a new frame object with the same content. *)
Definition copy (df : nat) : py nat :=
  fun w => match frames w !! df with
           | Some f => let new := fresh (dom (frames w)) in
                       Some (new, World (<[new := f]> (frames w)) (stdout w))
           | None => None
           end.

(** What [set_index] makes of a frame that has the column. *)
Definition indexed_by (keys : string) (labels : list cell) (f : frame) : frame :=
  Frame (Some (keys, labels))
        (List.filter (fun c => negb (String.eqb keys c.1)) (columns f)).

(** [df.set_index(keys, inplace=True)]: the column becomes the index of
    the same frame object and leaves the columns; [KeyError] when the frame
    has no such column. *)
Definition set_index (df : nat) (keys : string) : py unit :=
  fun w => match frames w !! df with
           | Some f =>
               match column keys f with
               | Some labels =>
                   Some (tt, World (<[df := indexed_by keys labels f]> (frames w))
                                   (stdout w))
               | None => None
               end
           | None => None
           end.

Section Drawing.
(** [sns.heatmap(df, ...)] with the calls on the axes that follow it. *)
Variable heatmap : nat -> py unit.

(** [create_heatmapLFC] of [makeheatmap_NSPpathways.py]. *)
Definition create_heatmapLFC (dfLFC : nat) (column_name : string) : py unit :=
  bind (print "Column name used for naming the samples:" column_name) (fun _ =>
  bind (set_index dfLFC column_name) (fun _ =>
  heatmap dfLFC)).

(** [create_heatmap] of [makeunbiased_heatmap.py]. *)
Definition create_heatmap (df : nat) : py unit :=
  bind (set_index df "Names") (fun _ => heatmap df).
End Drawing.

(** The drawing reads the frames: when it returns, the store and the
    standard output are as they were. *)
Definition reads_only (heatmap : nat -> py unit) : Prop :=
  forall df w r, heatmap df w = Some r -> r = (tt, w).

(** A drawing that reads and never raises. *)
Definition draws_anything (df : nat) : py unit := fun w => Some (tt, w).

End Renderer.

(** ** More example tables *)

(** A row with a value on each cutoff and a missing one. *)
Definition boundary_row : named_row :=
  {| Names := "e"; nr_nsp2_9 := 0; nr_NSP2ox1 := 6; nr_NSP2ox3 := -6; nr_NSP2ox6 := nan |}.

(** A second condition for the genes of the expression example. *)
Definition second_condition : list lfc_row :=
  [lfc "Parand_0001234.1" 4; lfc "Parand_0005678.2" (-1)].

(** A store of the renderer that holds one prepared frame. *)
Definition prepared_world : Renderer.world :=
  Renderer.World
    {[ 0 := frame_of_lfc (prepare_dataframe pathway_example expression_example) ]} [].


(** * Properties *)

Section FilterFacts.
Context {R : Type} `{LfcColumns R}.

Lemma lfc_mask_row_spec (lo hi : float) (r : R) :
  lfc_mask_row lo hi r = true <->
  exists v, In v (condition_values r) /\ (flt v lo = true \/ fgt v hi = true).
Proof.
  unfold lfc_mask_row, condition_values. split.
  - rewrite !orb_true_iff. intros Hm.
    destruct Hm as [[[[[Hm|Hm]|Hm]|Hm]|Hm]|Hm];
      [ exists (NSP2ox1 r) | exists (NSP2ox3 r) | exists (NSP2ox6 r)
      | exists (NSP2ox1 r) | exists (NSP2ox3 r) | exists (NSP2ox6 r) ];
      simpl; tauto.
  - intros (v & Hin & Hv). simpl in Hin.
    rewrite !orb_true_iff.
    destruct Hin as [<-|[<-|[<-|[]]]]; tauto.
Qed.

Lemma loc_map_filter (p : R -> bool) (df : list R) :
  loc df (map p df) = List.filter p df.
Proof.
  induction df as [|r df IH]; simpl; [reflexivity|].
  rewrite IH. reflexivity.
Qed.

Lemma filter_rows_filter (df : list R) (lo hi : float) :
  filter_rows df lo hi = List.filter (lfc_mask_row lo hi) df.
Proof. apply loc_map_filter. Qed.
End FilterFacts.

(** ** IEEE comparisons *)

Section FloatFacts.

Lemma isna_Prim2SF (x : float) : isna x = true <-> Prim2SF x = S754_nan.
Proof.
  unfold isna. rewrite negb_true_iff, FloatAxioms.eqb_spec.
  unfold SFeqb. split.
  - destruct (Prim2SF x) as [s|s| |s m e]; simpl; try discriminate; try reflexivity.
    + destruct s; discriminate.
    + destruct s; rewrite Z.compare_refl, Pos.compare_cont_refl; discriminate.
  - intros ->. reflexivity.
Qed.

Lemma flt_nan_l (x y : float) : isna x = true -> flt x y = false.
Proof.
  intros Hx%isna_Prim2SF. unfold flt.
  rewrite FloatAxioms.ltb_spec, Hx. reflexivity.
Qed.

Lemma flt_nan_r (x y : float) : isna y = true -> flt x y = false.
Proof.
  intros Hy%isna_Prim2SF. unfold flt.
  rewrite FloatAxioms.ltb_spec, Hy. unfold SFltb.
  destruct (Prim2SF x); reflexivity.
Qed.

End FloatFacts.

(** ** The threshold filter *)

(** C1: for every frame and every pair of bounds, with nothing assumed about
    the bounds, the row at a position is selected by the mask exactly when
    one of its three condition columns is [< lfc_low] or [> lfchigh], and the
    rows of the result are exactly the rows of the frame with that property;
    on NSP2ox1 = -8, -1, 3, 9 with bounds -6 and 6 the rows -8 and 9 remain. *)
Theorem filter_lfc_any_column_outside :
  (forall (R : Type) (C : LfcColumns R) (df_in : list R) (lfc_low lfchigh : float),
      (forall i r, df_in !! i = Some r ->
         (lfc_mask df_in lfc_low lfchigh !! i = Some true <->
          exists v, In v (condition_values r) /\
                    (flt v lfc_low = true \/ fgt v lfchigh = true))) /\
      (forall r, In r (filter_rows df_in lfc_low lfchigh) <->
         In r df_in /\
         exists v, In v (condition_values r) /\
                   (flt v lfc_low = true \/ fgt v lfchigh = true)))
  /\ filter_rows example_frame (-6) 6 = [example_row "a" (-8); example_row "d" 9].
Proof.
  split; [|vm_compute; reflexivity].
  intros R C df lo hi. split.
  - intros i r Hi. unfold lfc_mask.
    rewrite list_lookup_fmap, Hi.
    pose proof (lfc_mask_row_spec lo hi r) as Hspec. simpl.
    split; [intros [= Hm]; apply Hspec, Hm | intros Hv; f_equal; apply Hspec, Hv].
  - intros r. rewrite filter_rows_filter, filter_In, lfc_mask_row_spec. reflexivity.
Qed.

(** C10: a row whose three condition cells are all missing (NaN) is never
    selected, whatever the bounds are. *)
Theorem filter_lfc_drops_all_missing :
  forall (R : Type) (C : LfcColumns R) (df_in : list R) (lfc_low lfchigh : float) (r : R),
    isna (NSP2ox1 r) = true -> isna (NSP2ox3 r) = true -> isna (NSP2ox6 r) = true ->
    lfc_mask_row lfc_low lfchigh r = false /\
    ~ In r (filter_rows df_in lfc_low lfchigh).
Proof.
  intros R C df lo hi r H1 H3 H6.
  assert (Hrow : lfc_mask_row lo hi r = false).
  { unfold lfc_mask_row, fgt.
    rewrite (flt_nan_l _ lo H1), (flt_nan_l _ lo H3), (flt_nan_l _ lo H6).
    fold (flt hi (NSP2ox1 r)). fold (flt hi (NSP2ox3 r)). fold (flt hi (NSP2ox6 r)).
    rewrite (flt_nan_r hi _ H1), (flt_nan_r hi _ H3), (flt_nan_r hi _ H6).
    reflexivity. }
  split; [exact Hrow|].
  rewrite filter_rows_filter, filter_In. intros [_ Hm]. congruence.
Qed.

(** ** Labels *)

Section StringFacts.

Lemma append_cons (x : ascii) (a b : string) : String x a +:+ b = String x (a +:+ b).
Proof. reflexivity. Qed.

Lemma append_assoc (a b c : string) : (a +:+ b) +:+ c = a +:+ (b +:+ c).
Proof.
  induction a as [|x a IH]; [reflexivity|].
  rewrite !append_cons, IH. reflexivity.
Qed.

Lemma lstrip_app (chars a b : string) :
  PyStr.lstrip chars (a +:+ b) =
  if all_in chars a then PyStr.lstrip chars b else PyStr.lstrip chars a +:+ b.
Proof.
  induction a as [|x a IH]; [reflexivity|].
  rewrite append_cons. simpl.
  destruct (PyStr.mem_char x chars); simpl; [exact IH|reflexivity].
Qed.

End StringFacts.

(** C2, as the code has it: the label is
    [(symbol + ' | ' + name + ' ' + Gene_id).lstrip('| ')] with a missing
    symbol or name read as the empty string.  Nothing is trimmed; only the
    characters at the front of the whole label are stripped.  So a symbol
    that has a character other than ['|'] and the space keeps the separator
    behind it even when the name is empty, a label without such a symbol
    starts at the name, and a label without both is the gene identifier. *)
Theorem label_strips_leading_separator_only :
  (forall (sym nm : option string) (gene : string),
     Unbiased.label sym nm gene =
     if all_in "| " (PyStr.fillna sym) then
       if all_in "| " (PyStr.fillna nm) then PyStr.lstrip "| " gene
       else PyStr.lstrip "| " (PyStr.fillna nm) +:+ " " +:+ gene
     else PyStr.lstrip "| " (PyStr.fillna sym) +:+ " | " +:+ PyStr.fillna nm
            +:+ " " +:+ gene)
  /\ Unbiased.label (Some "ABC") (Some "") "g1" = "ABC |  g1"
  /\ Unbiased.label (Some "ABC") None "g1" = "ABC |  g1"
  /\ Unbiased.label (Some "") (Some "xyz") "g1" = "xyz g1"
  /\ Unbiased.label None None "g1" = "g1"
  /\ annotation_label " | " (Some "ABC") (Some "") = "ABC | "
  /\ annotation_label " | " (Some "") (Some "xyz") = " | xyz"
  /\ annotation_label " | " None None = " | ".
Proof.
  split; [|repeat split; reflexivity].
  intros sym nm gene. unfold Unbiased.label, names_label, annotation_label.
  rewrite !append_assoc.
  rewrite lstrip_app. destruct (all_in "| " (PyStr.fillna sym)); [|reflexivity].
  change (" | " +:+ PyStr.fillna nm +:+ " " +:+ gene)
    with (String " " (String "|" (String " " (PyStr.fillna nm +:+ " " +:+ gene)))).
  cbn [PyStr.lstrip PyStr.mem_char Ascii.eqb Bool.eqb orb].
  rewrite lstrip_app. destruct (all_in "| " (PyStr.fillna nm)); reflexivity.
Qed.

(** The label of a gene with symbol "ABC" and an empty name is not "ABC":
    neither the ['Annotation'] cell nor the final ['Names'] cell, whatever the
    gene identifier is; and a symbol is not trimmed. *)
Lemma label_ABC_keeps_separator :
  annotation_label " | " (Some "ABC") (Some "") <> "ABC"
  /\ (forall gene, Unbiased.label (Some "ABC") (Some "") gene <> "ABC")
  /\ Unbiased.label (Some "ABC ") (Some " xyz") "" <> "ABC | xyz".
Proof.
  split; [discriminate|]. split; [|discriminate].
  intros gene. unfold Unbiased.label, names_label, annotation_label.
  simpl. discriminate.
Qed.

(** ** The identifier slice of the annotator *)

Section SliceFacts.

Lemma length_append (a b : string) :
  String.length (a +:+ b) = String.length a + String.length b.
Proof.
  induction a as [|c a IH]; [reflexivity|].
  rewrite append_cons. simpl. rewrite IH. reflexivity.
Qed.

Lemma substring_none (n : nat) (s : string) : substring n 0 s = "".
Proof.
  revert s. induction n as [|n IH]; intros [|c s]; simpl; auto.
Qed.

Lemma substring_skip (pre t : string) (m : nat) :
  substring (String.length pre) m (pre +:+ t) = substring 0 m t.
Proof.
  induction pre as [|c pre IH]; [reflexivity|]. rewrite append_cons. exact IH.
Qed.

Lemma substring_head (body suf : string) :
  substring 0 (String.length body) (body +:+ suf) = body.
Proof.
  induction body as [|c body IH]; [destruct suf; reflexivity|].
  rewrite append_cons. simpl. rewrite IH. reflexivity.
Qed.

End SliceFacts.

(** The slice [str[7:-2]] removes the first seven and the last two
    characters of an identifier, whatever they are, and leaves nothing of an
    identifier of at most nine characters. *)
Theorem slice_removes_7_and_2 :
  (forall pre body suf : string,
      String.length pre = 7 -> String.length suf = 2 ->
      PyStr.slice 7 2 (pre +:+ body +:+ suf) = body)
  /\ (forall s : string, String.length s <= 9 -> PyStr.slice 7 2 s = "")
  /\ Gene_id (strip_gene_id (lfc "Parand_0001234.1" 0)) = "0001234"
  /\ Gene_id (strip_gene_id (lfc "PanWU01x14_0001234.1" 0)) = "x14_0001234".
Proof.
  split; [|split; [|split; reflexivity]].
  - intros pre body suf Hpre Hsuf. unfold PyStr.slice.
    rewrite !length_append, Hpre, Hsuf.
    replace (7 + (String.length body + 2) - 2 - 7) with (String.length body) by lia.
    rewrite <- Hpre, substring_skip. apply substring_head.
  - intros s Hs. unfold PyStr.slice.
    replace (String.length s - 2 - 7) with 0 by lia. apply substring_none.
Qed.

(** ** The left join of the annotator *)

Section MergeLeftFacts.
Context {A B : Type} (key_l : A -> string) (key_r : B -> string).

Lemma matches_unique (k : string) (r : list B) :
  NoDup (map key_r r) ->
  matches key_r k r =
  match List.find (fun b => String.eqb k (key_r b)) r with
  | Some b => [b]
  | None => []
  end.
Proof.
  unfold matches. induction r as [|b r IH]; simpl; [reflexivity|].
  intros Hnd. apply NoDup_cons in Hnd as [Hb Hnd].
  destruct (String.eqb_spec k (key_r b)) as [->|Hne]; [|auto].
  f_equal. clear IH Hnd. induction r as [|b' r IH]; simpl; [reflexivity|].
  simpl in Hb. apply not_elem_of_cons in Hb as [Hne Hb].
  destruct (String.eqb_spec (key_r b) (key_r b')); [congruence|auto].
Qed.

Lemma merge_left_unique (l : list A) (r : list B) :
  NoDup (map key_r r) ->
  merge_left key_l key_r l r = map (first_match key_l key_r r) l.
Proof.
  intros Hnd. unfold merge_left, first_match.
  induction l as [|a l IH]; simpl; [reflexivity|].
  rewrite (matches_unique _ _ Hnd).
  destruct (List.find _ r); simpl; f_equal; exact IH.
Qed.

Lemma merge_left_keeps_rows (l : list A) (r : list B) :
  length l <= length (merge_left key_l key_r l r) /\
  forall a, In a l -> In a (map fst (merge_left key_l key_r l r)).
Proof.
  unfold merge_left.
  set (f := fun a : A => match matches key_r (key_l a) r with
                         | [] => [(a, None)]
                         | ms => map (fun b => (a, Some b)) ms
                         end).
  assert (Hf : forall a, 1 <= length (f a) /\ In a (map fst (f a))).
  { intros a. unfold f. destruct (matches key_r (key_l a) r); simpl; split; auto; lia. }
  induction l as [|a l [IHlen IHin]]; cbn [flat_map].
  - split; [simpl; lia|simpl; tauto].
  - rewrite length_app, map_app. destruct (Hf a) as [Hlen Hin]. split.
    + simpl. lia.
    + intros a' [<-|Ha']; apply in_or_app; [left|right]; auto.
Qed.
End MergeLeftFacts.

Lemma append_empty_r (s : string) : s +:+ "" = s.
Proof. induction s as [|c s IH]; [reflexivity|]. rewrite append_cons, IH. reflexivity. Qed.

(** Whatever the annotation table is, the left join has at least one row for
    every row of the expression table. *)
Lemma annotate_never_drops (sep : string) (df : list lfc_row)
    (annotation_df : list feature_row) :
  length df <= length (annotate_with sep df annotation_df) /\
  forall e, In e df ->
    In (PyStr.slice 7 2 (Gene_id e)) (map an_Gene_id (annotate_with sep df annotation_df)).
Proof.
  unfold annotate_with.
  destruct (merge_left_keeps_rows Gene_id locus_tag (map strip_gene_id df)
              (mRNA_rows annotation_df)) as [Hlen Hin].
  rewrite !length_map in *. split; [exact Hlen|].
  intros e He.
  specialize (Hin (strip_gene_id e) (in_map _ _ _ He)).
  apply in_map_iff in Hin as ([e' m] & Heq & Hp). simpl in Heq. subst e'.
  apply in_map_iff. exists (annotate_row sep (strip_gene_id e, m)).
  split; [reflexivity|]. apply in_map, Hp.
Qed.

(** C3: the left join of the annotator drops no row of the expression table:
    whatever the annotation table is, the annotated frame has a row for every
    expression row.  When the identifiers of the annotation rows that are
    used are distinct, it has exactly one row for every expression row, at
    the same position and with the same fold changes; a row without
    annotation is kept, its symbol and name are missing and its
    ['Annotation'] cell holds nothing but the separator. *)
Theorem annotate_left_join_keeps_every_row :
  forall (sep : string) (df : list lfc_row) (annotation_df : list feature_row),
    length df <= length (annotate_with sep df annotation_df) /\
    (forall e, In e df ->
       In (PyStr.slice 7 2 (Gene_id e))
          (map an_Gene_id (annotate_with sep df annotation_df))) /\
    (NoDup (map locus_tag (mRNA_rows annotation_df)) ->
     length (annotate_with sep df annotation_df) = length df /\
     forall i e, df !! i = Some e ->
       exists a, annotate_with sep df annotation_df !! i = Some a /\
         an_Gene_id a = PyStr.slice 7 2 (Gene_id e) /\
         an_nsp2_9 a = nsp2_9 e /\ an_NSP2ox1 a = lfc_NSP2ox1 e /\
         an_NSP2ox3 a = lfc_NSP2ox3 e /\ an_NSP2ox6 a = lfc_NSP2ox6 e /\
         (annotations_of annotation_df (an_Gene_id a) = [] ->
          Annotation a = annotation_label sep None None /\ Annotation a = sep)).
Proof.
  intros sep df ann.
  destruct (annotate_never_drops sep df ann) as [Hlen Hin].
  split; [exact Hlen|]. split; [exact Hin|].
  intros Hnd. unfold annotate_with.
  rewrite (merge_left_unique _ _ _ _ Hnd). split.
  - rewrite !length_map. reflexivity.
  - intros i e Hi. eexists. split.
    + rewrite !list_lookup_fmap, Hi. reflexivity.
    + simpl. repeat (split; [reflexivity|]).
      unfold annotations_of. rewrite (matches_unique _ _ _ Hnd).
      destruct (List.find _ (mRNA_rows ann)); [discriminate|].
      intros _. simpl. unfold annotation_label. simpl.
      split; [reflexivity|apply append_empty_r].
Qed.

(** ** [filter_lfc] as a procedure *)

Section SelectionFacts.
Context {R : Type}.

Lemma filter_sublist (p : R -> bool) (l : list R) : sublist (List.filter p l) l.
Proof.
  induction l as [|x l IH]; simpl; [constructor|].
  destruct (p x); constructor; exact IH.
Qed.

(** A filtered list is the list read at strictly increasing positions. *)
Lemma filter_positions (p : R -> bool) (l : list R) :
  exists idx : list nat,
    StronglySorted lt idx /\
    Forall2 (fun i r => l !! i = Some r) idx (List.filter p l).
Proof.
  induction l as [|x l (idx & Hsorted & Hrows)]; simpl.
  - exists []. split; constructor.
  - assert (Hshift : StronglySorted lt (map S idx)).
    { clear Hrows. induction Hsorted as [|i idx Hs IH Hall]; simpl; constructor.
      - exact IH.
      - apply Forall_map. eapply Forall_impl; [exact Hall|]. simpl. intros; lia. }
    assert (Hrows' : Forall2 (fun i r => (x :: l) !! i = Some r)
                             (map S idx) (List.filter p l)).
    { clear Hsorted Hshift. induction Hrows; simpl; constructor; auto. }
    destruct (p x).
    + exists (0 :: map S idx). split; constructor; auto.
      apply Forall_map, Forall_forall. intros; simpl; lia.
    + exists (map S idx). auto.
Qed.
End SelectionFacts.

Section ProcedureFacts.
Context {R : Type} `{LfcColumns R}.

Lemma filter_lfc_run (w : world R) (df_in : nat) (rows : list R) (lo hi : float) :
  frames w !! df_in = Some rows ->
  let df_filtered := fresh (dom (frames w)) in
  filter_lfc df_in lo hi w =
  Some (df_filtered,
        World (<[df_filtered := filter_rows rows lo hi]> (frames w))
              (stdout w ++ [Filtering_dataframe;
                            Done_filtering (length (filter_rows rows lo hi)) lo hi])
              (warnings w)).
Proof.
  intros Hin df. unfold filter_lfc, bind, print, deref, new_frame, ret. simpl.
  rewrite Hin. simpl. fold df. rewrite lookup_insert_eq. simpl.
  rewrite <- app_assoc. reflexivity.
Qed.

Lemma fresh_frame (w : world R) : frames w !! fresh (dom (frames w)) = None.
Proof. apply not_elem_of_dom, is_fresh. Qed.
End ProcedureFacts.

(** C9: [filter_lfc] only selects rows.  Called on a frame of the store it
    returns a new frame and leaves every frame of the store, the input among
    them, as it was; the rows of the new frame are a subsequence of the rows
    of the input: they are the input rows at strictly increasing positions,
    so each is an unchanged input row, in the original order, taken once. *)
Theorem filter_lfc_is_row_selection :
  forall (R : Type) (C : LfcColumns R) (w : world R) (df_in : nat) (rows : list R)
         (lfc_low lfchigh : float),
    frames w !! df_in = Some rows ->
    exists (df_filtered : nat) (w' : world R) (kept : list R),
      filter_lfc df_in lfc_low lfchigh w = Some (df_filtered, w') /\
      frames w' !! df_filtered = Some kept /\
      kept = filter_rows rows lfc_low lfchigh /\
      sublist kept rows /\
      (exists idx : list nat,
          StronglySorted lt idx /\ Forall2 (fun i r => rows !! i = Some r) idx kept) /\
      df_filtered <> df_in /\
      frames w' !! df_in = Some rows /\
      (forall df, df <> df_filtered -> frames w' !! df = frames w !! df).
Proof.
  intros R C w df_in rows lo hi Hin.
  pose proof (fresh_frame w) as Hfresh.
  eexists _, _, _. split; [apply (filter_lfc_run w df_in rows lo hi Hin)|].
  simpl. assert (Hne : fresh (dom (frames w)) <> df_in) by congruence.
  rewrite lookup_insert_eq. split; [reflexivity|]. split; [reflexivity|].
  rewrite filter_rows_filter.
  split; [apply filter_sublist|]. split; [apply filter_positions|].
  split; [exact Hne|]. split.
  - rewrite lookup_insert_ne by exact Hne. exact Hin.
  - intros df Hdf. rewrite lookup_insert_ne by congruence. reflexivity.
Qed.

(** C8, as the code has it: [filter_lfc] has no case for an empty result.  On
    every frame of the store it returns, issues no warning, and prints its
    two lines, the second with the number of rows kept, which is 0 when no
    row is kept. *)
Theorem filter_lfc_prints_count_only :
  forall (R : Type) (C : LfcColumns R) (w : world R) (df_in : nat) (rows : list R)
         (lfc_low lfchigh : float),
    frames w !! df_in = Some rows ->
    exists (df_filtered : nat) (w' : world R),
      filter_lfc df_in lfc_low lfchigh w = Some (df_filtered, w') /\
      warnings w' = warnings w /\
      stdout w' = stdout w ++
        [Filtering_dataframe;
         Done_filtering (length (filter_rows rows lfc_low lfchigh)) lfc_low lfchigh] /\
      (filter_rows rows lfc_low lfchigh = [] ->
       frames w' !! df_filtered = Some [] /\
       stdout w' = stdout w ++ [Filtering_dataframe; Done_filtering 0 lfc_low lfchigh]).
Proof.
  intros R C w df_in rows lo hi Hin.
  eexists _, _. split; [apply (filter_lfc_run w df_in rows lo hi Hin)|].
  simpl. split; [reflexivity|]. split; [reflexivity|].
  intros ->. rewrite lookup_insert_eq. split; reflexivity.
Qed.

(** On a frame none of whose rows passes the filter, [filter_lfc] returns an
    empty frame without raising and without a warning. *)
Lemma filter_lfc_empty_result_not_reported :
  filter_lfc 0 (-6) 6 quiet_world =
    Some (1, World {[ 0 := [example_row "b" (-1); example_row "c" 3]; 1 := [] ]}
                   [Filtering_dataframe; Done_filtering 0 (-6) 6] [])
  /\ ~ reports_empty_result quiet_world (filter_lfc 0 (-6) 6 quiet_world).
Proof.
  assert (Hrun : filter_lfc 0 (-6) 6 quiet_world =
    Some (1, World {[ 0 := [example_row "b" (-1); example_row "c" 3]; 1 := [] ]}
                   [Filtering_dataframe; Done_filtering 0 (-6) 6] [])).
  { vm_compute. reflexivity. }
  split; [exact Hrun|]. rewrite Hrun. simpl. intros Hw. apply Hw. reflexivity.
Qed.

(** ** Identifier cleanup of the pathway merge *)

Section CleanupFacts.

Lemma prefix_app_stop (pat s : string) (c : ascii) (t : string) :
  String.prefix pat (s +:+ String c t) = true ->
  PyStr.mem_char c pat = false ->
  String.prefix pat s = true.
Proof.
  revert s. induction pat as [|a pat IH]; intros s; [destruct s; reflexivity|].
  destruct s as [|b s].
  - change ("" +:+ String c t) with (String c t). simpl.
    destruct (ascii_dec a c) as [->|Hne]; [|discriminate].
    rewrite Ascii.eqb_refl. discriminate.
  - rewrite append_cons. simpl.
    destruct (ascii_dec a b) as [->|Hne]; [|discriminate].
    intros Hp Hm. apply orb_false_iff in Hm as [_ Hm]. auto.
Qed.

Lemma remove_all_no_match (pat s : string) (c : ascii) (t : string) :
  PyStr.contains pat s = false ->
  PyStr.mem_char c pat = false ->
  PyStr.remove_all pat (s +:+ String c t) = s +:+ PyStr.remove_all pat (String c t).
Proof.
  unfold PyStr.remove_all. intros Hs Hc.
  induction s as [|b s IH]; [reflexivity|].
  change (PyStr.contains pat (String b s))
    with (String.prefix pat (String b s) || PyStr.contains pat s) in Hs.
  apply orb_false_iff in Hs as [Hhere Hs].
  rewrite !append_cons.
  change (PyStr.remove_from 0 pat (String b (s +:+ String c t)))
    with (if String.prefix pat (String b (s +:+ String c t))
          then PyStr.remove_from (String.length pat - 1) pat (s +:+ String c t)
          else String b (PyStr.remove_from 0 pat (s +:+ String c t))).
  destruct (String.prefix pat (String b (s +:+ String c t))) eqn:Hp.
  - rewrite <- append_cons in Hp. apply prefix_app_stop in Hp; [congruence|exact Hc].
  - rewrite (IH Hs). reflexivity.
Qed.

Lemma remove_all_leading (rest : string) :
  PyStr.remove_all "Parand_" ("Parand_" +:+ rest) = PyStr.remove_all "Parand_" rest.
Proof. destruct rest; reflexivity. Qed.

Lemma remove_all_dot_digit (d : ascii) :
  PyStr.is_digit d = true ->
  PyStr.remove_all "Parand_" (String "." (String d "")) = String "." (String d "").
Proof.
  destruct d as [[] [] [] [] [] [] [] []]; intros Hd;
    solve [discriminate Hd | reflexivity].
Qed.

Lemma eqb_two_more (s : string) (x y : ascii) (t : string) :
  String.length t <= 1 ->
  String.eqb (s +:+ String x (String y "")) t = false.
Proof.
  intros Ht. apply String.eqb_neq. intros Heq.
  assert (Hlen : 2 <= String.length (s +:+ String x (String y ""))).
  { clear. induction s as [|c s IH]; [simpl; lia|]. rewrite append_cons. simpl. lia. }
  rewrite Heq in Hlen. lia.
Qed.

Lemma sub_dot_digit_end_app (body : string) (d : ascii) :
  PyStr.is_digit d = true ->
  PyStr.sub_dot_digit_end (body +:+ String "." (String d "")) = body.
Proof.
  intros Hd. induction body as [|c body IH].
  - change ("" +:+ String "." (String d "")) with (String "."%char (String d "")).
    simpl. rewrite Hd. reflexivity.
  - rewrite append_cons.
    assert (Hno : PyStr.dot_digit_end_here
                    (String c (body +:+ String "." (String d ""))) = false).
    { destruct body as [|d' body].
      - change ("" +:+ String "." (String d "")) with (String "."%char (String d "")).
        simpl. apply andb_false_iff. left. apply andb_false_r.
      - rewrite append_cons. simpl.
        rewrite !eqb_two_more by (simpl; lia). apply andb_false_r. }
    change (PyStr.sub_dot_digit_end (String c (body +:+ String "." (String d ""))))
      with (if PyStr.dot_digit_end_here (String c (body +:+ String "." (String d "")))
            then match body +:+ String "." (String d "") with
                 | String _ rest => rest
                 | EmptyString => EmptyString
                 end
            else String c (PyStr.sub_dot_digit_end (body +:+ String "." (String d "")))).
    rewrite Hno, IH. reflexivity.
Qed.

End CleanupFacts.

(** C6: the cleanup removes a leading ["Parand_"] and a final dot followed
    by one digit, whatever the digit is, from an identifier that has no other
    ["Parand_"] in it; "Parand_0001234.1" becomes "0001234", also as the last
    part of a label. *)
Theorem clean_gene_id_strips_prefix_and_suffix :
  clean_gene_id "Parand_0001234.1" = "0001234"
  /\ pathway_label {| geneid := "Parand_0001234.1"; annotation := "CCD7" |}
     = "CCD7 | 0001234"
  /\ forall (body : string) (d : ascii),
       PyStr.contains "Parand_" body = false ->
       PyStr.is_digit d = true ->
       clean_gene_id ("Parand_" +:+ body +:+ String "." (String d "")) = body.
Proof.
  split; [reflexivity|]. split; [reflexivity|].
  intros body d Hbody Hd. unfold clean_gene_id.
  assert (Hrem : PyStr.remove_all "Parand_" ("Parand_" +:+ body +:+ String "." (String d ""))
                 = body +:+ String "." (String d "")).
  { rewrite remove_all_leading.
    rewrite remove_all_no_match by (exact Hbody || reflexivity).
    f_equal. apply remove_all_dot_digit, Hd. }
  rewrite Hrem. apply sub_dot_digit_end_app, Hd.
Qed.

(** ** The inner join *)

Section MergeInnerFacts.
Context {A B : Type} (key_l : A -> string) (key_r : B -> string).

Lemma key_groups_NoDup (ks : list string) : NoDup ks -> key_groups ks = ks.
Proof.
  induction ks as [|k ks IH]; [reflexivity|].
  intros [Hk Hnd]%NoDup_cons. simpl. rewrite (IH Hnd). f_equal.
  clear IH Hnd. induction ks as [|k' ks IH]; [reflexivity|].
  apply not_elem_of_cons in Hk as [Hne Hk]. simpl.
  destruct (String.eqb_spec k k'); [congruence|]. simpl. f_equal. auto.
Qed.

Lemma elem_of_key_groups (k : string) (ks : list string) :
  In k (key_groups ks) <-> In k ks.
Proof.
  induction ks as [|k' ks IH]; simpl; [tauto|].
  rewrite filter_In, IH, negb_true_iff, String.eqb_neq.
  destruct (String.eqb_spec k' k); intuition congruence.
Qed.

Lemma filter_key_unique (l : list A) (a : A) :
  NoDup (map key_l l) -> In a l ->
  List.filter (fun a' => String.eqb (key_l a) (key_l a')) l = [a].
Proof.
  induction l as [|x l IH]; simpl; [tauto|].
  intros [Hx Hnd]%NoDup_cons Hin.
  assert (Hrest : forall y, key_l y = key_l x ->
              List.filter (fun a' => String.eqb (key_l y) (key_l a')) l = []).
  { intros y Hy. clear IH Hnd Hin. induction l as [|z l IHl]; [reflexivity|].
    simpl in Hx. apply not_elem_of_cons in Hx as [Hne Hx]. simpl.
    destruct (String.eqb_spec (key_l y) (key_l z)); [congruence|auto]. }
  destruct Hin as [->|Hin].
  - rewrite String.eqb_refl, Hrest; reflexivity.
  - destruct (String.eqb_spec (key_l a) (key_l x)) as [Heq|Hne]; [|auto].
    exfalso. apply Hx. rewrite <- Heq. apply list_elem_of_In, in_map, Hin.
Qed.

(** With distinct left keys the inner join runs through the left frame in
    its order. *)
Lemma merge_inner_left_order (l : list A) (r : list B) :
  NoDup (map key_l l) ->
  merge_inner key_l key_r l r =
  flat_map (fun a => map (fun b => (a, b)) (matches key_r (key_l a) r)) l.
Proof.
  intros Hnd. unfold merge_inner. rewrite (key_groups_NoDup _ Hnd).
  assert (Hin : forall a, In a l -> In a l) by auto.
  revert Hin. generalize l at 1 4 5. intros l0 Hin.
  induction l0 as [|a l0 IH]; [reflexivity|].
  cbn [map flat_map]. rewrite IH by (intros; apply Hin; right; assumption).
  rewrite (filter_key_unique l a Hnd) by (apply Hin; left; reflexivity).
  simpl. rewrite app_nil_r. reflexivity.
Qed.

Lemma merge_inner_pairs (l : list A) (r : list B) (a : A) (b : B) :
  In (a, b) (merge_inner key_l key_r l r) <->
  In a l /\ In b r /\ key_l a = key_r b.
Proof.
  unfold merge_inner, matches. rewrite in_flat_map. split.
  - intros (k & _ & Hab). apply in_flat_map in Hab as (a' & Ha' & Hb).
    apply in_map_iff in Hb as (b' & [= -> ->] & Hb).
    apply filter_In in Ha' as [Ha' ->%String.eqb_eq].
    apply filter_In in Hb as [Hb ->%String.eqb_eq]. auto.
  - intros (Ha & Hb & Heq). exists (key_l a). split.
    + apply elem_of_key_groups, in_map, Ha.
    + apply in_flat_map. exists a. split.
      * apply filter_In. split; [exact Ha|apply String.eqb_refl].
      * apply in_map, filter_In. split; [exact Hb|]. apply String.eqb_eq, Heq.
Qed.

(** With distinct keys on both sides the keys of the join are the left keys
    that occur on the right, in left order. *)
Lemma merge_inner_keys (l : list A) (r : list B) :
  NoDup (map key_l l) -> NoDup (map key_r r) ->
  map (fun ab => key_l (fst ab)) (merge_inner key_l key_r l r) =
  List.filter (fun k => bool_decide (k ∈ map key_r r)) (map key_l l).
Proof.
  intros Hl Hr. rewrite (merge_inner_left_order l r Hl). clear Hl.
  induction l as [|a l IH]; [reflexivity|].
  cbn [flat_map map List.filter]. rewrite map_app, IH. clear IH.
  rewrite (matches_unique key_r _ r Hr).
  destruct (List.find _ r) as [b|] eqn:Hfind.
  - apply find_some in Hfind as [Hb Heq%String.eqb_eq].
    rewrite bool_decide_eq_true_2; [reflexivity|].
    rewrite Heq. apply list_elem_of_In, in_map, Hb.
  - rewrite bool_decide_eq_false_2; [reflexivity|].
    intros Hin%list_elem_of_In. apply in_map_iff in Hin as (b & Hk & Hb).
    apply (find_none _ _ Hfind) in Hb. rewrite Hk, String.eqb_refl in Hb. discriminate.
Qed.

Lemma merge_inner_length (l : list A) (r : list B) :
  NoDup (map key_l l) -> NoDup (map key_r r) ->
  length (merge_inner key_l key_r l r) <= Nat.min (length l) (length r).
Proof.
  intros Hl Hr.
  pose proof (merge_inner_keys l r Hl Hr) as Hkeys.
  apply (f_equal (@length string)) in Hkeys. rewrite length_map in Hkeys.
  rewrite Hkeys. apply Nat.min_glb.
  - rewrite <- (length_map key_l l). apply List.filter_length_le.
  - rewrite <- (length_map key_r r). apply NoDup_incl_length.
    + apply List.NoDup_filter, NoDup_ListNoDup, Hl.
    + intros k [_ Hk%bool_decide_eq_true_1]%filter_In. apply list_elem_of_In, Hk.
Qed.
End MergeInnerFacts.

(** ** The sort: the index array keeps its length *)

Section ArgsortLength.
Variable v : list float.

Import NumpySort.

Lemma swap_length a i j : length (swap a i j) = length a.
Proof. unfold swap. rewrite !length_insert. reflexivity. Qed.

Lemma median3_length a pl pm pr : length (median3 v a pl pm pr) = length a.
Proof.
  unfold median3.
  repeat (match goal with |- context [if ?b then _ else _] => destruct b end);
    rewrite ?swap_length; reflexivity.
Qed.

Lemma partition_loop_length rounds a vp pl pr pi pj :
  length (partition_loop v rounds a vp pl pr pi pj).1 = length a.
Proof.
  revert a pi pj. induction rounds as [|rounds IH]; intros a pi pj; simpl; [reflexivity|].
  destruct (_ <=? _); simpl; [reflexivity|]. rewrite IH, swap_length. reflexivity.
Qed.

Lemma partition_length a pl pr : length (partition v a pl pr).1 = length a.
Proof.
  unfold partition.
  pose proof (partition_loop_length (pr - pl)
                (swap (median3 v a pl (pl + (pr - pl) / 2) pr) (pl + (pr - pl) / 2) (pr - 1))
                (key v (median3 v a pl (pl + (pr - pl) / 2) pr) (pl + (pr - pl) / 2))
                pl pr pl (pr - 1)) as Hloop.
  destruct (partition_loop _ _ _ _ _ _ _ _) as [a' pi]. simpl in *.
  rewrite swap_length, Hloop, swap_length, median3_length. reflexivity.
Qed.

Lemma shift_up_length a vp pj room : length (shift_up v a vp pj room).1 = length a.
Proof.
  revert a pj. induction room as [|room IH]; intros a pj; simpl; [reflexivity|].
  destruct (less _ _); simpl; [|reflexivity]. rewrite IH, length_insert. reflexivity.
Qed.

Lemma insert_at_length a pl pi : length (insert_at v a pl pi) = length a.
Proof.
  unfold insert_at.
  pose proof (shift_up_length a (v !!! (a !!! pi)) pi (pi - pl)) as Hs.
  destruct (shift_up _ _ _ _ _) as [a' pj]. simpl in *.
  rewrite length_insert. exact Hs.
Qed.

Lemma insertion_rounds_length a pl pi count :
  length (insertion_rounds v a pl pi count) = length a.
Proof.
  revert a pi. induction count as [|count IH]; intros a pi; simpl; [reflexivity|].
  rewrite IH, insert_at_length. reflexivity.
Qed.

Lemma insertion_sort_length a pl pr : length (insertion_sort v a pl pr) = length a.
Proof. apply insertion_rounds_length. Qed.

Lemma hset_length a pl k x : length (hset a pl k x) = length a.
Proof. apply length_insert. Qed.

Lemma sift_length rounds a pl n tmp i j :
  length (sift v rounds a pl n tmp i j) = length a.
Proof.
  revert a i j. induction rounds as [|rounds IH]; intros a i j; simpl;
    [apply hset_length|].
  destruct (j <=? n); [|apply hset_length].
  destruct (less _ _); [|apply hset_length].
  rewrite IH. apply hset_length.
Qed.

Lemma heapify_length a pl n l : length (heapify v a pl n l) = length a.
Proof.
  revert a. induction l as [|l IH]; intros a; simpl; [reflexivity|].
  rewrite IH. apply sift_length.
Qed.

Lemma sort_down_length a pl n : length (sort_down v a pl n) = length a.
Proof.
  revert a. induction n as [|n IH]; intros a; [reflexivity|].
  destruct n as [|n]; [reflexivity|].
  change (sort_down v a pl (S (S n)))
    with (sort_down v (sift v (S n) (hset a pl (S (S n)) (hget a pl 1)) pl (S n)
                            (hget a pl (S (S n))) 1 2) pl (S n)).
  rewrite IH, sift_length. apply hset_length.
Qed.

Lemma aheapsort_length a pl n : length (aheapsort v a pl n) = length a.
Proof. unfold aheapsort. rewrite sort_down_length. apply heapify_length. Qed.

Lemma quick_length size a pl pr cdepth :
  length (quick v size a pl pr cdepth) = length a.
Proof.
  revert a pl pr cdepth. induction size as [|size IH]; intros a pl pr cdepth;
    simpl; [reflexivity|].
  destruct (SMALL_QUICKSORT <? pr - pl); [|apply insertion_sort_length].
  pose proof (partition_length a pl pr) as Hp.
  destruct (partition v a pl pr) as [a' pi]. simpl in Hp.
  destruct (pi - pl <? pr - pi), (cdepth - 1 <? 0)%Z;
    rewrite ?aheapsort_length, ?IH; exact Hp.
Qed.

Lemma argsort_length : length (argsort v) = length v.
Proof. unfold argsort. rewrite quick_length. apply length_seq. Qed.
End ArgsortLength.

Section SortValuesFacts.
Context {R : Type} `{LfcColumns R}.

Lemma nargsort_length (items : list float) : length (nargsort items) = length items.
Proof.
  unfold nargsort, non_nans, non_nan_idx, nan_idx.
  rewrite length_app, length_map, argsort_length, length_map.
  assert (Hsplit : forall idx : list nat,
             length (List.filter (fun i => negb (isna (items !!! i))) idx)
             + length (List.filter (fun i => isna (items !!! i)) idx) = length idx).
  { induction idx as [|i idx IH]; simpl; [reflexivity|].
    destruct (isna (items !!! i)); simpl; lia. }
  rewrite Hsplit. apply length_seq.
Qed.

Lemma take_In (df : list R) (indexer : list nat) (r : R) :
  In r (take df indexer) -> In r df.
Proof.
  unfold take. intros Hr%list_elem_of_In. apply list_elem_of_omap in Hr as (i & _ & Hi).
  apply list_elem_of_In. eapply list_elem_of_lookup_2, Hi.
Qed.

Lemma sort_values_In (df : list R) (r : R) : In r (sort_values df) -> In r df.
Proof. apply take_In. Qed.
End SortValuesFacts.

(** ** The sort: the index array stays a permutation of the positions *)

Section ArgsortPermutation.
Variable v : list float.

Import NumpySort.

Lemma swap_perm (a : list nat) i j :
  i < length a -> j < length a -> swap a i j ≡ₚ a.
Proof.
  intros Hi Hj. unfold swap. apply Permutation_insert_swap.
  - apply list_lookup_lookup_total_lt, Hi.
  - apply list_lookup_lookup_total_lt, Hj.
Qed.

Lemma median3_perm (a : list nat) pl pm pr :
  pl < length a -> pm < length a -> pr < length a -> median3 v a pl pm pr ≡ₚ a.
Proof.
  intros Hl Hm Hr. unfold median3.
  repeat (match goal with
          | |- context [if ?b then _ else _] => destruct b
          | |- swap ?b _ _ ≡ₚ _ => rewrite (swap_perm b) by (rewrite ?swap_length; assumption)
          end); reflexivity.
Qed.

Lemma scan_up_bounds (a : list nat) vp pi room :
  pi <= scan_up v a vp pi room <= pi + room.
Proof.
  revert pi. induction room as [|room IH]; intros pi; simpl; [lia|].
  destruct (less _ _); [|lia]. specialize (IH (S pi)). lia.
Qed.

Lemma scan_down_bounds (a : list nat) vp pj room :
  pj - room <= scan_down v a vp pj room <= pj.
Proof.
  revert pj. induction room as [|room IH]; intros pj; simpl; [lia|].
  destruct (less _ _); [|lia]. specialize (IH (pj - 1)). lia.
Qed.

Lemma partition_loop_spec rounds (a : list nat) vp pl pr pi pj :
  pl <= pi -> pi < pj -> pj <= pr - 1 -> pr < length a -> pj - pi <= rounds ->
  (partition_loop v rounds a vp pl pr pi pj).1 ≡ₚ a /\
  pl < (partition_loop v rounds a vp pl pr pi pj).2 <= pr - 1.
Proof.
  revert a pi pj. induction rounds as [|rounds IH]; intros a pi pj Hpl Hlt Hpr Hlen Hr;
    [lia|].
  cbn [partition_loop].
  pose proof (scan_up_bounds a vp (S pi) (pr - 1 - S pi)) as Hup.
  pose proof (scan_down_bounds a vp (pj - 1) (pj - 1 - pl)) as Hdown.
  set (pi' := scan_up v a vp (S pi) (pr - 1 - S pi)) in *.
  set (pj' := scan_down v a vp (pj - 1) (pj - 1 - pl)) in *.
  destruct (pj' <=? pi') eqn:Hcmp.
  - simpl. split; [reflexivity|lia].
  - apply Nat.leb_gt in Hcmp.
    destruct (IH (swap a pi' pj') pi' pj') as [Hperm Hb];
      rewrite ?swap_length; try lia.
    split; [|exact Hb]. rewrite Hperm. apply swap_perm; lia.
Qed.

Lemma partition_spec (a : list nat) pl pr :
  SMALL_QUICKSORT < pr - pl -> pr < length a ->
  (partition v a pl pr).1 ≡ₚ a /\
  length (partition v a pl pr).1 = length a /\
  pl < (partition v a pl pr).2 < pr.
Proof.
  unfold SMALL_QUICKSORT. intros Hbig Hlen.
  split; [|split; [apply partition_length|]]; unfold partition.
  - set (pm := pl + (pr - pl) / 2).
    assert (Hpm : pm <= pr).
    { unfold pm. pose proof (Nat.Div0.div_le_upper_bound (pr - pl) 2 (pr - pl)). lia. }
    set (a1 := median3 v a pl pm pr).
    assert (Ha1 : a1 ≡ₚ a) by (apply median3_perm; lia).
    assert (Hl1 : length a1 = length a) by apply median3_length.
    destruct (partition_loop_spec (pr - pl) (swap a1 pm (pr - 1)) (key v a1 pm)
                pl pr pl (pr - 1)) as [Hperm Hb]; rewrite ?swap_length; try lia.
    destruct (partition_loop _ _ _ _ _ _ _ _) as [a2 pi]. simpl in *.
    rewrite swap_perm.
    + rewrite Hperm, swap_perm by lia. exact Ha1.
    + apply Permutation_length in Hperm. rewrite swap_length in Hperm. lia.
    + apply Permutation_length in Hperm. rewrite swap_length in Hperm. lia.
  - set (pm := pl + (pr - pl) / 2).
    set (a1 := median3 v a pl pm pr).
    assert (Hl1 : length a1 = length a) by apply median3_length.
    destruct (partition_loop_spec (pr - pl) (swap a1 pm (pr - 1)) (key v a1 pm)
                pl pr pl (pr - 1)) as [Hperm Hb]; rewrite ?swap_length; try lia.
    destruct (partition_loop _ _ _ _ _ _ _ _) as [a2 pi]. simpl in *. lia.
Qed.

(** The gap of the shifting loop: writing the held position into the gap
    gives a permutation at every step. *)
Lemma shift_up_perm (a : list nat) x vp pj room :
  room <= pj -> pj < length a ->
  <[(shift_up v a vp pj room).2 := x]> (shift_up v a vp pj room).1 ≡ₚ <[pj := x]> a.
Proof.
  revert a pj. induction room as [|room IH]; intros a pj Hroom Hlen; [reflexivity|].
  cbn [shift_up]. destruct (less _ _); [|reflexivity].
  rewrite IH by (rewrite ?length_insert; lia).
  rewrite <- (list_insert_insert_eq a pj (a !!! (pj - 1)) x).
  apply Permutation_insert_swap.
  - apply list_lookup_insert_eq. lia.
  - rewrite list_lookup_insert_ne by lia. apply list_lookup_lookup_total_lt. lia.
Qed.

Lemma insert_at_perm (a : list nat) pl pi :
  pl <= pi -> pi < length a -> insert_at v a pl pi ≡ₚ a.
Proof.
  intros Hpl Hlen. unfold insert_at.
  pose proof (shift_up_perm a (a !!! pi) (v !!! (a !!! pi)) pi (pi - pl)) as Hs.
  destruct (shift_up _ _ _ _ _) as [a' pj]. simpl in Hs.
  rewrite Hs by lia. rewrite list_insert_id; [reflexivity|].
  apply list_lookup_lookup_total_lt, Hlen.
Qed.

Lemma insertion_rounds_perm (a : list nat) pl pi count :
  pl <= pi -> pi + count <= length a -> insertion_rounds v a pl pi count ≡ₚ a.
Proof.
  revert a pi. induction count as [|count IH]; intros a pi Hpl Hlen; [reflexivity|].
  cbn [insertion_rounds]. rewrite IH by (rewrite ?insert_at_length; lia).
  apply insert_at_perm; lia.
Qed.

Lemma insertion_sort_perm (a : list nat) pl pr :
  pr < length a -> insertion_sort v a pl pr ≡ₚ a.
Proof.
  intros Hlen. unfold insertion_sort.
  destruct (Nat.le_gt_cases pl pr) as [Hle|Hgt].
  - apply insertion_rounds_perm; lia.
  - replace (pr - pl) with 0 by lia. reflexivity.
Qed.

Lemma sift_perm rounds (a : list nat) pl n tmp i j :
  1 <= i -> i < j -> i <= n -> pl + n <= length a ->
  sift v rounds a pl n tmp i j ≡ₚ hset a pl i tmp.
Proof.
  revert a i j. induction rounds as [|rounds IH]; intros a i j Hi Hij Hin Hlen;
    [reflexivity|].
  cbn [sift]. destruct (j <=? n) eqn:Hjn; [|reflexivity].
  apply Nat.leb_le in Hjn.
  set (j' := if (j <? n) && less (v !!! hget a pl j) (v !!! hget a pl (j + 1))
             then j + 1 else j).
  assert (Hj' : j <= j' <= n).
  { unfold j'. destruct (j <? n) eqn:Hlt; simpl; [|lia].
    apply Nat.ltb_lt in Hlt. destruct (less _ _); lia. }
  destruct (less (v !!! tmp) (v !!! hget a pl j')); [|reflexivity].
  rewrite IH by (rewrite ?hset_length; lia).
  unfold hset, hget.
  rewrite <- (list_insert_insert_eq a (pl + i - 1) (a !!! (pl + j' - 1)) tmp).
  apply Permutation_insert_swap.
  - apply list_lookup_insert_eq. lia.
  - rewrite list_lookup_insert_ne by lia. apply list_lookup_lookup_total_lt. lia.
Qed.

(** The bound [rounds] of the sifting loop is never used up: [j] doubles in
    every round. *)
Lemma sift_rounds_irrelevant r1 r2 (a : list nat) pl n tmp i j :
  1 <= j -> n < j * 2 ^ r1 -> n < j * 2 ^ r2 ->
  sift v r1 a pl n tmp i j = sift v r2 a pl n tmp i j.
Proof.
  revert r2 a i j. induction r1 as [|r1 IH]; intros r2 a i j Hj H1 H2.
  - rewrite Nat.pow_0_r, Nat.mul_1_r in H1.
    destruct r2 as [|r2]; [reflexivity|]. cbn [sift].
    replace (j <=? n) with false by (symmetry; apply Nat.leb_gt; lia). reflexivity.
  - destruct r2 as [|r2].
    + rewrite Nat.pow_0_r, Nat.mul_1_r in H2. cbn [sift].
      replace (j <=? n) with false by (symmetry; apply Nat.leb_gt; lia). reflexivity.
    + cbn [sift]. destruct (j <=? n); [|reflexivity].
      set (j' := if (j <? n) && less (v !!! hget a pl j) (v !!! hget a pl (j + 1))
                 then j + 1 else j).
      assert (Hj' : j <= j') by (unfold j'; destruct (_ && _); lia).
      destruct (less (v !!! tmp) (v !!! hget a pl j')); [|reflexivity].
      rewrite Nat.pow_succ_r' in H1, H2. apply IH; nia.
Qed.

Lemma sift_rounds_heap n l : 1 <= l -> n < 2 * l * 2 ^ n.
Proof. intros Hl. pose proof (Nat.pow_gt_lin_r 2 n). nia. Qed.

Lemma heapify_perm (a : list nat) pl n l :
  2 * l <= n -> pl + n <= length a -> heapify v a pl n l ≡ₚ a.
Proof.
  revert a. induction l as [|l IH]; intros a Hl Hlen; [reflexivity|].
  cbn [heapify]. rewrite IH by (rewrite ?sift_length; lia).
  rewrite sift_perm by lia. unfold hset, hget.
  rewrite list_insert_id; [reflexivity|]. apply list_lookup_lookup_total_lt. lia.
Qed.

Lemma sort_down_perm (a : list nat) pl n :
  pl + n <= length a -> sort_down v a pl n ≡ₚ a.
Proof.
  revert a. induction n as [|n IH]; intros a Hlen; [reflexivity|].
  destruct n as [|n]; [reflexivity|].
  change (sort_down v a pl (S (S n)))
    with (sort_down v (sift v (S n) (hset a pl (S (S n)) (hget a pl 1)) pl (S n)
                            (hget a pl (S (S n))) 1 2) pl (S n)).
  rewrite IH by (rewrite sift_length, hset_length; lia).
  rewrite sift_perm by (rewrite ?hset_length; lia).
  unfold hset, hget. apply Permutation_insert_swap.
  - apply list_lookup_lookup_total_lt. lia.
  - apply list_lookup_lookup_total_lt. lia.
Qed.

Lemma aheapsort_perm (a : list nat) pl n :
  pl + n <= length a -> aheapsort v a pl n ≡ₚ a.
Proof.
  intros Hlen. unfold aheapsort.
  rewrite sort_down_perm by (rewrite heapify_length; exact Hlen).
  apply heapify_perm; [|exact Hlen].
  pose proof (Nat.Div0.mul_div_le n 2). lia.
Qed.

Lemma quick_perm size (a : list nat) pl pr cdepth :
  pr < length a -> quick v size a pl pr cdepth ≡ₚ a.
Proof.
  revert a pl pr cdepth. induction size as [|size IH]; intros a pl pr cdepth Hlen;
    [reflexivity|].
  cbn [quick]. destruct (SMALL_QUICKSORT <? pr - pl) eqn:Hbig;
    [|apply insertion_sort_perm, Hlen].
  apply Nat.ltb_lt in Hbig.
  destruct (partition_spec a pl pr Hbig Hlen) as (Hperm & Hplen & Hpi).
  destruct (partition v a pl pr) as [a' pi]. simpl in Hperm, Hplen, Hpi.
  rewrite <- Hperm.
  destruct (pi - pl <? pr - pi), (cdepth - 1 <? 0)%Z;
    rewrite ?aheapsort_perm, ?IH; rewrite ?quick_length; try reflexivity; lia.
Qed.

(** The bound [size] of the recursion is never used up: any bound above the
    length of the range gives the same result. *)
Lemma quick_size_irrelevant size1 size2 (a : list nat) pl pr cdepth :
  pr - pl < size1 -> pr - pl < size2 -> pr < length a ->
  quick v size1 a pl pr cdepth = quick v size2 a pl pr cdepth.
Proof.
  revert size2 a pl pr cdepth.
  induction size1 as [|size1 IH]; intros size2 a pl pr cdepth H1 H2 Hlen; [lia|].
  destruct size2 as [|size2]; [lia|].
  cbn [quick]. destruct (SMALL_QUICKSORT <? pr - pl) eqn:Hbig; [|reflexivity].
  apply Nat.ltb_lt in Hbig.
  destruct (partition_spec a pl pr Hbig Hlen) as (_ & Hplen & Hpi).
  destruct (partition v a pl pr) as [a' pi]. simpl in Hplen, Hpi.
  destruct (pi - pl <? pr - pi), (cdepth - 1 <? 0)%Z.
  - rewrite (IH size2) by lia. reflexivity.
  - rewrite (IH size2 a') by lia. apply IH; rewrite ?quick_length; lia.
  - rewrite (IH size2) by lia. reflexivity.
  - rewrite (IH size2 a') by lia. apply IH; rewrite ?quick_length; lia.
Qed.

Lemma argsort_size_irrelevant size :
  length v <= size ->
  quick v size (seq 0 (length v)) 0 (length v - 1) (2 * Z.log2 (Z.of_nat (length v)))%Z
  = argsort v.
Proof.
  intros Hsize. unfold argsort.
  destruct (length v) as [|n] eqn:Hn.
  - destruct size; reflexivity.
  - apply quick_size_irrelevant; rewrite ?length_seq; lia.
Qed.

Lemma argsort_perm : argsort v ≡ₚ seq 0 (length v).
Proof.
  unfold argsort. destruct (length v) as [|n]; [reflexivity|].
  apply quick_perm. rewrite length_seq. lia.
Qed.

End ArgsortPermutation.

(** ** The sort: from positions to rows *)

Section Positions.
Context {R : Type} `{LfcColumns R}.

Lemma take_seq (df : list R) : take df (seq 0 (length df)) = df.
Proof.
  unfold take. induction df as [|r df IH] using rev_ind; [reflexivity|].
  rewrite length_app, Nat.add_1_r, seq_S, omap_app. simpl.
  rewrite list_lookup_middle by reflexivity. simpl. f_equal.
  rewrite <- IH at 2. apply list_omap_ext, Forall2_same_length_lookup_2.
  - reflexivity.
  - intros i x y Hx Hy. assert (x = y) as <- by congruence.
    apply lookup_seq in Hx as [-> Hlt]. apply lookup_app_l. exact Hlt.
Qed.

Lemma items_lookup (df : list R) (i : nat) (r : R) :
  df !! i = Some r -> map NSP2ox6 df !!! i = NSP2ox6 r.
Proof.
  intros Hi. apply list_lookup_total_correct.
  rewrite list_lookup_fmap, Hi. reflexivity.
Qed.

(** Selecting rows by their key after [take] is selecting the positions. *)
Lemma take_filter (q : float -> bool) (df : list R) (idx : list nat) :
  Forall (fun i => i < length df) idx ->
  List.filter (fun r => q (NSP2ox6 r)) (take df idx)
  = take df (List.filter (fun i => q (map NSP2ox6 df !!! i)) idx).
Proof.
  unfold take. induction 1 as [|i idx Hi Hidx IH]; [reflexivity|].
  destruct (lookup_lt_is_Some_2 df i Hi) as [r Hr].
  cbn [List.filter]. rewrite (items_lookup df i r Hr). csimpl. rewrite Hr. simpl.
  destruct (q (NSP2ox6 r)); csimpl; rewrite ?Hr; simpl; rewrite IH; reflexivity.
Qed.

Lemma take_length (df : list R) (idx : list nat) :
  Forall (fun i => i < length df) idx -> length (take df idx) = length idx.
Proof.
  unfold take. induction 1 as [|i idx Hi Hidx IH]; [reflexivity|].
  destruct (lookup_lt_is_Some_2 df i Hi) as [r Hr].
  csimpl. rewrite Hr. simpl. rewrite IH. reflexivity.
Qed.

Lemma seq_bounded (n : nat) : Forall (fun i => i < n) (seq 0 n).
Proof. apply Forall_forall. intros i Hi%list_elem_of_In%in_seq. lia. Qed.

Lemma filter_bounded (p : nat -> bool) (n : nat) (idx : list nat) :
  Forall (fun i => i < n) idx -> Forall (fun i => i < n) (List.filter p idx).
Proof.
  intros Hidx. apply Forall_forall. intros i [Hi _]%list_elem_of_In%filter_In.
  rewrite Forall_forall in Hidx. apply Hidx, list_elem_of_In, Hi.
Qed.

Lemma filter_by_positions (q : float -> bool) (df : list R) :
  List.filter (fun r => q (NSP2ox6 r)) df
  = take df (List.filter (fun i => q (map NSP2ox6 df !!! i)) (seq 0 (length df))).
Proof.
  rewrite <- take_filter by apply seq_bounded. rewrite take_seq. reflexivity.
Qed.

Lemma filter_filter_implied {A} (p q : A -> bool) (l : list A) :
  (forall x, p x = true -> q x = true) ->
  List.filter p (List.filter q l) = List.filter p l.
Proof.
  intros Hpq. induction l as [|x l IH]; [reflexivity|]. simpl.
  destruct (q x) eqn:Hq, (p x) eqn:Hp; simpl; rewrite ?Hp, ?IH; try reflexivity.
  rewrite (Hpq x Hp) in Hq. discriminate.
Qed.

Lemma filter_none {A} (p : A -> bool) (l : list A) :
  (forall x, In x l -> p x = false) -> List.filter p l = [].
Proof.
  induction l as [|x l IH]; [reflexivity|]. intros Hp. simpl.
  rewrite (Hp x) by (left; reflexivity). apply IH. intros; apply Hp; right; assumption.
Qed.

Lemma filter_all {A} (p : A -> bool) (l : list A) :
  (forall x, In x l -> p x = true) -> List.filter p l = l.
Proof.
  induction l as [|x l IH]; [reflexivity|]. intros Hp. simpl.
  rewrite (Hp x) by (left; reflexivity). f_equal. apply IH.
  intros; apply Hp; right; assumption.
Qed.

Lemma filter_map_comm {A B} (f : A -> B) (p : B -> bool) (l : list A) :
  List.filter p (map f l) = map f (List.filter (fun x => p (f x)) l).
Proof.
  induction l as [|x l IH]; [reflexivity|]. simpl.
  destruct (p (f x)); simpl; rewrite IH; reflexivity.
Qed.

Lemma map_lookup_seq (l : list nat) : map (fun p => l !!! p) (seq 0 (length l)) = l.
Proof.
  induction l as [|x l IH] using rev_ind; [reflexivity|].
  rewrite length_app, Nat.add_1_r, seq_S, map_app. simpl.
  rewrite list_lookup_total_middle by reflexivity. f_equal.
  rewrite <- IH at 2. apply map_ext_in. intros p Hp%in_seq.
  apply lookup_total_app_l. lia.
Qed.

Lemma filter_split_perm {A} (p : A -> bool) (l : list A) :
  List.filter (fun x => negb (p x)) l ++ List.filter p l ≡ₚ l.
Proof.
  induction l as [|x l IH]; [reflexivity|]. simpl.
  destruct (p x); simpl.
  - rewrite <- Permutation_middle. constructor. exact IH.
  - constructor. exact IH.
Qed.

End Positions.

(** ** The sort: what [sort_values] inherits from [argsort] *)

Section SortValuesOrder.
Context {R : Type} `{LfcColumns R}.
Variable df : list R.

Let items : list float := map NSP2ox6 df.
Let perm : list nat := NumpySort.argsort (non_nans items).

Lemma non_nan_idx_eq :
  non_nan_idx items
  = List.filter (fun i => negb (isna (items !!! i))) (seq 0 (length df)).
Proof. unfold non_nan_idx, items. rewrite length_map. reflexivity. Qed.

Lemma nan_idx_eq :
  nan_idx items = List.filter (fun i => isna (items !!! i)) (seq 0 (length df)).
Proof. unfold nan_idx, items. rewrite length_map. reflexivity. Qed.

Lemma non_nan_idx_bounded : Forall (fun i => i < length df) (non_nan_idx items).
Proof.
  unfold non_nan_idx, items. rewrite length_map.
  apply filter_bounded, seq_bounded.
Qed.

Lemma nan_idx_bounded : Forall (fun i => i < length df) (nan_idx items).
Proof.
  unfold nan_idx, items. rewrite length_map.
  apply filter_bounded, seq_bounded.
Qed.

Lemma non_nan_idx_keyed (i : nat) :
  In i (non_nan_idx items) -> isna (items !!! i) = false.
Proof. intros [_ Hi]%filter_In. apply negb_true_iff, Hi. Qed.

Lemma non_nans_length : length (non_nans items) = length (non_nan_idx items).
Proof. apply length_map. Qed.

Lemma non_nans_lookup (p : nat) :
  p < length (non_nan_idx items) ->
  non_nans items !!! p = items !!! (non_nan_idx items !!! p).
Proof.
  intros Hp. apply list_lookup_total_correct. unfold non_nans.
  rewrite list_lookup_fmap, (list_lookup_lookup_total_lt _ _ Hp). reflexivity.
Qed.

Section GivenPermutation.
Hypothesis perm_seq : perm ≡ₚ seq 0 (length (non_nans items)).

Lemma perm_bounded (p : nat) : In p perm -> p < length (non_nan_idx items).
Proof.
  intros Hp%list_elem_of_In. rewrite perm_seq in Hp.
  apply list_elem_of_In, in_seq in Hp. rewrite non_nans_length in Hp. lia.
Qed.

Lemma sorted_positions_keyed (i : nat) :
  In i (map (fun p => non_nan_idx items !!! p) perm) -> In i (non_nan_idx items).
Proof.
  intros (p & <- & Hp%perm_bounded)%in_map_iff.
  apply list_elem_of_In, list_elem_of_lookup_total_2, Hp.
Qed.

Lemma sorted_positions_bounded :
  Forall (fun i => i < length df) (map (fun p => non_nan_idx items !!! p) perm).
Proof.
  apply Forall_forall. intros i Hi%list_elem_of_In%sorted_positions_keyed.
  pose proof non_nan_idx_bounded as Hb. rewrite Forall_forall in Hb.
  apply Hb, list_elem_of_In, Hi.
Qed.

Lemma sort_values_split :
  sort_values df
  = take df (map (fun p => non_nan_idx items !!! p) perm) ++ take df (nan_idx items).
Proof. unfold sort_values, nargsort, take. apply omap_app. Qed.

Lemma sort_values_perm : sort_values df ≡ₚ df.
Proof.
  rewrite <- (take_seq df) at 2. unfold sort_values, nargsort, take.
  apply omap_Permutation.
  fold items. fold perm. rewrite perm_seq, non_nans_length, map_lookup_seq.
  unfold non_nan_idx, nan_idx, items. rewrite length_map.
  apply (filter_split_perm (fun i => isna (map NSP2ox6 df !!! i))).
Qed.

Lemma sort_values_keyed_first :
  sort_values df
  = List.filter keyed (sort_values df) ++ List.filter (fun r => isna (NSP2ox6 r)) df.
Proof.
  rewrite sort_values_split at 2. rewrite List.filter_app. unfold keyed.
  rewrite (take_filter (fun x => negb (isna x))) by apply sorted_positions_bounded.
  rewrite (take_filter (fun x => negb (isna x))) by apply nan_idx_bounded.
  fold items.
  rewrite filter_all;
    [|intros i Hi%sorted_positions_keyed; apply negb_true_iff, non_nan_idx_keyed, Hi].
  rewrite (filter_none _ (nan_idx items));
    [|intros i [_ Hi]%filter_In; rewrite Hi; reflexivity].
  change (take df []) with (@nil R). rewrite app_nil_r.
  rewrite (filter_by_positions isna df). fold items. rewrite <- nan_idx_eq.
  apply sort_values_split.
Qed.

End GivenPermutation.

End SortValuesOrder.

(** ** The order of float64 cells *)

Section FloatOrder.

Lemma rank_lt_irrefl a : ~ rank_lt a a.
Proof. unfold rank_lt. lia. Qed.

Lemma rank_lt_trans a b c : rank_lt a b -> rank_lt b c -> rank_lt a c.
Proof. unfold rank_lt. lia. Qed.

Lemma rank_lt_total a b : rank_lt a b \/ a = b \/ rank_lt b a.
Proof.
  destruct a as [[a1 a2] a3], b as [[b1 b2] b3]. unfold rank_lt. simpl.
  destruct (Z.lt_trichotomy a1 b1) as [?|[->|?]]; [lia| |lia].
  destruct (Z.lt_trichotomy a2 b2) as [?|[->|?]]; [lia| |lia].
  destruct (Z.lt_trichotomy a3 b3) as [?|[->|?]]; [lia| |lia].
  right; left; reflexivity.
Qed.

Lemma rank_lt_neg_trans a b c : ~ rank_lt b a -> ~ rank_lt c b -> ~ rank_lt c a.
Proof. unfold rank_lt. lia. Qed.

Lemma isna_rank (x : float) : isna x = true <-> (rank x).1.1 = 3%Z.
Proof.
  rewrite isna_Prim2SF. unfold rank.
  destruct (Prim2SF x) as [s|s| |s m e]; simpl; try (destruct s; simpl);
    split; (discriminate || reflexivity).
Qed.

(** The comparison of two numbers is the comparison of their ranks. *)
Lemma SFcompare_rank (x y : float) :
  isna x = false -> isna y = false ->
  match SFcompare (Prim2SF x) (Prim2SF y) with
  | Some Lt => rank_lt (rank x) (rank y)
  | Some Eq => rank x = rank y
  | Some Gt => rank_lt (rank y) (rank x)
  | None => False
  end.
Proof.
  intros Hx Hy.
  assert (Hx' : Prim2SF x <> S754_nan).
  { intros Hn%isna_Prim2SF. congruence. }
  assert (Hy' : Prim2SF y <> S754_nan).
  { intros Hn%isna_Prim2SF. congruence. }
  unfold rank, rank_lt.
  destruct (Prim2SF x) as [sx|sx| |sx mx ex], (Prim2SF y) as [sy|sy| |sy my ey];
    try congruence; simpl;
    try (destruct sx; simpl; try lia; try reflexivity);
    try (destruct sy; simpl; try lia; try reflexivity).
  - change (Pos.compare_cont Eq mx my) with (Pos.compare mx my).
    destruct (Z.compare_spec ex ey) as [->| |]; simpl; try lia.
    destruct (Pos.compare_spec mx my) as [->| |]; simpl; try lia. reflexivity.
  - change (Pos.compare_cont Eq mx my) with (Pos.compare mx my).
    destruct (Z.compare_spec ex ey) as [->| |]; simpl; try lia.
    destruct (Pos.compare_spec mx my) as [->| |]; simpl; try lia. reflexivity.
Qed.

Lemma flt_rank (x y : float) :
  isna x = false -> isna y = false ->
  (flt x y = true <-> rank_lt (rank x) (rank y)).
Proof.
  intros Hx Hy. pose proof (SFcompare_rank x y Hx Hy) as Hc.
  pose proof (rank_lt_irrefl (rank x)) as Hirr.
  unfold flt. rewrite FloatAxioms.ltb_spec. unfold SFltb.
  destruct (SFcompare (Prim2SF x) (Prim2SF y)) as [[]|]; try tauto.
  - rewrite <- Hc. split; [discriminate|tauto].
  - split; [discriminate|]. intros Hlt. destruct Hirr.
    exact (rank_lt_trans _ _ _ Hlt Hc).
Qed.

Lemma fleb_rank (x y : float) :
  isna x = false -> isna y = false ->
  (PrimFloat.leb x y = true <-> ~ rank_lt (rank y) (rank x)).
Proof.
  intros Hx Hy. pose proof (SFcompare_rank x y Hx Hy) as Hc.
  pose proof (rank_lt_irrefl (rank x)) as Hirr.
  rewrite FloatAxioms.leb_spec. unfold SFleb.
  destruct (SFcompare (Prim2SF x) (Prim2SF y)) as [[]|]; try tauto.
  - rewrite <- Hc. tauto.
  - split; [intros _|reflexivity]. intros Hlt. destruct Hirr.
    exact (rank_lt_trans _ _ _ Hc Hlt).
  - split; [discriminate|tauto].
Qed.

Lemma fleb_nan (x y : float) :
  PrimFloat.leb x y = true -> isna x = false /\ isna y = false.
Proof.
  rewrite FloatAxioms.leb_spec. unfold SFleb. intros Hle.
  split.
  - destruct (isna x) eqn:Hx; [|reflexivity].
    apply isna_Prim2SF in Hx. rewrite Hx in Hle. discriminate.
  - destruct (isna y) eqn:Hy; [|reflexivity].
    apply isna_Prim2SF in Hy. rewrite Hy in Hle.
    destruct (Prim2SF x); discriminate.
Qed.

Lemma flt_not_nan (x y : float) :
  flt x y = true -> isna x = false /\ isna y = false.
Proof.
  intros Hlt. split.
  - destruct (isna x) eqn:Hx; [|reflexivity].
    rewrite (flt_nan_l x y Hx) in Hlt. discriminate.
  - destruct (isna y) eqn:Hy; [|reflexivity].
    rewrite (flt_nan_r x y Hy) in Hlt. discriminate.
Qed.

Lemma rank_nan (x : float) : isna x = true -> rank x = (3, 0, 0)%Z.
Proof. intros Hx%isna_Prim2SF. unfold rank. rewrite Hx. reflexivity. Qed.

Lemma rank_number (x : float) : isna x = false -> ((rank x).1.1 <= 2)%Z.
Proof.
  intros Hx. assert (Hx' : Prim2SF x <> S754_nan).
  { intros Hn%isna_Prim2SF. congruence. }
  unfold rank. destruct (Prim2SF x) as [s|s| |s m e]; try congruence;
    try destruct s; simpl; lia.
Qed.

(** [less] is the order of the ranks, on all values. *)
Lemma less_rank (x y : float) :
  NumpySort.less x y = true <-> rank_lt (rank x) (rank y).
Proof.
  unfold NumpySort.less.
  destruct (isna x) eqn:Hx, (isna y) eqn:Hy; simpl.
  - rewrite (flt_nan_l x y Hx), (rank_nan x Hx), (rank_nan y Hy).
    unfold rank_lt. simpl. split; [discriminate|lia].
  - rewrite (flt_nan_l x y Hx), (rank_nan x Hx).
    pose proof (rank_number y Hy). unfold rank_lt. simpl. split; [discriminate|lia].
  - rewrite (flt_nan_r x y Hy), (rank_nan y Hy).
    pose proof (rank_number x Hx). unfold rank_lt. simpl. split; [lia|reflexivity].
  - rewrite orb_false_r. apply flt_rank; assumption.
Qed.

Lemma less_irrefl (x : float) : NumpySort.less x x = false.
Proof.
  destruct (NumpySort.less x x) eqn:Hl; [|reflexivity].
  apply less_rank in Hl. destruct (rank_lt_irrefl _ Hl).
Qed.

Lemma less_asym (x y : float) :
  NumpySort.less x y = true -> NumpySort.less y x = false.
Proof.
  intros Hxy%less_rank. destruct (NumpySort.less y x) eqn:Hl; [|reflexivity].
  apply less_rank in Hl. destruct (rank_lt_irrefl _ (rank_lt_trans _ _ _ Hxy Hl)).
Qed.

(** [x <= y <= z] for the order in which [less] is [<]. *)
Lemma not_less_trans (x y z : float) :
  NumpySort.less y x = false -> NumpySort.less z y = false ->
  NumpySort.less z x = false.
Proof.
  intros Hyx Hzy. destruct (NumpySort.less z x) eqn:Hl; [|reflexivity].
  apply less_rank in Hl. exfalso.
  apply (rank_lt_neg_trans (rank x) (rank y) (rank z)); try assumption.
  - intros Hc%less_rank. congruence.
  - intros Hc%less_rank. congruence.
Qed.

Lemma less_not_less_trans (x y z : float) :
  NumpySort.less x y = true -> NumpySort.less z y = false ->
  NumpySort.less x z = true.
Proof.
  intros Hxy%less_rank Hzy. apply less_rank.
  assert (Hn : ~ rank_lt (rank z) (rank y)) by (intros Hc%less_rank; congruence).
  revert Hxy Hn. unfold rank_lt. lia.
Qed.

End FloatOrder.

(** ** The sort puts the keys in ascending order *)

Ltac less_order :=
  unfold key_le, NumpySort.key in *;
  repeat match goal with
         | H : NumpySort.less _ _ = true |- _ => apply less_rank in H
         | H : NumpySort.less _ _ = false |- _ =>
             apply not_true_iff_false in H; rewrite less_rank in H
         end;
  try apply less_rank; try (apply not_true_iff_false; rewrite less_rank);
  unfold rank_lt in *; lia.

Section SortBasics.
Variable v : list float.

Import NumpySort.

Lemma key_le_refl x : key_le v x x.
Proof. less_order. Qed.

Lemma key_le_trans x y z : key_le v x y -> key_le v y z -> key_le v x z.
Proof. intros Hxy Hyz. less_order. Qed.

Lemma swap_lookup (a : list nat) i j p :
  i < length a -> j < length a ->
  swap a i j !!! p = if decide (p = j) then a !!! i
                     else if decide (p = i) then a !!! j else a !!! p.
Proof.
  intros Hi Hj. unfold swap.
  destruct (decide (p = j)) as [->|Hpj].
  - apply list_lookup_total_insert_eq. rewrite length_insert. exact Hj.
  - rewrite list_lookup_total_insert_ne by congruence.
    destruct (decide (p = i)) as [->|Hpi].
    + apply list_lookup_total_insert_eq. exact Hi.
    + apply list_lookup_total_insert_ne. congruence.
Qed.

Lemma rearranged_refl (a : list nat) pl pr : rearranged a a pl pr.
Proof. split; [reflexivity|]. split; [reflexivity|]. intros p Hp. exists p. auto. Qed.

Lemma rearranged_trans (a b c : list nat) pl pr :
  rearranged a b pl pr -> rearranged b c pl pr -> rearranged a c pl pr.
Proof.
  intros (Hl1 & Ho1 & Hi1) (Hl2 & Ho2 & Hi2). split; [congruence|]. split.
  - intros p Hp. rewrite Ho2, Ho1 by exact Hp. reflexivity.
  - intros p Hp. destruct (Hi2 p Hp) as (q & Hq & ->).
    destruct (Hi1 q Hq) as (q' & Hq' & ->). exists q'. auto.
Qed.

Lemma rearranged_wider (a b : list nat) pl pr pl' pr' :
  pl' <= pl -> pr <= pr' -> rearranged a b pl pr -> rearranged a b pl' pr'.
Proof.
  intros Hl Hr (Hlen & Hout & Hin). split; [exact Hlen|]. split.
  - intros p Hp. apply Hout. lia.
  - intros p Hp. destruct (decide (pl <= p <= pr)) as [Hp'|Hp'].
    + destruct (Hin p Hp') as (q & Hq & ->). exists q. split; [lia|reflexivity].
    + exists p. split; [exact Hp|]. apply Hout. lia.
Qed.

Lemma rearranged_swap (a : list nat) pl pr i j :
  pl <= i <= pr -> pl <= j <= pr -> pr < length a -> rearranged a (swap a i j) pl pr.
Proof.
  intros Hi Hj Hlen. split; [apply swap_length|]. split.
  - intros p Hp. rewrite swap_lookup by lia.
    destruct (decide (p = j)); [lia|]. destruct (decide (p = i)); [lia|]. reflexivity.
  - intros p Hp. rewrite swap_lookup by lia.
    destruct (decide (p = j)); [exists i; auto|].
    destruct (decide (p = i)); [exists j; auto|]. exists p. auto.
Qed.

End SortBasics.

Section InsertionSortOrder.
Variable v : list float.

Import NumpySort.

Lemma insert_lookup (a : list nat) i x p :
  i < length a -> <[i := x]> a !!! p = if decide (p = i) then x else a !!! p.
Proof.
  intros Hi. destruct (decide (p = i)) as [->|Hne].
  - apply list_lookup_total_insert_eq, Hi.
  - apply list_lookup_total_insert_ne. congruence.
Qed.

(** The shifting loop with its gap at [pj]: the cells around the gap stay in
    order, and the cells behind the gap hold keys above the one held. *)
Lemma shift_up_order (a : list nat) vp pl pi pj room :
  pl <= pj -> pj <= pi -> pi < length a -> room = pj - pl ->
  (forall p q, pl <= p -> p <= q -> q <= pi -> p <> pj -> q <> pj ->
     key_le v (a !!! p) (a !!! q)) ->
  (forall q, pj < q -> q <= pi -> less vp (key v a q) = true) ->
  exists a' pj',
    shift_up v a vp pj room = (a', pj') /\
    pl <= pj' /\ pj' <= pj /\ length a' = length a /\
    (forall p q, pl <= p -> p <= q -> q <= pi -> p <> pj' -> q <> pj' ->
       key_le v (a' !!! p) (a' !!! q)) /\
    (forall q, pj' < q -> q <= pi -> less vp (key v a' q) = true) /\
    (pj' = pl \/ less vp (key v a' (pj' - 1)) = false) /\
    (forall p, p < pl \/ pi < p -> a' !!! p = a !!! p) /\
    (forall p, pl <= p <= pi -> p <> pj' ->
       exists q, pl <= q <= pi /\ q <> pj /\ a' !!! p = a !!! q).
Proof.
  revert a pj. induction room as [|room IH]; intros a pj Hpl Hpi Hlen Hroom Hord Hbig.
  - exists a, pj. split; [reflexivity|]. split; [lia|]. split; [lia|].
    split; [reflexivity|]. split; [exact Hord|]. split; [exact Hbig|].
    split; [left; lia|]. split; [reflexivity|]. intros p Hp Hne. exists p. auto.
  - cbn [shift_up]. destruct (less vp (key v a (pj - 1))) eqn:Htest.
    + set (a1 := <[pj := a !!! (pj - 1)]> a).
      assert (Hl1 : length a1 = length a) by apply length_insert.
      assert (Ha1 : forall p, a1 !!! p = a !!! (if decide (p = pj) then pj - 1 else p)).
      { intros p. unfold a1. rewrite insert_lookup by lia. destruct (decide (p = pj)); reflexivity. }
      destruct (IH a1 (pj - 1)) as (a' & pj' & Hrun & H1 & H2 & H3 & H4 & H5 & H6 & H7 & H8);
        try lia.
      * intros p q Hp Hpq Hq Hnp Hnq. rewrite !Ha1.
        destruct (decide (p = pj)), (decide (q = pj)); apply Hord; lia.
      * intros q Hq1 Hq2. unfold key. rewrite Ha1.
        destruct (decide (q = pj)); [exact Htest|]. apply Hbig; lia.
      * exists a', pj'. split; [exact Hrun|].
        split; [lia|]. split; [lia|]. split; [congruence|]. split; [exact H4|].
        split; [exact H5|]. split; [exact H6|]. split.
        -- intros p Hp. rewrite H7 by exact Hp. rewrite Ha1.
           destruct (decide (p = pj)); [lia|reflexivity].
        -- intros p Hp Hne. destruct (H8 p Hp Hne) as (q & Hq & Hqne & ->).
           rewrite Ha1. destruct (decide (q = pj)).
           ++ exists (pj - 1). split; [lia|]. split; [lia|reflexivity].
           ++ exists q. auto.
    + exists a, pj. split; [reflexivity|]. split; [lia|]. split; [lia|].
      split; [reflexivity|]. split; [exact Hord|]. split; [exact Hbig|].
      split; [right; exact Htest|]. split; [reflexivity|]. intros p Hp Hne. exists p. auto.
Qed.

(** One round: the new position is put in its place. *)
Lemma insert_at_order (a : list nat) pl pi :
  pl <= pi -> pi < length a ->
  (forall p q, pl <= p -> p <= q -> q < pi -> key_le v (a !!! p) (a !!! q)) ->
  ascending v (insert_at v a pl pi) pl pi /\ rearranged a (insert_at v a pl pi) pl pi.
Proof.
  intros Hpl Hlen Hord. unfold insert_at.
  destruct (shift_up_order a (v !!! (a !!! pi)) pl pi pi (pi - pl))
    as (a' & pj & Hrun & H1 & H2 & H3 & H4 & H5 & H6 & H7 & H8); try lia.
  { intros p q Hp Hpq Hq Hnp Hnq. apply Hord; lia. }
  rewrite Hrun.
  assert (Hf : forall p, <[pj := a !!! pi]> a' !!! p
                         = if decide (p = pj) then a !!! pi else a' !!! p).
  { intros p. apply insert_lookup. lia. }
  split; [|split; [|split]].
  - intros p q Hp Hpq Hq. rewrite !Hf.
    destruct (decide (p = pj)) as [->|Hnp], (decide (q = pj)) as [->|Hnq].
    + apply key_le_refl.
    + specialize (H5 q ltac:(lia) Hq). less_order.
    + destruct H6 as [->|Hstop]; [lia|].
      specialize (H4 p (pj - 1) Hp ltac:(lia) ltac:(lia) Hnp ltac:(lia)).
      less_order.
    + apply H4; assumption.
  - rewrite length_insert. exact H3.
  - intros p Hp. rewrite Hf. destruct (decide (p = pj)); [lia|]. apply H7, Hp.
  - intros p Hp. rewrite Hf. destruct (decide (p = pj)).
    + exists pi. split; [lia|reflexivity].
    + destruct (H8 p Hp n) as (q & Hq & _ & Heq). exists q. auto.
Qed.

Lemma insertion_rounds_order (a : list nat) pl pi count :
  pl < pi -> pi + count <= length a ->
  ascending v a pl (pi - 1) ->
  ascending v (insertion_rounds v a pl pi count) pl (pi + count - 1) /\
  rearranged a (insertion_rounds v a pl pi count) pl (pi + count - 1).
Proof.
  revert a pi. induction count as [|count IH]; intros a pi Hpl Hlen Hasc.
  - rewrite Nat.add_0_r. split; [exact Hasc|apply rearranged_refl].
  - cbn [insertion_rounds].
    destruct (insert_at_order a pl pi) as [Hasc1 Hre1]; try lia.
    { intros p q Hp Hpq Hq. apply Hasc; lia. }
    destruct (IH (insert_at v a pl pi) (S pi)) as [Hasc2 Hre2];
      rewrite ?insert_at_length; try lia.
    { replace (S pi - 1) with pi by lia. exact Hasc1. }
    replace (pi + S count - 1) with (S pi + count - 1) by lia.
    split; [exact Hasc2|].
    eapply rearranged_trans; [|exact Hre2].
    apply (rearranged_wider _ _ pl pi); [lia|lia|exact Hre1].
Qed.

Lemma insertion_sort_order (a : list nat) pl pr :
  pr < length a ->
  ascending v (insertion_sort v a pl pr) pl pr /\
  rearranged a (insertion_sort v a pl pr) pl pr.
Proof.
  intros Hlen. unfold insertion_sort.
  destruct (Nat.le_gt_cases pl pr) as [Hle|Hgt].
  - destruct (insertion_rounds_order a pl (S pl) (pr - pl)) as [Hasc Hre]; try lia.
    { intros p q Hp Hpq Hq. replace q with p by lia. apply key_le_refl. }
    replace (S pl + (pr - pl) - 1) with pr in * by lia. auto.
  - replace (pr - pl) with 0 by lia. split; [|apply rearranged_refl].
    intros p q Hp Hpq Hq. lia.
Qed.

End InsertionSortOrder.

Section PartitionOrder.
Variable v : list float.

Import NumpySort.

Lemma scan_up_stops (a : list nat) vp pi room :
  (forall p, pi <= p -> p < scan_up v a vp pi room -> less (key v a p) vp = true) /\
  (scan_up v a vp pi room < pi + room -> less (key v a (scan_up v a vp pi room)) vp = false).
Proof.
  revert pi. induction room as [|room IH]; intros pi; cbn [scan_up].
  - split; intros; lia.
  - destruct (less (key v a pi) vp) eqn:Htest.
    + destruct (IH (S pi)) as [Hpass Hstop]. split.
      * intros p Hp Hlt. destruct (decide (p = pi)) as [->|Hne]; [exact Htest|].
        apply Hpass; lia.
      * intros Hlt. apply Hstop. lia.
    + split; [intros; lia|]. intros _. exact Htest.
Qed.

Lemma scan_down_stops (a : list nat) vp pj room :
  room <= pj ->
  (forall p, scan_down v a vp pj room < p -> p <= pj -> less vp (key v a p) = true) /\
  (pj - room < scan_down v a vp pj room ->
   less vp (key v a (scan_down v a vp pj room)) = false).
Proof.
  revert pj. induction room as [|room IH]; intros pj Hroom; cbn [scan_down].
  - split; intros; lia.
  - destruct (less vp (key v a pj)) eqn:Htest.
    + destruct (IH (pj - 1)) as [Hpass Hstop]; [lia|]. split.
      * intros p Hlt Hp. destruct (decide (p = pj)) as [->|Hne]; [exact Htest|].
        apply Hpass; lia.
      * intros Hlt. apply Hstop. lia.
    + split; [intros; lia|]. intros _. exact Htest.
Qed.

(** [if (less(v[a[j]], v[a[i]])) INTP_SWAP(a[j], a[i])] *)
Lemma ordered_pair (a : list nat) i j :
  i < length a -> j < length a -> i <> j ->
  exists a', (if less (key v a j) (key v a i) then swap a j i else a) = a' /\
    length a' = length a /\
    key_le v (a' !!! i) (a' !!! j) /\
    (forall p, p <> i -> p <> j -> a' !!! p = a !!! p) /\
    ((a' !!! i = a !!! i /\ a' !!! j = a !!! j) \/
     (a' !!! i = a !!! j /\ a' !!! j = a !!! i)).
Proof.
  intros Hi Hj Hne. eexists. split; [reflexivity|].
  unfold key. destruct (less (v !!! (a !!! j)) (v !!! (a !!! i))) eqn:Htest.
  - split; [apply swap_length|].
    assert (Hati : swap a j i !!! i = a !!! j).
    { rewrite swap_lookup by assumption. destruct (decide (i = i)); [reflexivity|lia]. }
    assert (Hatj : swap a j i !!! j = a !!! i).
    { rewrite swap_lookup by assumption.
      destruct (decide (j = i)); [lia|]. destruct (decide (j = j)); [reflexivity|lia]. }
    rewrite Hati, Hatj. split; [less_order|]. split; [|right; auto].
    intros p Hpi Hpj. rewrite swap_lookup by assumption.
    destruct (decide (p = i)); [lia|]. destruct (decide (p = j)); [lia|]. reflexivity.
  - split; [reflexivity|]. split; [exact Htest|]. split; [reflexivity|]. left. auto.
Qed.

Lemma median3_order (a : list nat) pl pm pr :
  pl < pm -> pm < pr -> pr < length a ->
  rearranged a (median3 v a pl pm pr) pl pr /\
  key_le v (median3 v a pl pm pr !!! pl) (median3 v a pl pm pr !!! pm) /\
  key_le v (median3 v a pl pm pr !!! pm) (median3 v a pl pm pr !!! pr).
Proof.
  intros Hlm Hmr Hlen. unfold median3.
  destruct (ordered_pair a pl pm) as (a1 & -> & Hl1 & Ho1 & Hs1 & Hc1); try lia.
  destruct (ordered_pair a1 pm pr) as (a2 & -> & Hl2 & Ho2 & Hs2 & Hc2); try lia.
  destruct (ordered_pair a2 pl pm) as (a3 & -> & Hl3 & Ho3 & Hs3 & Hc3); try lia.
  assert (Hpl2 : a2 !!! pl = a1 !!! pl) by (apply Hs2; lia).
  assert (Hpr3 : a3 !!! pr = a2 !!! pr) by (apply Hs3; lia).
  assert (Hpr1 : a1 !!! pr = a !!! pr) by (apply Hs1; lia).
  split; [|split; [exact Ho3|]].
  - split; [congruence|]. split.
    + intros p Hp. rewrite Hs3, Hs2, Hs1 by lia. reflexivity.
    + intros p Hp.
      destruct (decide (p = pl)) as [->|Hnl]; [|destruct (decide (p = pm)) as [->|Hnm];
        [|destruct (decide (p = pr)) as [->|Hnr]]].
      * destruct Hc3 as [[-> _]|[-> _]], Hc2 as [[Hc2 _]|[Hc2 _]],
          Hc1 as [[Hc1 Hc1']|[Hc1 Hc1']]; rewrite ?Hpl2, ?Hc2, ?Hpr1, ?Hc1, ?Hc1';
          eexists; (split; [|reflexivity]); lia.
      * destruct Hc3 as [[_ ->]|[_ ->]], Hc2 as [[Hc2 _]|[Hc2 _]],
          Hc1 as [[Hc1 Hc1']|[Hc1 Hc1']]; rewrite ?Hpl2, ?Hc2, ?Hpr1, ?Hc1, ?Hc1';
          eexists; (split; [|reflexivity]); lia.
      * rewrite Hpr3. destruct Hc2 as [[_ ->]|[_ ->]],
          Hc1 as [[Hc1 Hc1']|[Hc1 Hc1']]; rewrite ?Hpr1, ?Hc1, ?Hc1';
          eexists; (split; [|reflexivity]); lia.
      * exists p. split; [lia|]. rewrite Hs3, Hs2, Hs1 by lia. reflexivity.
  - rewrite Hpr3.
    destruct Hc3 as [[_ ->]|[_ ->]]; [exact Ho2|].
    rewrite Hpl2. destruct Hc2 as [[Hm Hr]|[Hm Hr]]; rewrite Hr.
    + rewrite Hm in Ho2. rewrite Hr in Ho2. less_order.
    + exact Ho1.
Qed.

(** The loop of the partition: what lies at or before [pi] is not above the
    pivot, what lies at or behind [pj] is not below it, and the pivot stays
    parked at [pr - 1]. *)
Lemma partition_loop_order rounds (a : list nat) vp pl pr pi pj :
  pl <= pi -> pi < pj -> pj <= pr - 1 -> pr < length a -> pj - pi <= rounds ->
  key v a (pr - 1) = vp ->
  (forall p, pl <= p -> p <= pi -> less vp (key v a p) = false) ->
  (forall p, pj <= p -> p <= pr -> less (key v a p) vp = false) ->
  exists a' pi',
    partition_loop v rounds a vp pl pr pi pj = (a', pi') /\
    pl < pi' /\ pi' <= pr - 1 /\ rearranged a a' pl pr /\
    key v a' (pr - 1) = vp /\
    (forall p, pl <= p -> p < pi' -> less vp (key v a' p) = false) /\
    (forall p, pi' <= p -> p <= pr -> less (key v a' p) vp = false).
Proof.
  revert a pi pj. induction rounds as [|rounds IH];
    intros a pi pj Hpl Hlt Hpr Hlen Hr Hpiv Hlow Hhigh; [lia|].
  cbn [partition_loop].
  pose proof (scan_up_bounds v a vp (S pi) (pr - 1 - S pi)) as Hub.
  pose proof (scan_down_bounds v a vp (pj - 1) (pj - 1 - pl)) as Hdb.
  destruct (scan_up_stops a vp (S pi) (pr - 1 - S pi)) as [Hup Hupstop].
  destruct (scan_down_stops a vp (pj - 1) (pj - 1 - pl)) as [Hdown Hdownstop]; [lia|].
  set (pi' := scan_up v a vp (S pi) (pr - 1 - S pi)) in *.
  set (pj' := scan_down v a vp (pj - 1) (pj - 1 - pl)) in *.
  assert (Hati : less (key v a pi') vp = false).
  { destruct (decide (pi' < S pi + (pr - 1 - S pi))) as [Hin|Hout]; [exact (Hupstop Hin)|].
    replace pi' with (pr - 1) by lia. rewrite Hpiv. apply less_irrefl. }
  assert (Hatj : less vp (key v a pj') = false).
  { destruct (decide (pj - 1 - (pj - 1 - pl) < pj')) as [Hin|Hout]; [exact (Hdownstop Hin)|].
    apply Hlow; lia. }
  assert (Hleft : forall p, pl <= p -> p < pi' -> less vp (key v a p) = false).
  { intros p Hp Hp'. destruct (decide (p <= pi)) as [Hle|Hgt]; [apply Hlow; lia|].
    apply less_asym, Hup; lia. }
  assert (Hright : forall p, pj' < p -> p <= pr -> less (key v a p) vp = false).
  { intros p Hp Hp'. destruct (decide (pj <= p)) as [Hle|Hgt]; [apply Hhigh; lia|].
    apply less_asym, Hdown; lia. }
  destruct (pj' <=? pi') eqn:Hcmp.
  - apply Nat.leb_le in Hcmp. exists a, pi'. split; [reflexivity|].
    split; [lia|]. split; [lia|]. split; [apply rearranged_refl|].
    split; [exact Hpiv|]. split; [exact Hleft|].
    intros p Hp Hp'. destruct (decide (p = pi')) as [->|Hne]; [exact Hati|].
    apply Hright; lia.
  - apply Nat.leb_gt in Hcmp.
    assert (Hsw : forall p, swap a pi' pj' !!! p
                            = if decide (p = pj') then a !!! pi'
                              else if decide (p = pi') then a !!! pj' else a !!! p).
    { intros p. apply swap_lookup; lia. }
    destruct (IH (swap a pi' pj') pi' pj') as (a' & pi'' & Hrun & H1 & H2 & H3 & H4 & H5 & H6);
      rewrite ?swap_length; try lia.
    + unfold key. rewrite Hsw.
      destruct (decide (pr - 1 = pj')); [lia|]. destruct (decide (pr - 1 = pi')); [lia|].
      exact Hpiv.
    + intros p Hp Hp'. unfold key. rewrite Hsw.
      destruct (decide (p = pj')); [lia|]. destruct (decide (p = pi')); [exact Hatj|].
      apply Hleft; lia.
    + intros p Hp Hp'. unfold key. rewrite Hsw.
      destruct (decide (p = pj')); [exact Hati|]. destruct (decide (p = pi')); [lia|].
      apply Hright; lia.
    + exists a', pi''. split; [exact Hrun|]. split; [lia|]. split; [lia|].
      split; [|auto]. eapply rearranged_trans; [|exact H3].
      apply rearranged_swap; lia.
Qed.

Lemma partition_order (a : list nat) pl pr :
  SMALL_QUICKSORT < pr - pl -> pr < length a ->
  exists a' pi,
    partition v a pl pr = (a', pi) /\ pl < pi /\ pi < pr /\
    rearranged a a' pl pr /\ split_at v a' pl pi pr.
Proof.
  unfold SMALL_QUICKSORT. intros Hbig Hlen. unfold partition.
  set (pm := pl + (pr - pl) / 2).
  assert (Hpm : pl + 8 <= pm /\ pm + 8 <= pr).
  { unfold pm. pose proof (Nat.div_mod_eq (pr - pl) 2) as Hd.
    pose proof (Nat.mod_upper_bound (pr - pl) 2). lia. }
  destruct (median3_order a pl pm pr) as (Hre1 & Hlm & Hmr); try lia.
  set (a1 := median3 v a pl pm pr) in *.
  assert (Hl1 : length a1 = length a) by apply median3_length.
  assert (Hsw : forall p, swap a1 pm (pr - 1) !!! p
                          = if decide (p = pr - 1) then a1 !!! pm
                            else if decide (p = pm) then a1 !!! (pr - 1) else a1 !!! p).
  { intros p. apply swap_lookup; lia. }
  destruct (partition_loop_order (pr - pl) (swap a1 pm (pr - 1)) (key v a1 pm)
              pl pr pl (pr - 1)) as (a2 & pi & Hrun & H1 & H2 & H3 & H4 & H5 & H6);
    rewrite ?swap_length; try lia.
  - unfold key. rewrite Hsw. destruct (decide (pr - 1 = pr - 1)); [reflexivity|lia].
  - intros p Hp Hp'. replace p with pl by lia. unfold key. rewrite Hsw.
    destruct (decide (pl = pr - 1)); [lia|]. destruct (decide (pl = pm)); [lia|].
    exact Hlm.
  - intros p Hp Hp'. unfold key. rewrite Hsw.
    destruct (decide (p = pr - 1)); [apply less_irrefl|].
    replace p with pr by lia. destruct (decide (pr = pm)); [lia|]. exact Hmr.
  - rewrite Hrun. exists (swap a2 pi (pr - 1)), pi. split; [reflexivity|].
    pose proof H3 as (Hl2 & _ & _). rewrite swap_length in Hl2.
    split; [lia|]. split; [lia|].
    assert (Hsw2 : forall p, swap a2 pi (pr - 1) !!! p
                             = if decide (p = pr - 1) then a2 !!! pi
                               else if decide (p = pi) then a2 !!! (pr - 1) else a2 !!! p).
    { intros p. apply swap_lookup; lia. }
    split.
    + eapply rearranged_trans; [exact Hre1|].
      eapply rearranged_trans; [apply (rearranged_swap a1 pl pr pm (pr - 1)); lia|].
      eapply rearranged_trans; [exact H3|].
      apply rearranged_swap; lia.
    + assert (Hpivot : v !!! (swap a2 pi (pr - 1) !!! pi) = key v a1 pm).
      { rewrite Hsw2. destruct (decide (pi = pr - 1)) as [->|Hne].
        - exact H4.
        - destruct (decide (pi = pi)); [exact H4|lia]. }
      split.
      * intros p Hp Hp'. unfold key_le. rewrite Hpivot. rewrite Hsw2.
        destruct (decide (p = pr - 1)); [lia|]. destruct (decide (p = pi)); [lia|].
        apply H5; lia.
      * intros p Hp Hp'. unfold key_le. rewrite Hpivot. rewrite Hsw2.
        destruct (decide (p = pr - 1)); [apply H6; lia|].
        destruct (decide (p = pi)); [lia|]. apply H6; lia.
Qed.

End PartitionOrder.

Section HeapOrder.
Variable v : list float.
Variable pl : nat.

Import NumpySort.

Lemma hget_hset (a : list nat) i x k :
  1 <= i -> 1 <= k -> pl + i <= length a ->
  hget (hset a pl i x) pl k = if decide (k = i) then x else hget a pl k.
Proof.
  intros Hi Hk Hlen. unfold hget, hset. rewrite insert_lookup by lia.
  destruct (decide (k = i)) as [->|Hne].
  - destruct (decide (pl + i - 1 = pl + i - 1)); [reflexivity|lia].
  - destruct (decide (pl + k - 1 = pl + i - 1)); [lia|reflexivity].
Qed.

Lemma hset_outside (a : list nat) i x p :
  1 <= i -> pl + i <= length a -> p <> pl + i - 1 -> hset a pl i x !!! p = a !!! p.
Proof.
  intros Hi Hlen Hp. unfold hset. rewrite insert_lookup by lia.
  destruct (decide (p = pl + i - 1)); [lia|reflexivity].
Qed.

Lemma half_child (c i : nat) : c / 2 = i <-> c = 2 * i \/ c = 2 * i + 1.
Proof.
  pose proof (Nat.div_mod_eq c 2) as Hd. pose proof (Nat.mod_upper_bound c 2). lia.
Qed.

Lemma half_positive (c : nat) : 2 <= c -> 1 <= c / 2.
Proof.
  intros Hc. pose proof (Nat.div_mod_eq c 2). pose proof (Nat.mod_upper_bound c 2). lia.
Qed.

(** The end of the sifting loop: the key held goes into the gap. *)
Lemma sift_done (a : list nat) n l tmp i :
  1 <= l -> l <= i -> i <= n -> pl + n <= length a ->
  (forall c, 2 * l <= c -> c <= n -> c <> i -> c / 2 <> i ->
     key_le v (hget a pl c) (hget a pl (c / 2))) ->
  (2 * l <= i -> key_le v tmp (hget a pl (i / 2))) ->
  (forall c, c <= n -> c / 2 = i -> key_le v (hget a pl c) tmp) ->
  length (hset a pl i tmp) = length a /\
  heap_from v (hset a pl i tmp) pl n l /\
  (forall k, 1 <= k -> k <= n ->
     hget (hset a pl i tmp) pl k = tmp \/
     exists k', 1 <= k' /\ k' <= n /\ hget (hset a pl i tmp) pl k = hget a pl k') /\
  (forall p, p < pl \/ pl + n <= p -> hset a pl i tmp !!! p = a !!! p).
Proof.
  intros Hl Hli Hin Hlen HA HC Hkids.
  split; [apply hset_length|]. split; [|split].
  - intros c Hc1 Hc2. pose proof (half_positive c ltac:(lia)) as Hhalf.
    rewrite !hget_hset by lia.
    destruct (decide (c = i)) as [->|Hci].
    + destruct (decide (i / 2 = i)) as [Hh|Hh]; [apply half_child in Hh; lia|].
      apply HC. lia.
    + destruct (decide (c / 2 = i)) as [Hh|Hh]; [apply Hkids; assumption|].
      apply HA; assumption.
  - intros k Hk1 Hk2. rewrite hget_hset by lia.
    destruct (decide (k = i)); [left; reflexivity|right]. exists k. auto.
  - intros p Hp. apply hset_outside; lia.
Qed.

(** The sifting loop with its gap at [i]: the heap is in order except at the
    gap, the children of the gap are not above its parent, and the key held
    is not above the parent of the gap. *)
Lemma sift_heap rounds (a : list nat) n l tmp i j :
  1 <= l -> l <= i -> i <= n -> j = 2 * i -> pl + n <= length a -> n < j * 2 ^ rounds ->
  (forall c, 2 * l <= c -> c <= n -> c <> i -> c / 2 <> i ->
     key_le v (hget a pl c) (hget a pl (c / 2))) ->
  (forall c, c <= n -> c / 2 = i -> 2 * l <= i ->
     key_le v (hget a pl c) (hget a pl (i / 2))) ->
  (2 * l <= i -> key_le v tmp (hget a pl (i / 2))) ->
  length (sift v rounds a pl n tmp i j) = length a /\
  heap_from v (sift v rounds a pl n tmp i j) pl n l /\
  (forall k, 1 <= k -> k <= n ->
     hget (sift v rounds a pl n tmp i j) pl k = tmp \/
     exists k', 1 <= k' /\ k' <= n /\ hget (sift v rounds a pl n tmp i j) pl k = hget a pl k') /\
  (forall p, p < pl \/ pl + n <= p -> sift v rounds a pl n tmp i j !!! p = a !!! p).
Proof.
  revert a i j. induction rounds as [|rounds IH];
    intros a i j Hl Hli Hin Hj Hlen Hr HA HB HC.
  - rewrite Nat.pow_0_r, Nat.mul_1_r in Hr. cbn [sift].
    apply (sift_done a n l tmp i); try assumption.
    intros c Hc Hh%half_child. lia.
  - cbn [sift]. destruct (j <=? n) eqn:Hjn.
    + apply Nat.leb_le in Hjn.
      set (j' := if (j <? n) && less (v !!! hget a pl j) (v !!! hget a pl (j + 1))
                 then j + 1 else j).
      assert (Hj' : (j' = j \/ j' = j + 1) /\ j' <= n).
      { unfold j'. destruct (j <? n) eqn:Hlt; simpl; [|split; [left; reflexivity|lia]].
        apply Nat.ltb_lt in Hlt. destruct (less _ _); split; auto; lia. }
      assert (Hsib : forall c, c <= n -> c / 2 = i -> key_le v (hget a pl c) (hget a pl j')).
      { intros c Hc Hh%half_child. unfold j'.
        destruct (j <? n) eqn:Hlt; simpl.
        - destruct (less (v !!! hget a pl j) (v !!! hget a pl (j + 1))) eqn:Htest.
          + destruct (decide (c = j)) as [->|Hne]; [less_order|].
            replace c with (j + 1) by lia. apply key_le_refl.
          + destruct (decide (c = j)) as [->|Hne]; [apply key_le_refl|].
            replace c with (j + 1) by lia. exact Htest.
        - apply Nat.ltb_ge in Hlt. replace c with j by lia. apply key_le_refl. }
      destruct (less (v !!! tmp) (v !!! hget a pl j')) eqn:Htest.
      * set (a1 := hset a pl i (hget a pl j')).
        assert (Hg1 : forall k, 1 <= k ->
                  hget a1 pl k = if decide (k = i) then hget a pl j' else hget a pl k).
        { intros k Hk. apply hget_hset; lia. }
        assert (Hparent : j' / 2 = i) by (apply half_child; lia).
        destruct (IH a1 j' (j' + j')) as (H1 & H2 & H3 & H4);
          rewrite ?hset_length; try lia.
        -- unfold a1. rewrite hset_length. exact Hlen.
        -- rewrite Nat.pow_succ_r' in Hr.
           assert (j * 2 ^ rounds <= j' * 2 ^ rounds) by (apply Nat.mul_le_mono_r; lia).
           lia.
        -- intros c Hc1 Hc2 Hc3 Hc4. pose proof (half_positive c ltac:(lia)) as Hhalf.
           rewrite !Hg1 by lia.
           destruct (decide (c = i)) as [->|Hci].
           ++ destruct (decide (i / 2 = i)) as [Hh|Hh]; [apply half_child in Hh; lia|].
              apply HB; [lia|exact Hparent|lia].
           ++ destruct (decide (c / 2 = i)) as [Hh|Hh]; [apply Hsib; assumption|].
              apply HA; assumption.
        -- intros c Hc Hh Hroot.
           assert (Hc' : c = 2 * j' \/ c = 2 * j' + 1) by (apply half_child, Hh).
           rewrite !Hg1 by lia. rewrite Hparent.
           destruct (decide (c = i)); [lia|]. destruct (decide (i = i)); [|lia].
           rewrite <- Hh. apply HA; try lia.
        -- intros _. rewrite Hg1 by lia. rewrite Hparent.
           destruct (decide (i = i)); [|lia]. less_order.
        -- split; [rewrite H1; apply hset_length|]. split; [exact H2|]. split.
           ++ intros k Hk1 Hk2. destruct (H3 k Hk1 Hk2) as [Ht|(k' & Hk'1 & Hk'2 & Heq)];
                [left; exact Ht|right].
              rewrite Heq, Hg1 by lia.
              destruct (decide (k' = i)); [exists j'|exists k']; split; try lia; auto.
           ++ intros p Hp. rewrite H4 by exact Hp. apply hset_outside; lia.
      * apply (sift_done a n l tmp i); try assumption.
        intros c Hc Hh. specialize (Hsib c Hc Hh). less_order.
    + apply Nat.leb_gt in Hjn.
      apply (sift_done a n l tmp i); try assumption.
      intros c Hc Hh%half_child. lia.
Qed.

(** The root of a heap holds a greatest key. *)
Lemma heap_root_max (a : list nat) n :
  heap_from v a pl n 1 ->
  forall k, 1 <= k -> k <= n -> key_le v (hget a pl k) (hget a pl 1).
Proof.
  intros Hheap k. induction k as [k IH] using lt_wf_ind. intros Hk1 Hk2.
  destruct (decide (k = 1)) as [->|Hne]; [apply key_le_refl|].
  pose proof (half_positive k ltac:(lia)) as Hhalf.
  assert (Hlt : k / 2 < k) by (apply Nat.div_lt; lia).
  apply (key_le_trans v _ (hget a pl (k / 2))).
  - apply Hheap; lia.
  - apply IH; lia.
Qed.

Lemma heapify_heap (a : list nat) n l :
  2 * l <= n -> pl + n <= length a -> heap_from v a pl n (S l) ->
  length (heapify v a pl n l) = length a /\
  heap_from v (heapify v a pl n l) pl n 1 /\
  (forall k, 1 <= k -> k <= n ->
     exists k', 1 <= k' /\ k' <= n /\ hget (heapify v a pl n l) pl k = hget a pl k') /\
  (forall p, p < pl \/ pl + n <= p -> heapify v a pl n l !!! p = a !!! p).
Proof.
  revert a. induction l as [|l IH]; intros a Hl Hlen Hheap.
  - cbn [heapify]. split; [reflexivity|]. split; [exact Hheap|]. split; [|reflexivity].
    intros k Hk1 Hk2. exists k. auto.
  - cbn [heapify].
    destruct (sift_heap n a n (S l) (hget a pl (S l)) (S l) (2 * S l))
      as (H1 & H2 & H3 & H4); try lia.
    + apply sift_rounds_heap. lia.
    + intros c Hc1 Hc2 Hc3 Hc4. apply Hheap; [|exact Hc2].
      pose proof (Nat.div_mod_eq c 2). pose proof (Nat.mod_upper_bound c 2). lia.
    + set (a1 := sift v n a pl n (hget a pl (S l)) (S l) (2 * S l)) in *.
      destruct (IH a1) as (H5 & H6 & H7 & H8); try lia; [exact H2|].
      split; [congruence|]. split; [exact H6|]. split.
      * intros k Hk1 Hk2. destruct (H7 k Hk1 Hk2) as (k' & Hk'1 & Hk'2 & ->).
        destruct (H3 k' Hk'1 Hk'2) as [->|(k'' & Hk''1 & Hk''2 & ->)].
        -- exists (S l). split; [lia|]. split; [lia|reflexivity].
        -- exists k''. auto.
      * intros p Hp. rewrite H8, H4 by exact Hp. reflexivity.
Qed.

(** The second loop of the heap sort: the greatest key of the heap goes
    behind it, where the keys already are in order and not below those of
    the heap. *)
Lemma sort_down_order (a : list nat) n N :
  n <= N -> pl + N <= length a ->
  heap_from v a pl n 1 ->
  (forall k1 k2, 1 <= k1 -> k1 <= k2 -> k2 <= N -> n < k2 ->
     key_le v (hget a pl k1) (hget a pl k2)) ->
  length (sort_down v a pl n) = length a /\
  (forall k1 k2, 1 <= k1 -> k1 <= k2 -> k2 <= N ->
     key_le v (hget (sort_down v a pl n) pl k1) (hget (sort_down v a pl n) pl k2)) /\
  (forall k, 1 <= k -> k <= N ->
     exists k', 1 <= k' /\ k' <= N /\ hget (sort_down v a pl n) pl k = hget a pl k') /\
  (forall p, p < pl \/ pl + N <= p -> sort_down v a pl n !!! p = a !!! p).
Proof.
  revert a. induction n as [|n IH]; intros a Hn Hlen Hheap Htail.
  { cbn [sort_down]. split; [reflexivity|]. split; [|split; [|reflexivity]].
    - intros k1 k2 Hk1 Hk12 Hk2. apply Htail; lia.
    - intros k Hk1 Hk2. exists k. auto. }
  destruct n as [|n].
  { cbn [sort_down]. split; [reflexivity|]. split; [|split; [|reflexivity]].
    - intros k1 k2 Hk1 Hk12 Hk2. destruct (decide (1 < k2)); [apply Htail; lia|].
      replace k1 with 1 by lia. replace k2 with 1 by lia. apply key_le_refl.
    - intros k Hk1 Hk2. exists k. auto. }
  change (sort_down v a pl (S (S n)))
    with (sort_down v (sift v (S n) (hset a pl (S (S n)) (hget a pl 1)) pl (S n)
                            (hget a pl (S (S n))) 1 2) pl (S n)).
  set (tmp := hget a pl (S (S n))).
  set (a1 := hset a pl (S (S n)) (hget a pl 1)).
  assert (Hl1 : length a1 = length a) by apply hset_length.
  assert (Hg1 : forall k, 1 <= k ->
            hget a1 pl k = if decide (k = S (S n)) then hget a pl 1 else hget a pl k).
  { intros k Hk. apply hget_hset; lia. }
  destruct (sift_heap (S n) a1 (S n) 1 tmp 1 2) as (H1 & H2 & H3 & H4); try lia.
  { apply (sift_rounds_heap (S n) 1). lia. }
  { intros c Hc1 Hc2 Hc3 Hc4. pose proof (half_positive c ltac:(lia)) as Hhalf.
    assert (Hlt : c / 2 < c) by (apply Nat.div_lt; lia).
    rewrite !Hg1 by lia.
    destruct (decide (c = S (S n))); [lia|]. destruct (decide (c / 2 = S (S n))); [lia|].
    apply Hheap; lia. }
  set (a2 := sift v (S n) a1 pl (S n) tmp 1 2) in *.
  assert (Hroot : forall k, 1 <= k -> k <= S (S n) -> key_le v (hget a pl k) (hget a pl 1))
    by (apply heap_root_max, Hheap).
  assert (Hg2 : forall k, 1 <= k -> k <= N ->
            (k <= S n /\ exists k', 1 <= k' /\ k' <= S (S n) /\ hget a2 pl k = hget a pl k') \/
            (k = S (S n) /\ hget a2 pl k = hget a pl 1) \/
            (S (S n) < k /\ hget a2 pl k = hget a pl k)).
  { intros k Hk1 Hk2. destruct (decide (k <= S n)) as [Hle|Hgt].
    - left. split; [exact Hle|]. destruct (H3 k Hk1 Hle) as [->|(k' & Hk'1 & Hk'2 & ->)].
      + exists (S (S n)). split; [lia|]. split; [lia|reflexivity].
      + exists k'. split; [lia|]. split; [lia|]. rewrite Hg1 by lia.
        destruct (decide (k' = S (S n))); [lia|reflexivity].
    - right. assert (Hk : hget a2 pl k = hget a1 pl k).
      { unfold hget. apply H4. lia. }
      rewrite Hk, Hg1 by lia. destruct (decide (k = S (S n))); [left|right]; split; auto; lia. }
  destruct (IH a2) as (H5 & H6 & H7 & H8); try lia; [exact H2| |].
  { intros k1 k2 Hk1 Hk12 Hk2 Hbig.
    destruct (Hg2 k2 ltac:(lia) Hk2) as [[Hle _]|[[-> ->]|[Hgt ->]]]; [lia| |].
    - destruct (Hg2 k1 Hk1 ltac:(lia)) as [[_ (k' & Hk'1 & Hk'2 & ->)]|[[_ ->]|[Hgt _]]];
        [apply Hroot; lia|apply key_le_refl|lia].
    - destruct (Hg2 k1 Hk1 ltac:(lia)) as [[_ (k' & Hk'1 & Hk'2 & ->)]|[[_ ->]|[_ ->]]];
        apply Htail; lia. }
  split; [congruence|]. split; [exact H6|]. split.
  - intros k Hk1 Hk2. destruct (H7 k Hk1 Hk2) as (k' & Hk'1 & Hk'2 & ->).
    destruct (Hg2 k' Hk'1 Hk'2) as [[_ (k'' & Hk''1 & Hk''2 & ->)]|[[_ ->]|[_ ->]]].
    + exists k''. split; [lia|]. split; [lia|reflexivity].
    + exists 1. split; [lia|]. split; [lia|reflexivity].
    + exists k'. auto.
  - intros p Hp. rewrite H8 by exact Hp. rewrite H4 by lia.
    apply hset_outside; lia.
Qed.

Lemma aheapsort_order (a : list nat) n :
  1 <= n -> pl + n <= length a ->
  ascending v (aheapsort v a pl n) pl (pl + n - 1) /\
  rearranged a (aheapsort v a pl n) pl (pl + n - 1).
Proof.
  intros Hn Hlen. unfold aheapsort.
  pose proof (Nat.Div0.mul_div_le n 2) as Hhalf.
  destruct (heapify_heap a n (n / 2)) as (H1 & H2 & H3 & H4); try lia.
  { intros c Hc1 Hc2. pose proof (Nat.div_mod_eq n 2). pose proof (Nat.mod_upper_bound n 2).
    lia. }
  set (a1 := heapify v a pl n (n / 2)) in *.
  destruct (sort_down_order a1 n n) as (H5 & H6 & H7 & H8); try lia; [exact H2|].
  set (a2 := sort_down v a1 pl n) in *.
  assert (Hpos : forall (b : list nat) p, pl <= p -> b !!! p = hget b pl (p - pl + 1)).
  { intros b p Hp. unfold hget. f_equal. lia. }
  split; [|split; [|split]].
  - intros p q Hp Hpq Hq. rewrite !Hpos by lia. apply H6; lia.
  - congruence.
  - intros p Hp. rewrite H8, H4 by lia. reflexivity.
  - intros p Hp. rewrite Hpos by lia.
    destruct (H7 (p - pl + 1)) as (k' & Hk'1 & Hk'2 & ->); try lia.
    destruct (H3 k' Hk'1 Hk'2) as (k'' & Hk''1 & Hk''2 & ->).
    exists (pl + k'' - 1). split; [lia|reflexivity].
Qed.

End HeapOrder.

Section QuickOrder.
Variable v : list float.

Import NumpySort.

(** Two parts in order, around a cell that splits them, are in order. *)
Lemma split_sorted (a c : list nat) pl pi pr :
  pl <= pi -> pi <= pr ->
  split_at v a pl pi pr ->
  c !!! pi = a !!! pi ->
  (forall p, pl <= p -> p < pi -> exists q, pl <= q /\ q < pi /\ c !!! p = a !!! q) ->
  (forall p, pi < p -> p <= pr -> exists q, pi < q /\ q <= pr /\ c !!! p = a !!! q) ->
  ascending v c pl (pi - 1) -> ascending v c (pi + 1) pr ->
  ascending v c pl pr.
Proof.
  intros Hl Hr [Hlow Hhigh] Hpi Hleft Hright Hasc1 Hasc2 p q Hp Hpq Hq.
  assert (Hbelow : forall p, pl <= p -> p < pi -> key_le v (c !!! p) (c !!! pi)).
  { intros p' Hp1 Hp2. destruct (Hleft p' Hp1 Hp2) as (q' & Hq1 & Hq2 & ->).
    rewrite Hpi. apply Hlow; assumption. }
  assert (Habove : forall p, pi < p -> p <= pr -> key_le v (c !!! pi) (c !!! p)).
  { intros p' Hp1 Hp2. destruct (Hright p' Hp1 Hp2) as (q' & Hq1 & Hq2 & ->).
    rewrite Hpi. apply Hhigh; assumption. }
  destruct (lt_eq_lt_dec p pi) as [[Hplt| ->]|Hpgt].
  - destruct (lt_eq_lt_dec q pi) as [[Hqlt| ->]|Hqgt].
    + apply Hasc1; lia.
    + apply Hbelow; lia.
    + apply (key_le_trans v _ (c !!! pi)); [apply Hbelow|apply Habove]; lia.
  - destruct (decide (q = pi)) as [->|Hne]; [apply key_le_refl|apply Habove; lia].
  - apply Hasc2; lia.
Qed.

(** The two parts of a partition, sorted one after the other. *)
Lemma parts_sorted (a b c : list nat) pl pi pr l1 r1 l2 r2 :
  (l1 = pl /\ r1 = pi - 1 /\ l2 = pi + 1 /\ r2 = pr) \/
  (l1 = pi + 1 /\ r1 = pr /\ l2 = pl /\ r2 = pi - 1) ->
  pl < pi -> pi < pr ->
  split_at v a pl pi pr ->
  ascending v b l1 r1 -> rearranged a b l1 r1 ->
  ascending v c l2 r2 -> rearranged b c l2 r2 ->
  ascending v c pl pr /\ rearranged a c pl pr.
Proof.
  intros Hparts Hl Hr Hsplit Hasc1 Hre1 Hasc2 Hre2.
  assert (Hre : rearranged a c pl pr).
  { apply (rearranged_trans a b c).
    - apply (rearranged_wider a b l1 r1); [lia..|exact Hre1].
    - apply (rearranged_wider b c l2 r2); [lia..|exact Hre2]. }
  split; [|exact Hre].
  destruct Hre1 as (Hlen1 & Hout1 & Hin1), Hre2 as (Hlen2 & Hout2 & Hin2).
  apply (split_sorted a c pl pi pr); try lia; try assumption.
  - rewrite Hout2, Hout1 by lia. reflexivity.
  - intros p Hp1 Hp2. destruct Hparts as [(-> & -> & -> & ->)|(-> & -> & -> & ->)].
    + rewrite Hout2 by lia. destruct (Hin1 p ltac:(lia)) as (q & Hq & ->).
      exists q. split; [lia|]. split; [lia|reflexivity].
    + destruct (Hin2 p ltac:(lia)) as (q & Hq & ->). rewrite Hout1 by lia.
      exists q. split; [lia|]. split; [lia|reflexivity].
  - intros p Hp1 Hp2. destruct Hparts as [(-> & -> & -> & ->)|(-> & -> & -> & ->)].
    + destruct (Hin2 p ltac:(lia)) as (q & Hq & ->). rewrite Hout1 by lia.
      exists q. split; [lia|]. split; [lia|reflexivity].
    + rewrite Hout2 by lia. destruct (Hin1 p ltac:(lia)) as (q & Hq & ->).
      exists q. split; [lia|]. split; [lia|reflexivity].
  - destruct Hparts as [(-> & -> & -> & ->)|(-> & -> & -> & ->)].
    + intros p q Hp Hpq Hq. rewrite !Hout2 by lia. apply Hasc1; lia.
    + exact Hasc2.
  - destruct Hparts as [(-> & -> & -> & ->)|(-> & -> & -> & ->)].
    + exact Hasc2.
    + intros p q Hp Hpq Hq. rewrite !Hout2 by lia. apply Hasc1; lia.
Qed.

Lemma quick_order size (a : list nat) pl pr cdepth :
  pr - pl < size -> pr < length a ->
  ascending v (quick v size a pl pr cdepth) pl pr /\
  rearranged a (quick v size a pl pr cdepth) pl pr.
Proof.
  revert a pl pr cdepth. induction size as [|size IH]; intros a pl pr cdepth Hsize Hlen;
    [lia|].
  cbn [quick]. destruct (SMALL_QUICKSORT <? pr - pl) eqn:Hbig;
    [|apply insertion_sort_order, Hlen].
  apply Nat.ltb_lt in Hbig.
  destruct (partition_order v a pl pr Hbig Hlen) as (a' & pi & -> & Hl & Hr & Hre & Hsplit).
  pose proof Hre as (Hlen' & _ & _).
  assert (Hpopped : forall b l r, l <= r -> r < length b -> r - l < size ->
            ascending v (if (cdepth - 1 <? 0)%Z then aheapsort v b l (r - l + 1)
                         else quick v size b l r (cdepth - 1)) l r /\
            rearranged b (if (cdepth - 1 <? 0)%Z then aheapsort v b l (r - l + 1)
                          else quick v size b l r (cdepth - 1)) l r).
  { intros b l r Hlr Hb Hs. destruct (cdepth - 1 <? 0)%Z.
    - destruct (aheapsort_order v l b (r - l + 1)) as [Hasc Hrea]; try lia.
      replace (l + (r - l + 1) - 1) with r in * by lia. auto.
    - apply IH; assumption. }
  assert (Hjoin : forall c, ascending v c pl pr /\ rearranged a' c pl pr ->
                            ascending v c pl pr /\ rearranged a c pl pr).
  { intros c [Hasc Hrea]. split; [exact Hasc|]. exact (rearranged_trans _ _ _ _ _ Hre Hrea). }
  destruct (pi - pl <? pr - pi).
  - destruct (IH a' pl (pi - 1) (cdepth - 1)%Z) as [Hasc1 Hre1]; try lia.
    set (b := quick v size a' pl (pi - 1) (cdepth - 1)) in *.
    destruct (Hpopped b (pi + 1) pr) as [Hasc2 Hre2];
      try lia; [destruct Hre1 as (-> & _); lia|].
    apply Hjoin.
    apply (parts_sorted a' b _ pl pi pr pl (pi - 1) (pi + 1) pr); auto.
  - destruct (IH a' (pi + 1) pr (cdepth - 1)%Z) as [Hasc1 Hre1]; try lia.
    set (b := quick v size a' (pi + 1) pr (cdepth - 1)) in *.
    destruct (Hpopped b pl (pi - 1)) as [Hasc2 Hre2];
      try lia; [destruct Hre1 as (-> & _); lia|].
    apply Hjoin.
    apply (parts_sorted a' b _ pl pi pr (pi + 1) pr pl (pi - 1)); auto.
Qed.

(** [argsort] returns the positions in ascending order of their keys. *)
Lemma argsort_order : ascending v (argsort v) 0 (length v - 1).
Proof.
  unfold argsort. destruct (length v) as [|n] eqn:Hn.
  - intros p q Hp Hpq Hq. replace q with p by lia. apply key_le_refl.
  - apply quick_order; rewrite ?length_seq; lia.
Qed.

End QuickOrder.

Section SortValuesAscending.
Context {R : Type} `{LfcColumns R}.

Lemma index_sorted {X : Type} (Rel : X -> X -> Prop) (l : list X) :
  (forall i j x y, i < j -> l !! i = Some x -> l !! j = Some y -> Rel x y) ->
  StronglySorted Rel l.
Proof.
  induction l as [|x l IH]; intros Hrel; constructor.
  - apply IH. intros i j y z Hij Hi Hj. apply (Hrel (S i) (S j)); [lia|exact Hi|exact Hj].
  - apply Forall_forall. intros y Hy.
    apply list_elem_of_lookup in Hy as [j Hj].
    apply (Hrel 0 (S j)); [lia|reflexivity|exact Hj].
Qed.

Lemma take_lookup (df : list R) (idx : list nat) (i k : nat) :
  Forall (fun k => k < length df) idx ->
  idx !! i = Some k -> take df idx !! i = df !! k.
Proof.
  unfold take. intros Hidx. revert i. induction Hidx as [|k0 idx Hk0 Hidx IH]; intros i Hi.
  - discriminate.
  - destruct (lookup_lt_is_Some_2 df k0 Hk0) as [r Hr].
    csimpl. rewrite Hr. simpl. destruct i as [|i].
    + injection Hi as <-. simpl. symmetry. exact Hr.
    + simpl. apply IH. exact Hi.
Qed.

Lemma filter_perm {X : Type} (p : X -> bool) (l l' : list X) :
  l ≡ₚ l' -> List.filter p l ≡ₚ List.filter p l'.
Proof.
  induction 1 as [|x l l' Hperm IH|x y l|l l' l'' H1 IH1 H2 IH2]; simpl.
  - reflexivity.
  - destruct (p x); [constructor|]; exact IH.
  - destruct (p x), (p y); try reflexivity. apply Permutation_swap.
  - etransitivity; eassumption.
Qed.

Lemma keyed_rows_sorted (df : list R) :
  List.filter keyed (sort_values df)
  = take df (map (fun p => non_nan_idx (map NSP2ox6 df) !!! p)
                 (NumpySort.argsort (non_nans (map NSP2ox6 df)))).
Proof.
  pose proof (argsort_perm (non_nans (map NSP2ox6 df))) as Hperm.
  pose proof (sort_values_keyed_first df Hperm) as Hfirst.
  rewrite (sort_values_split df) in Hfirst at 1.
  rewrite (filter_by_positions isna df), <- nan_idx_eq in Hfirst.
  apply app_inv_tail in Hfirst. symmetry. exact Hfirst.
Qed.

(** Among the rows that have a key, each row has a key that is not above the
    key of any later row. *)
Lemma keyed_rows_ascending (df : list R) :
  StronglySorted (fun r s => PrimFloat.leb (NSP2ox6 r) (NSP2ox6 s) = true)
                 (List.filter keyed (sort_values df)).
Proof.
  rewrite keyed_rows_sorted.
  pose proof (argsort_perm (non_nans (map NSP2ox6 df))) as Hperm.
  pose proof (sorted_positions_bounded df Hperm) as Hbounded.
  pose proof (argsort_order (non_nans (map NSP2ox6 df))) as Hasc.
  assert (Hkey : forall i r,
            take df (map (fun p => non_nan_idx (map NSP2ox6 df) !!! p)
                         (NumpySort.argsort (non_nans (map NSP2ox6 df)))) !! i = Some r ->
            i < length (non_nans (map NSP2ox6 df)) /\
            NSP2ox6 r = non_nans (map NSP2ox6 df)
                          !!! (NumpySort.argsort (non_nans (map NSP2ox6 df)) !!! i) /\
            isna (NSP2ox6 r) = false).
  { intros i r Hi.
    assert (Hlt : i < length (NumpySort.argsort (non_nans (map NSP2ox6 df)))).
    { apply lookup_lt_Some in Hi. rewrite take_length, length_map in Hi by exact Hbounded.
      exact Hi. }
    destruct (lookup_lt_is_Some_2 _ i Hlt) as [p Hp].
    assert (Hpin : In p (NumpySort.argsort (non_nans (map NSP2ox6 df))))
      by (apply list_elem_of_In; eapply list_elem_of_lookup_2, Hp).
    pose proof (perm_bounded df Hperm p Hpin) as Hpb.
    rewrite (take_lookup df _ i (non_nan_idx (map NSP2ox6 df) !!! p)) in Hi;
      [|exact Hbounded|rewrite list_lookup_fmap, Hp; reflexivity].
    rewrite (list_lookup_total_correct _ _ _ Hp).
    rewrite (non_nans_lookup df p Hpb).
    rewrite (items_lookup df _ r Hi).
    rewrite argsort_length in Hlt.
    split; [exact Hlt|]. split; [reflexivity|].
    rewrite <- (items_lookup df _ r Hi).
    apply (non_nan_idx_keyed df).
    apply list_elem_of_In, list_elem_of_lookup_total_2, Hpb. }
  apply index_sorted. intros i j r s Hij Hi Hj.
  destruct (Hkey i r Hi) as (Hilt & Hr & Hrn), (Hkey j s Hj) as (Hjlt & Hs & Hsn).
  specialize (Hasc i j ltac:(lia) ltac:(lia) ltac:(lia)). unfold key_le in Hasc.
  rewrite <- Hr, <- Hs in Hasc.
  apply fleb_rank; [assumption..|]. intros Hlt%less_rank. congruence.
Qed.

End SortValuesAscending.

(** ** Ties under [sort_values] *)

Lemma sort_values_length {R : Type} `{LfcColumns R} (df : list R) :
  length (sort_values df) = length df.
Proof.
  apply Permutation_length, sort_values_perm, argsort_perm.
Qed.

(** C4, as the code has it: [sort_values] is called with its default
    [kind='quicksort'], which is not a stable sort.  For every frame it
    returns the rows of the frame, the rows that have a key first and in
    ascending order of the key, the rows without a key last and in their
    input order; the rows with a given key are the rows that have this key
    in the frame, but they need not come back in their input order. *)
Theorem sort_values_orders_keys_not_ties :
  forall (R : Type) (C : LfcColumns R) (df : list R),
    sort_values df ≡ₚ df /\
    sort_values df
      = List.filter keyed (sort_values df)
        ++ List.filter (fun r => isna (NSP2ox6 r)) df /\
    StronglySorted (fun r s => PrimFloat.leb (NSP2ox6 r) (NSP2ox6 s) = true)
                   (List.filter keyed (sort_values df)) /\
    (forall k : float,
       List.filter (key_is k) (sort_values df) ≡ₚ List.filter (key_is k) df).
Proof.
  intros R C df.
  pose proof (argsort_perm (non_nans (map NSP2ox6 df))) as Hperm.
  pose proof (sort_values_perm df Hperm) as Hrows.
  split; [exact Hrows|].
  split; [apply (sort_values_keyed_first df Hperm)|].
  split; [apply keyed_rows_ascending|].
  intros k. apply filter_perm, Hrows.
Qed.

(** Seventeen rows with the same NSP2ox6 come back in another order, while
    the first sixteen of them alone keep theirs. *)
Lemma sort_values_reorders_ties :
  map Names (sort_values tied_frame)
  = ["01"; "15"; "14"; "13"; "12"; "11"; "10"; "16"; "09"; "07"; "06"; "05";
     "04"; "03"; "02"; "08"; "17"]
  /\ sort_values (firstn 16 tied_frame) = firstn 16 tied_frame
  /\ List.filter (key_is 0) (sort_values tied_frame)
     <> List.filter (key_is 0) tied_frame.
Proof.
  split; [vm_compute; reflexivity|]. split; [vm_compute; reflexivity|].
  intros Heq. apply (f_equal (map Names)) in Heq. revert Heq.
  vm_compute. discriminate.
Qed.

(** ** The pathway merge and the merge of two conditions *)

Section InnerJoinRows.
Context {A B : Type} (key_l : A -> string) (key_r : B -> string).

Lemma key_groups_distinct (ks : list string) : List.NoDup (key_groups ks).
Proof.
  induction ks as [|k ks IH]; simpl; constructor.
  - rewrite filter_In, String.eqb_refl. intros [_ [=]].
  - apply List.NoDup_filter, IH.
Qed.

Lemma filter_either {X : Type} (p q : X -> bool) (l : list X) :
  (forall x, p x = true -> q x = false) ->
  List.filter (fun x => p x || q x) l ≡ₚ List.filter p l ++ List.filter q l.
Proof.
  intros Hpq. induction l as [|x l IH]; [reflexivity|]. simpl.
  destruct (p x) eqn:Hp; simpl.
  - rewrite (Hpq x Hp). constructor. exact IH.
  - destruct (q x).
    + rewrite IH. apply Permutation_middle.
    + exact IH.
Qed.

(** The key groups split the left frame. *)
Lemma key_groups_split (l : list A) (G : list string) :
  List.NoDup G ->
  flat_map (fun k => List.filter (fun a => String.eqb k (key_l a)) l) G
  ≡ₚ List.filter (fun a => existsb (fun k => String.eqb k (key_l a)) G) l.
Proof.
  induction 1 as [|k G Hk Hnd IH]; simpl.
  - rewrite filter_none by reflexivity. reflexivity.
  - rewrite IH, <- filter_either; [reflexivity|].
    intros a Heq%String.eqb_eq. subst k.
    destruct (existsb _ G) eqn:Hex; [|reflexivity].
    apply existsb_exists in Hex as (k & Hin & ->%String.eqb_eq). contradiction.
Qed.

Lemma flat_map_flat_map {X Y Z : Type} (g : Y -> list Z) (h : X -> list Y) (l : list X) :
  flat_map g (flat_map h l) = flat_map (fun x => flat_map g (h x)) l.
Proof.
  induction l as [|x l IH]; [reflexivity|].
  simpl. rewrite flat_map_app, IH. reflexivity.
Qed.

(** Up to the order of its rows, the inner join is every left row with each
    right row of the same key. *)
Lemma merge_inner_every_match (l : list A) (r : list B) :
  merge_inner key_l key_r l r
  ≡ₚ flat_map (fun a => map (fun b => (a, b)) (matches key_r (key_l a) r)) l.
Proof.
  unfold merge_inner.
  rewrite (flat_map_ext _
             (fun k => flat_map (fun a => map (fun b => (a, b)) (matches key_r (key_l a) r))
                         (List.filter (fun a => String.eqb k (key_l a)) l))).
  - rewrite <- flat_map_flat_map. apply Permutation_flat_map.
    rewrite key_groups_split by apply key_groups_distinct.
    rewrite filter_all; [reflexivity|].
    intros a Ha. apply existsb_exists. exists (key_l a).
    split; [|apply String.eqb_refl]. apply elem_of_key_groups, in_map, Ha.
  - intros k. rewrite !flat_map_concat_map. f_equal. apply map_ext_in.
    intros a [_ ->%String.eqb_eq]%filter_In. reflexivity.
Qed.

Lemma merge_inner_count (l : list A) (r : list B) :
  length (merge_inner key_l key_r l r)
  = list_sum (map (fun a => length (matches key_r (key_l a) r)) l).
Proof.
  rewrite (Permutation_length (merge_inner_every_match l r)).
  induction l as [|a l IH]; [reflexivity|].
  cbn [flat_map map list_sum]. rewrite length_app, length_map, IH. reflexivity.
Qed.
End InnerJoinRows.

(** C5, as the code has it: when the identifiers are distinct in the pathway
    table and in the expression table, the inner join, and with it the frame
    [prepare_dataframe] returns, has at most as many rows as either table.
    For all tables, the result has one row for every row of the join, a row
    of the join pairs a pathway row and an expression row of the same
    identifier, and a row of the result is such a pair with the label of its
    pathway row in ['Gene_id']. *)
Theorem prepare_dataframe_inner_join_bounds :
  forall (cssp_df : list pathway_row) (df_lfc : list lfc_row),
    length (prepare_dataframe cssp_df df_lfc) = length (pathway_merge cssp_df df_lfc) /\
    (forall p e, In (p, e) (pathway_merge cssp_df df_lfc) <->
                 In p cssp_df /\ In e df_lfc /\ geneid p = Gene_id e) /\
    (forall row, In row (prepare_dataframe cssp_df df_lfc) ->
       exists p e, In p cssp_df /\ In e df_lfc /\ geneid p = Gene_id e /\
                   row = labelled_row (p, e)) /\
    (NoDup (map geneid cssp_df) -> NoDup (map Gene_id df_lfc) ->
     length (pathway_merge cssp_df df_lfc) <= Nat.min (length cssp_df) (length df_lfc) /\
     length (prepare_dataframe cssp_df df_lfc)
       <= Nat.min (length cssp_df) (length df_lfc)).
Proof.
  intros cssp df.
  assert (Hlen : length (prepare_dataframe cssp df) = length (pathway_merge cssp df)).
  { unfold prepare_dataframe. rewrite sort_values_length, length_map. reflexivity. }
  split; [exact Hlen|]. split; [|split].
  - intros p e. apply merge_inner_pairs.
  - intros row Hrow%sort_values_In. apply in_map_iff in Hrow as ([p e] & <- & Hpe).
    apply merge_inner_pairs in Hpe as (Hp & He & Heq). exists p, e. auto.
  - intros Hl Hr. rewrite Hlen. split; apply (merge_inner_length geneid Gene_id cssp df Hl Hr).
Qed.

(** A gene listed under two pathways gives two rows, more than the one row of
    the expression table; and the ['Gene_id'] cells of the result are labels,
    which are identifiers of neither table. *)
Lemma prepare_dataframe_repeated_identifier :
  length (prepare_dataframe two_pathways one_measurement) = 2
  /\ Nat.min (length two_pathways) (length one_measurement) = 1
  /\ map Gene_id (prepare_dataframe two_pathways one_measurement)
     = ["CCD7 | 0001234"; "strigolactone | 0001234"]
  /\ ~ (length (prepare_dataframe two_pathways one_measurement)
        <= Nat.min (length two_pathways) (length one_measurement)).
Proof.
  assert (Hrows : map Gene_id (prepare_dataframe two_pathways one_measurement)
                  = ["CCD7 | 0001234"; "strigolactone | 0001234"])
    by (vm_compute; reflexivity).
  assert (Hlen : length (prepare_dataframe two_pathways one_measurement) = 2).
  { rewrite <- (length_map Gene_id), Hrows. reflexivity. }
  split; [exact Hlen|]. split; [reflexivity|]. split; [exact Hrows|].
  rewrite Hlen. simpl. lia.
Qed.

(** C7, as the code has it: the merge of two conditions has exactly the
    identifiers that occur in both frames; a row carries the fold changes of
    a left row under the [_x] names and those of a right row of the same
    identifier under the [_y] names, and a missing value as separator.  For
    frames whose identifiers are distinct the rows come in the order of the
    left frame, one for every common identifier.  For all frames, every left
    row is paired with every right row of its identifier: the merge is, up
    to the order of its rows, each left row with each right row of the same
    identifier, once. *)
Theorem merge_common_rows_in_left_order :
  forall (processed_df_NPLOW processed_df_NlowPhigh : list lfc_row),
    let merged_df := merge processed_df_NPLOW processed_df_NlowPhigh in
    (forall g, In g (map dual_Gene_id merged_df) <->
               In g (map Gene_id processed_df_NPLOW) /\
               In g (map Gene_id processed_df_NlowPhigh)) /\
    (forall d, In d merged_df ->
       exists l r, In l processed_df_NPLOW /\ In r processed_df_NlowPhigh /\
         Gene_id l = dual_Gene_id d /\ Gene_id r = dual_Gene_id d /\
         nsp2_9_x d = nsp2_9 l /\ NSP2ox1_x d = lfc_NSP2ox1 l /\
         NSP2ox3_x d = lfc_NSP2ox3 l /\ NSP2ox6_x d = lfc_NSP2ox6 l /\
         nsp2_9_y d = nsp2_9 r /\ NSP2ox1_y d = lfc_NSP2ox1 r /\
         NSP2ox3_y d = lfc_NSP2ox3 r /\ NSP2ox6_y d = lfc_NSP2ox6 r /\
         isna (separator d) = true) /\
    (NoDup (map Gene_id processed_df_NPLOW) ->
     NoDup (map Gene_id processed_df_NlowPhigh) ->
     map dual_Gene_id merged_df =
       List.filter (fun g => bool_decide (g ∈ map Gene_id processed_df_NlowPhigh))
                   (map Gene_id processed_df_NPLOW) /\
     sublist (map dual_Gene_id merged_df) (map Gene_id processed_df_NPLOW)) /\
    (forall l r, In l processed_df_NPLOW -> In r processed_df_NlowPhigh ->
       Gene_id l = Gene_id r -> In (dual_of (l, r)) merged_df) /\
    merged_df
    ≡ₚ flat_map (fun l => map (fun r => dual_of (l, r))
                            (matches Gene_id (Gene_id l) processed_df_NlowPhigh))
                processed_df_NPLOW /\
    length merged_df
    = list_sum (map (fun l => length (matches Gene_id (Gene_id l) processed_df_NlowPhigh))
                    processed_df_NPLOW).
Proof.
  intros left right merged_df.
  assert (Hrows : forall d, In d merged_df <->
            exists l r, d = dual_of (l, r) /\ In l left /\ In r right /\
                        Gene_id l = Gene_id r).
  { intros d. unfold merged_df, merge. rewrite in_map_iff. split.
    - intros ([l r] & <- & Hlr%merge_inner_pairs). exists l, r. tauto.
    - intros (l & r & -> & Hlr). exists (l, r). split; [reflexivity|].
      apply merge_inner_pairs. exact Hlr. }
  split; [|split; [|split; [|split; [|split]]]].
  - intros g. rewrite in_map_iff. split.
    + intros (d & <- & (l & r & -> & Hl & Hr & Heq)%Hrows). simpl. split.
      * apply in_map, Hl.
      * rewrite Heq. apply in_map, Hr.
    + intros [(l & <- & Hl)%in_map_iff (r & Heq & Hr)%in_map_iff].
      exists (dual_of (l, r)). split; [reflexivity|].
      apply Hrows. exists l, r. auto.
  - intros d (l & r & -> & Hl & Hr & Heq)%Hrows.
    exists l, r. simpl. repeat (split; [solve [auto]|]). reflexivity.
  - intros Hl Hr.
    assert (Hids : map dual_Gene_id merged_df =
              List.filter (fun g => bool_decide (g ∈ map Gene_id right))
                          (map Gene_id left)).
    { rewrite <- (merge_inner_keys Gene_id Gene_id left right Hl Hr).
      unfold merged_df, merge. rewrite map_map. apply map_ext. intros [l r]. reflexivity. }
    split; [exact Hids|]. rewrite Hids. apply filter_sublist.
  - intros l r Hl Hr Heq. apply Hrows. exists l, r. auto.
  - unfold merged_df, merge.
    rewrite (merge_inner_every_match Gene_id Gene_id left right).
    clear. induction left as [|l left IH]; [reflexivity|].
    cbn [flat_map]. rewrite map_app, map_map. apply Permutation_app; [reflexivity|exact IH].
  - unfold merged_df, merge. rewrite length_map. apply merge_inner_count.
Qed.

(** The cleanup gives the two transcripts of a gene the same label, so the
    prepared frames of two conditions have a repeated identifier although
    every input identifier occurs once; the merge then pairs each of the two
    left rows with each of the two right rows: five rows for three left
    rows. *)
Lemma merge_repeated_label :
  let left := prepare_dataframe transcript_pathways condition_NPlow in
  let right := prepare_dataframe transcript_pathways condition_NlowPhigh in
  map Gene_id left = ["CCD7 | 0001234"; "CCD7 | 0001234"; "CCD8 | 0005678"]
  /\ map Gene_id right = ["CCD7 | 0001234"; "CCD7 | 0001234"; "CCD8 | 0005678"]
  /\ map dual_Gene_id (merge left right)
     = ["CCD7 | 0001234"; "CCD7 | 0001234"; "CCD7 | 0001234"; "CCD7 | 0001234";
        "CCD8 | 0005678"]
  /\ map dual_Gene_id (merge left right)
     <> List.filter (fun g => bool_decide (g ∈ map Gene_id right)) (map Gene_id left).
Proof.
  cbv zeta.
  assert (Hleft : map Gene_id (prepare_dataframe transcript_pathways condition_NPlow)
                  = ["CCD7 | 0001234"; "CCD7 | 0001234"; "CCD8 | 0005678"])
    by (vm_compute; reflexivity).
  assert (Hright : map Gene_id (prepare_dataframe transcript_pathways condition_NlowPhigh)
                   = ["CCD7 | 0001234"; "CCD7 | 0001234"; "CCD8 | 0005678"])
    by (vm_compute; reflexivity).
  assert (Hout : map dual_Gene_id
                   (merge (prepare_dataframe transcript_pathways condition_NPlow)
                          (prepare_dataframe transcript_pathways condition_NlowPhigh))
                 = ["CCD7 | 0001234"; "CCD7 | 0001234"; "CCD7 | 0001234";
                    "CCD7 | 0001234"; "CCD8 | 0005678"])
    by (vm_compute; reflexivity).
  split; [exact Hleft|]. split; [exact Hright|]. split; [exact Hout|].
  rewrite Hout, Hleft, Hright. intros Heq.
  apply (f_equal (@length string)) in Heq.
  pose proof (List.filter_length_le
    (fun g => bool_decide (g ∈ ["CCD7 | 0001234"; "CCD7 | 0001234"; "CCD8 | 0005678"]))
    ["CCD7 | 0001234"; "CCD7 | 0001234"; "CCD8 | 0005678"]) as Hle.
  rewrite <- Heq in Hle. simpl in Hle. lia.
Qed.

(** * Further properties of the two scripts *)

(** ** More on the threshold filter *)

Section CutoffFacts.

Lemma rank_lt_le_trans a b c : rank_lt a b -> ~ rank_lt c b -> rank_lt a c.
Proof. unfold rank_lt. lia. Qed.

Lemma rank_le_lt_trans a b c : ~ rank_lt b a -> rank_lt b c -> rank_lt a c.
Proof. unfold rank_lt. lia. Qed.

Lemma flt_leb_trans (x y z : float) :
  flt x y = true -> PrimFloat.leb y z = true -> flt x z = true.
Proof.
  intros Hxy Hyz.
  destruct (flt_not_nan x y Hxy) as [Hx Hy], (fleb_nan y z Hyz) as [_ Hz].
  apply flt_rank in Hxy; [|assumption..]. apply fleb_rank in Hyz; [|assumption..].
  apply flt_rank; [assumption..|]. exact (rank_lt_le_trans _ _ _ Hxy Hyz).
Qed.

Lemma leb_flt_trans (x y z : float) :
  PrimFloat.leb x y = true -> flt y z = true -> flt x z = true.
Proof.
  intros Hxy Hyz.
  destruct (fleb_nan x y Hxy) as [Hx Hy], (flt_not_nan y z Hyz) as [_ Hz].
  apply fleb_rank in Hxy; [|assumption..]. apply flt_rank in Hyz; [|assumption..].
  apply flt_rank; [assumption..|]. exact (rank_le_lt_trans _ _ _ Hxy Hyz).
Qed.

(** Between two numbers, [<=] holds exactly when [>] fails. *)
Lemma fleb_not_flt (x y : float) :
  isna x = false -> isna y = false ->
  (PrimFloat.leb x y = true <-> flt y x = false).
Proof.
  intros Hx Hy. rewrite (fleb_rank x y Hx Hy).
  pose proof (flt_rank y x Hy Hx) as Hlt.
  destruct (flt y x); split; intros Hc; try reflexivity; try discriminate.
  - destruct Hc. apply Hlt. reflexivity.
  - intros Hr%Hlt. discriminate.
Qed.

Context {R : Type} `{LfcColumns R}.

Lemma lfc_mask_row_wider (lo hi lo' hi' : float) (r : R) :
  PrimFloat.leb lo' lo = true -> PrimFloat.leb hi hi' = true ->
  lfc_mask_row lo' hi' r = true -> lfc_mask_row lo hi r = true.
Proof.
  intros Hlo Hhi (v & Hv & Hout)%lfc_mask_row_spec.
  apply lfc_mask_row_spec. exists v. split; [exact Hv|].
  destruct Hout as [Hl|Hh]; [left|right].
  - exact (flt_leb_trans _ _ _ Hl Hlo).
  - unfold fgt in *. exact (leb_flt_trans _ _ _ Hhi Hh).
Qed.

Lemma lfc_mask_row_false (lo hi : float) (r : R) :
  lfc_mask_row lo hi r = false <->
  forall v, In v (condition_values r) -> flt v lo = false /\ fgt v hi = false.
Proof.
  split.
  - intros Hm v Hv. destruct (flt v lo) eqn:Hl, (fgt v hi) eqn:Hh; try (split; reflexivity);
      exfalso; (assert (Ht : lfc_mask_row lo hi r = true);
                [apply lfc_mask_row_spec; exists v; auto|congruence]).
  - intros Hall. destruct (lfc_mask_row lo hi r) eqn:Hm; [|reflexivity].
    apply lfc_mask_row_spec in Hm as (v & Hv & Hout).
    destruct (Hall v Hv) as [Hl Hh]. destruct Hout; congruence.
Qed.

End CutoffFacts.

(** Cutoffs further apart select fewer rows: the frame they select is a
    subsequence of the frame selected by the cutoffs closer together, and is
    also what they select from that frame. *)
Theorem filter_lfc_wider_cutoffs_select_fewer :
  forall (R : Type) (C : LfcColumns R) (df_in : list R)
         (lfc_low lfchigh lower higher : float),
    PrimFloat.leb lower lfc_low = true -> PrimFloat.leb lfchigh higher = true ->
    sublist (filter_rows df_in lower higher) (filter_rows df_in lfc_low lfchigh) /\
    filter_rows (filter_rows df_in lfc_low lfchigh) lower higher
    = filter_rows df_in lower higher.
Proof.
  intros R C df lo hi lo' hi' Hlo Hhi.
  assert (Heq : filter_rows (filter_rows df lo hi) lo' hi' = filter_rows df lo' hi').
  { rewrite !filter_rows_filter. apply filter_filter_implied.
    intros r. apply lfc_mask_row_wider; assumption. }
  split; [|exact Heq].
  rewrite <- Heq, (filter_rows_filter (filter_rows df lo hi)). apply filter_sublist.
Qed.

(** With two numbers as cutoffs, the rows that are dropped are the rows all
    of whose measured condition values lie in the closed interval between
    the cutoffs: a value equal to a cutoff is not outside. *)
Theorem filter_lfc_drops_closed_interval :
  forall (R : Type) (C : LfcColumns R) (lfc_low lfchigh : float) (r : R),
    isna lfc_low = false -> isna lfchigh = false ->
    (lfc_mask_row lfc_low lfchigh r = false <->
     forall v, In v (condition_values r) ->
       isna v = true \/
       (PrimFloat.leb lfc_low v = true /\ PrimFloat.leb v lfchigh = true)).
Proof.
  intros R C lo hi r Hlo Hhi. rewrite lfc_mask_row_false.
  split; intros Hall v Hv; specialize (Hall v Hv).
  - destruct (isna v) eqn:Hna; [left; reflexivity|right].
    destruct Hall as [Hl Hh]. split; apply fleb_not_flt; assumption.
  - destruct Hall as [Hna|[Hl Hh]].
    + split; [apply flt_nan_l, Hna|apply flt_nan_r, Hna].
    + destruct (fleb_nan _ _ Hl) as [_ Hv'].
      split; [apply (fleb_not_flt lo v)|apply (fleb_not_flt v hi)]; assumption.
Qed.

(** With the upper cutoff below the lower one, every row with a measured
    condition value is selected. *)
Theorem filter_lfc_crossed_cutoffs_select_measured_rows :
  forall (R : Type) (C : LfcColumns R) (df_in : list R) (lfc_low lfchigh : float),
    flt lfchigh lfc_low = true ->
    forall r, In r (filter_rows df_in lfc_low lfchigh) <->
              In r df_in /\ exists v, In v (condition_values r) /\ isna v = false.
Proof.
  intros R C df lo hi Hcross r.
  destruct (flt_not_nan hi lo Hcross) as [Hhi Hlo].
  rewrite filter_rows_filter, filter_In, lfc_mask_row_spec.
  split; intros [Hr (v & Hv & Hout)]; (split; [exact Hr|]); exists v; (split; [exact Hv|]).
  - destruct Hout as [Hl|Hh]; [apply (flt_not_nan v lo Hl)|apply (flt_not_nan hi v Hh)].
  - unfold fgt. destruct (flt v lo) eqn:Hl; [left; reflexivity|right].
    apply flt_rank; try assumption.
    apply flt_rank in Hcross; try assumption.
    apply (rank_lt_le_trans _ _ _ Hcross).
    intros Hc. apply flt_rank in Hc; try assumption. congruence.
Qed.

(** A missing cutoff switches its side of the test off: without a lower
    cutoff only the values above the upper one select a row, without an
    upper cutoff only the values below the lower one, and without both no
    row is selected. *)
Theorem filter_lfc_missing_cutoffs :
  forall (R : Type) (C : LfcColumns R) (df_in : list R) (lfc_low lfchigh : float),
    (isna lfc_low = true ->
     forall r : R, lfc_mask_row lfc_low lfchigh r = true <->
               exists v, In v (condition_values r) /\ fgt v lfchigh = true) /\
    (isna lfchigh = true ->
     forall r : R, lfc_mask_row lfc_low lfchigh r = true <->
               exists v, In v (condition_values r) /\ flt v lfc_low = true) /\
    (isna lfc_low = true -> isna lfchigh = true ->
     filter_rows df_in lfc_low lfchigh = []).
Proof.
  intros R C df lo hi. split; [|split].
  - intros Hlo r. rewrite lfc_mask_row_spec.
    split; intros (v & Hv & Hout); exists v; (split; [exact Hv|]); [|right; exact Hout].
    destruct Hout as [Hl|Hh]; [|exact Hh].
    rewrite (flt_nan_r v lo Hlo) in Hl. discriminate.
  - intros Hhi r. rewrite lfc_mask_row_spec.
    split; intros (v & Hv & Hout); exists v; (split; [exact Hv|]); [|left; exact Hout].
    destruct Hout as [Hl|Hh]; [exact Hl|].
    change (flt hi v = true) in Hh. rewrite (flt_nan_l hi v Hhi) in Hh. discriminate.
  - intros Hlo Hhi. rewrite filter_rows_filter. apply filter_none.
    intros r _. apply lfc_mask_row_false. intros v _.
    split; [apply flt_nan_r, Hlo|apply flt_nan_l, Hhi].
Qed.

(** Filtering the frame [filter_lfc] returned once more, with the same
    cutoffs, selects all of its rows: the second call prints the same count
    and its frame, a third object of the store, has the same rows; the
    first two frames are as they were. *)
Theorem filter_lfc_again_selects_all :
  forall (R : Type) (C : LfcColumns R) (w : world R) (df_in : nat) (rows : list R)
         (lfc_low lfchigh : float),
    frames w !! df_in = Some rows ->
    exists (df_filtered df_again : nat) (w' w'' : world R),
      filter_lfc df_in lfc_low lfchigh w = Some (df_filtered, w') /\
      bind (filter_lfc df_in lfc_low lfchigh)
           (fun df => filter_lfc df lfc_low lfchigh) w = Some (df_again, w'') /\
      df_again <> df_filtered /\ df_again <> df_in /\
      frames w'' !! df_again = Some (filter_rows rows lfc_low lfchigh) /\
      frames w'' !! df_filtered = Some (filter_rows rows lfc_low lfchigh) /\
      frames w'' !! df_in = Some rows /\
      stdout w'' = stdout w ++
        [Filtering_dataframe;
         Done_filtering (length (filter_rows rows lfc_low lfchigh)) lfc_low lfchigh;
         Filtering_dataframe;
         Done_filtering (length (filter_rows rows lfc_low lfchigh)) lfc_low lfchigh].
Proof.
  intros R C w df_in rows lo hi Hin.
  pose proof (filter_lfc_run w df_in rows lo hi Hin) as Hrun1. cbv zeta in Hrun1.
  set (d1 := fresh (dom (frames w))) in *.
  set (kept := filter_rows rows lo hi) in *.
  set (w1 := World (<[d1 := kept]> (frames w))
                   (stdout w ++ [Filtering_dataframe; Done_filtering (length kept) lo hi])
                   (warnings w)) in *.
  assert (Hd1 : frames w1 !! d1 = Some kept) by apply lookup_insert_eq.
  pose proof (filter_lfc_run w1 d1 kept lo hi Hd1) as Hrun2. cbv zeta in Hrun2.
  assert (Hidem : filter_rows kept lo hi = kept).
  { unfold kept. rewrite !filter_rows_filter. apply filter_filter_implied. auto. }
  rewrite Hidem in Hrun2.
  set (d2 := fresh (dom (frames w1))) in *.
  assert (Hfresh1 : frames w !! d1 = None) by apply fresh_frame.
  assert (Hfresh2 : frames w1 !! d2 = None) by apply fresh_frame.
  assert (Hne21 : d2 <> d1) by congruence.
  assert (Hne1 : d1 <> df_in) by congruence.
  assert (Hin1 : frames w1 !! df_in = Some rows).
  { simpl. rewrite lookup_insert_ne by exact Hne1. exact Hin. }
  assert (Hne2 : d2 <> df_in) by congruence.
  eexists d1, d2, w1, _. split; [exact Hrun1|]. split.
  { unfold bind at 1. rewrite Hrun1. exact Hrun2. }
  split; [exact Hne21|]. split; [exact Hne2|]. simpl.
  rewrite lookup_insert_eq.
  rewrite (lookup_insert_ne _ d2 d1) by exact Hne21.
  rewrite (lookup_insert_ne _ d2 df_in) by exact Hne2.
  rewrite lookup_insert_eq, (lookup_insert_ne _ d1 df_in) by exact Hne1.
  repeat (split; [reflexivity || exact Hin|]).
  rewrite <- app_assoc. reflexivity.
Qed.

(** ** More on the annotator *)

Section SubstringFacts.

Lemma prefix_spec (p s : string) :
  String.prefix p s = true <-> exists t, s = p +:+ t.
Proof.
  revert s. induction p as [|c p IH]; intros s.
  - split; [intros _; exists s; reflexivity|intros _; destruct s; reflexivity].
  - destruct s as [|d s]; simpl.
    + split; [discriminate|intros [t Ht]; rewrite append_cons in Ht; discriminate].
    + destruct (ascii_dec c d) as [->|Hne].
      * rewrite IH. split; intros [t Ht]; exists t.
        -- rewrite append_cons, Ht. reflexivity.
        -- rewrite append_cons in Ht. congruence.
      * split; [discriminate|]. intros [t Ht]. rewrite append_cons in Ht. congruence.
Qed.

(** [contains] is the substring test. *)
Lemma contains_spec (pat s : string) :
  PyStr.contains pat s = true <-> exists pre post, s = pre +:+ pat +:+ post.
Proof.
  induction s as [|c s IH].
  - change (PyStr.contains pat "") with (String.prefix pat "" || false).
    rewrite orb_false_r, prefix_spec. split.
    + intros [t Ht]. exists "", t. exact Ht.
    + intros (pre & post & Heq). destruct pre as [|d pre].
      * exists post. exact Heq.
      * rewrite append_cons in Heq. discriminate.
  - change (PyStr.contains pat (String c s))
      with (String.prefix pat (String c s) || PyStr.contains pat s).
    rewrite orb_true_iff, prefix_spec, IH. split.
    + intros [[t Ht]|(pre & post & Heq)].
      * exists "", t. exact Ht.
      * exists (String c pre), post. rewrite append_cons, Heq. reflexivity.
    + intros (pre & post & Heq). destruct pre as [|d pre].
      * left. exists post. exact Heq.
      * right. rewrite append_cons in Heq. injection Heq as -> ->.
        exists pre, post. reflexivity.
Qed.

End SubstringFacts.

(** The annotation rows that are used are those whose ['# feature'] cell has
    "mRNA" somewhere in it, in the order of the table; rows of other features
    change nothing in the annotated frame, wherever they stand. *)
Theorem annotate_uses_mRNA_rows_only :
  forall (annotation_df : list feature_row),
    (forall a, In a (mRNA_rows annotation_df) <->
       In a annotation_df /\ exists pre post, feature a = pre +:+ "mRNA" +:+ post) /\
    sublist (mRNA_rows annotation_df) annotation_df /\
    (forall (sep : string) (df : list lfc_row) (before others after : list feature_row),
       annotation_df = before ++ others ++ after ->
       (forall a, In a others -> PyStr.contains "mRNA" (feature a) = false) ->
       annotate_with sep df annotation_df = annotate_with sep df (before ++ after)).
Proof.
  intros ann. split; [|split].
  - intros a. unfold mRNA_rows. rewrite filter_In, contains_spec. reflexivity.
  - apply filter_sublist.
  - intros sep df before others after -> Hothers.
    unfold annotate_with, mRNA_rows. rewrite !List.filter_app.
    rewrite (filter_none _ others) by exact Hothers. reflexivity.
Qed.

Section LeftJoinRows.
Context {A B : Type} (key_l : A -> string) (key_r : B -> string).

Lemma merge_left_keys (l : list A) (r : list B) :
  map (fun p => key_l p.1) (merge_left key_l key_r l r)
  = flat_map (fun a => replicate (Nat.max 1 (length (matches key_r (key_l a) r)))
                                 (key_l a)) l.
Proof.
  unfold merge_left. induction l as [|a l IH]; [reflexivity|].
  cbn [flat_map]. rewrite map_app. f_equal; [|exact IH].
  destruct (matches key_r (key_l a) r) as [|b0 ms]; [reflexivity|].
  change (Nat.max 1 (length (b0 :: ms))) with (S (length ms)).
  cbn [map replicate fst]. f_equal.
  clear. induction ms as [|b ms IHms]; [reflexivity|]. simpl. f_equal. exact IHms.
Qed.
End LeftJoinRows.

(** A gene of the expression table has one row in the annotated frame for
    each annotation row that carries its identifier, and one row when no
    annotation row does: the identifiers of the annotated frame are those of
    the expression table, each repeated that many times. *)
Theorem annotate_one_row_per_annotation_row :
  forall (sep : string) (df : list lfc_row) (annotation_df : list feature_row),
    map an_Gene_id (annotate_with sep df annotation_df)
    = flat_map (fun e =>
                  let gene := PyStr.slice 7 2 (Gene_id e) in
                  replicate (Nat.max 1 (length (annotations_of annotation_df gene))) gene)
               df /\
    length (annotate_with sep df annotation_df)
    = list_sum (map (fun e => Nat.max 1 (length (annotations_of annotation_df
                                                   (PyStr.slice 7 2 (Gene_id e))))) df).
Proof.
  intros sep df ann.
  assert (Hids : map an_Gene_id (annotate_with sep df ann)
                 = flat_map (fun e =>
                      replicate (Nat.max 1 (length (annotations_of ann
                                                      (PyStr.slice 7 2 (Gene_id e)))))
                                (PyStr.slice 7 2 (Gene_id e))) df).
  { unfold annotate_with. rewrite map_map.
    rewrite (map_ext _ (fun p => Gene_id p.1)) by (intros [e m]; reflexivity).
    rewrite (merge_left_keys Gene_id locus_tag). rewrite flat_map_concat_map, map_map.
    rewrite <- flat_map_concat_map. reflexivity. }
  split; [exact Hids|].
  rewrite <- (length_map an_Gene_id), Hids. clear Hids.
  induction df as [|e df IH]; [reflexivity|].
  cbn [flat_map map list_sum]. rewrite length_app, length_replicate, IH. reflexivity.
Qed.

(** ** The labels of [merge_geneid_annotation] *)

Section LstripFacts.

Lemma lstrip_split (chars s : string) :
  exists stripped, all_in chars stripped = true /\ s = stripped +:+ PyStr.lstrip chars s.
Proof.
  induction s as [|c s (stripped & Hall & Heq)].
  - exists "". split; reflexivity.
  - simpl. destruct (PyStr.mem_char c chars) eqn:Hc.
    + exists (String c stripped). split.
      * simpl. rewrite Hc. exact Hall.
      * rewrite append_cons, <- Heq. reflexivity.
    + exists "". split; reflexivity.
Qed.

Lemma lstrip_head (chars s : string) (c : ascii) (rest : string) :
  PyStr.lstrip chars s = String c rest -> PyStr.mem_char c chars = false.
Proof.
  induction s as [|d s IH]; simpl; [discriminate|].
  destruct (PyStr.mem_char d chars) eqn:Hd; [exact IH|].
  intros [= <- _]. exact Hd.
Qed.

Lemma lstrip_stops (chars : string) (c : ascii) (rest : string) :
  PyStr.mem_char c chars = false ->
  PyStr.lstrip chars (String c rest) = String c rest.
Proof. intros Hc. simpl. rewrite Hc. reflexivity. Qed.

Lemma mem_char_bar_space (c : ascii) :
  PyStr.mem_char c "| " = false <-> c <> "|"%char /\ c <> " "%char.
Proof.
  simpl. rewrite orb_false_r, orb_false_iff, !Ascii.eqb_neq. reflexivity.
Qed.

End LstripFacts.

(** [merge_geneid_annotation] keeps the rows and their fold changes.  The
    label of a row is what is left of [Annotation + ' ' + Gene_id] after the
    bars and spaces at its front: it never starts with a bar or a space, and
    an identifier that starts with another character is never cut into, it
    is the end of the label. *)
Theorem merge_geneid_annotation_labels :
  forall (df : list annotated_row),
    length (merge_geneid_annotation df) = length df /\
    forall i a, df !! i = Some a ->
      exists r, merge_geneid_annotation df !! i = Some r /\
        nr_nsp2_9 r = an_nsp2_9 a /\ nr_NSP2ox1 r = an_NSP2ox1 a /\
        nr_NSP2ox3 r = an_NSP2ox3 a /\ nr_NSP2ox6 r = an_NSP2ox6 a /\
        (exists stripped, all_in "| " stripped = true /\
           Annotation a +:+ " " +:+ an_Gene_id a = stripped +:+ Names r) /\
        (forall c rest, Names r = String c rest -> c <> "|"%char /\ c <> " "%char) /\
        (forall c rest, an_Gene_id a = String c rest ->
           c <> "|"%char -> c <> " "%char ->
           exists front, Names r = front +:+ an_Gene_id a).
Proof.
  intros df. unfold merge_geneid_annotation. split; [apply length_map|].
  intros i a Hi. eexists. split; [rewrite list_lookup_fmap, Hi; reflexivity|].
  simpl. repeat (split; [reflexivity|]). unfold names_label. split; [|split].
  - apply lstrip_split.
  - intros c rest Hn. apply mem_char_bar_space. exact (lstrip_head _ _ _ _ Hn).
  - intros c rest Hg Hbar Hspace. rewrite <- append_assoc, lstrip_app.
    assert (Hkeep : PyStr.lstrip "| " (an_Gene_id a) = an_Gene_id a).
    { rewrite Hg. apply lstrip_stops, mem_char_bar_space. auto. }
    destruct (all_in "| " (Annotation a +:+ " ")).
    + exists "". rewrite Hkeep. reflexivity.
    + eexists. reflexivity.
Qed.

(** [annotate_dataframe] followed by [merge_geneid_annotation], in either
    script (the separators " | " and " " are made of bars and spaces): when
    the identifiers of the annotation rows that are used are distinct, the
    frame has one row per gene, in the order of the expression table and
    with its fold changes; the label of a gene without annotation row is its
    identifier, and the label of a gene with one is made of the symbol, the
    name and the identifier, without the bars and spaces at the front. *)
Theorem annotated_names_per_gene :
  forall (sep : string) (df : list lfc_row) (annotation_df : list feature_row),
    all_in "| " sep = true ->
    NoDup (map locus_tag (mRNA_rows annotation_df)) ->
    length (merge_geneid_annotation (annotate_with sep df annotation_df)) = length df /\
    forall i e, df !! i = Some e ->
      exists r,
        merge_geneid_annotation (annotate_with sep df annotation_df) !! i = Some r /\
        nr_nsp2_9 r = nsp2_9 e /\ nr_NSP2ox1 r = lfc_NSP2ox1 e /\
        nr_NSP2ox3 r = lfc_NSP2ox3 e /\ nr_NSP2ox6 r = lfc_NSP2ox6 e /\
        match annotations_of annotation_df (PyStr.slice 7 2 (Gene_id e)) with
        | [] => Names r = PyStr.lstrip "| " (PyStr.slice 7 2 (Gene_id e))
        | a :: _ =>
            Names r = PyStr.lstrip "| "
                        (PyStr.fillna (symbol a) +:+ sep +:+ PyStr.fillna (name a)
                         +:+ " " +:+ PyStr.slice 7 2 (Gene_id e))
        end.
Proof.
  intros sep df ann Hsep Hnd. unfold annotate_with, merge_geneid_annotation.
  rewrite (merge_left_unique _ _ _ _ Hnd). split; [rewrite !length_map; reflexivity|].
  intros i e Hi. eexists. split; [rewrite !list_lookup_fmap, Hi; reflexivity|].
  simpl. repeat (split; [reflexivity|]).
  unfold annotations_of. rewrite (matches_unique _ _ _ Hnd).
  unfold names_label, annotation_label.
  destruct (List.find _ (mRNA_rows ann)) as [a|]; simpl.
  - rewrite !append_assoc. reflexivity.
  - change ("" +:+ sep +:+ "") with (sep +:+ ""). rewrite append_empty_r.
    rewrite lstrip_app, Hsep.
    change (" " +:+ PyStr.slice 7 2 (Gene_id e))
      with (String " " (PyStr.slice 7 2 (Gene_id e))).
    reflexivity.
Qed.

(** ** More on the inner joins *)

(** Whatever identifiers are repeated, the pathway merge and the merge of
    two conditions have, up to the order of the rows, one row for each left
    row and each right row of the same identifier.  So [prepare_dataframe]
    returns, for each pathway row, as many rows as the expression table has
    rows of its identifier, and the two-condition frame has, for each row of
    the left frame, as many rows as the right frame has rows of its label. *)
Theorem inner_joins_pair_every_match :
  forall (cssp_df : list pathway_row) (df_lfc processed_df_NPLOW processed_df_NlowPhigh
            : list lfc_row),
    pathway_merge cssp_df df_lfc
    ≡ₚ flat_map (fun p => map (fun e => (p, e)) (matches Gene_id (geneid p) df_lfc)) cssp_df /\
    length (prepare_dataframe cssp_df df_lfc)
    = list_sum (map (fun p => length (matches Gene_id (geneid p) df_lfc)) cssp_df) /\
    merge processed_df_NPLOW processed_df_NlowPhigh
    ≡ₚ flat_map (fun l => map (fun r => dual_of (l, r))
                            (matches Gene_id (Gene_id l) processed_df_NlowPhigh))
                processed_df_NPLOW /\
    length (merge processed_df_NPLOW processed_df_NlowPhigh)
    = list_sum (map (fun l => length (matches Gene_id (Gene_id l) processed_df_NlowPhigh))
                    processed_df_NPLOW).
Proof.
  intros cssp df left right. split; [|split; [|split]].
  - apply merge_inner_every_match.
  - unfold prepare_dataframe. rewrite sort_values_length, length_map.
    apply merge_inner_count.
  - unfold merge.
    rewrite (merge_inner_every_match Gene_id Gene_id left right).
    induction left as [|l left IH]; [reflexivity|].
    cbn [flat_map]. rewrite map_app, map_map. apply Permutation_app; [reflexivity|exact IH].
  - unfold merge. rewrite length_map. apply merge_inner_count.
Qed.

(** ** More on the identifier cleanup *)

Section SuffixFacts.

Lemma remove_all_absent (pat s : string) :
  PyStr.contains pat s = false -> PyStr.remove_all pat s = s.
Proof.
  unfold PyStr.remove_all. induction s as [|c s IH]; [reflexivity|].
  change (PyStr.contains pat (String c s))
    with (String.prefix pat (String c s) || PyStr.contains pat s).
  intros [Hhere Hs]%orb_false_iff.
  change (PyStr.remove_from 0 pat (String c s))
    with (if String.prefix pat (String c s)
          then PyStr.remove_from (String.length pat - 1) pat s
          else String c (PyStr.remove_from 0 pat s)).
  rewrite Hhere, (IH Hs). reflexivity.
Qed.

Lemma dot_digit_end_here_spec (s : string) :
  PyStr.dot_digit_end_here s = true <->
  exists d, PyStr.is_digit d = true /\
            (s = String "." (String d "") \/ s = String "." (String d PyStr.newline)).
Proof.
  unfold PyStr.dot_digit_end_here. split.
  - destruct s as [|c [|d rest]]; try discriminate.
    rewrite !andb_true_iff, orb_true_iff, Ascii.eqb_eq, !String.eqb_eq.
    intros [[-> Hd] [->| ->]]; exists d; auto.
  - intros (d & Hd & [->| ->]); rewrite Hd; reflexivity.
Qed.

Lemma app_two_inv (body : string) (c x y : ascii) (rest s' : string) :
  String c s' = body +:+ String x (String y rest) ->
  (body = "" /\ c = x /\ s' = String y rest) \/
  (exists body', body = String c body' /\ s' = body' +:+ String x (String y rest)).
Proof.
  destruct body as [|b body].
  - intros [= -> ->]. left. auto.
  - rewrite append_cons. intros [= -> ->]. right. eauto.
Qed.

(** What [re.sub(r'\.\d$', '', s)] does to a string, case by case. *)
Lemma sub_dot_digit_end_cases (s : string) :
  (PyStr.sub_dot_digit_end s = s /\
   forall body d, PyStr.is_digit d = true ->
     s <> body +:+ String "." (String d "") /\
     s <> body +:+ String "." (String d PyStr.newline)) \/
  (exists body d, PyStr.is_digit d = true /\
     s = body +:+ String "." (String d "") /\ PyStr.sub_dot_digit_end s = body) \/
  (exists body d, PyStr.is_digit d = true /\
     s = body +:+ String "." (String d PyStr.newline) /\
     PyStr.sub_dot_digit_end s = body +:+ PyStr.newline).
Proof.
  induction s as [|c s IH].
  - left. split; [reflexivity|]. intros body d _.
    split; destruct body; discriminate.
  - change (PyStr.sub_dot_digit_end (String c s))
      with (if PyStr.dot_digit_end_here (String c s)
            then match s with String _ rest => rest | EmptyString => EmptyString end
            else String c (PyStr.sub_dot_digit_end s)).
    destruct (PyStr.dot_digit_end_here (String c s)) eqn:Hhere.
    + apply dot_digit_end_here_spec in Hhere as (d & Hd & [[= -> ->]|[= -> ->]]).
      * right; left. exists "", d. auto.
      * right; right. exists "", d. auto.
    + destruct IH as [[Hsame Hno]|[(body & d & Hd & -> & Hsub)|(body & d & Hd & -> & Hsub)]].
      * left. rewrite Hsame. split; [reflexivity|]. intros body d Hd.
        split; intros Heq; apply app_two_inv in Heq
          as [(-> & -> & ->)|(body' & -> & Hs)].
        -- assert (Ht : PyStr.dot_digit_end_here (String "." (String d "")) = true)
             by (apply dot_digit_end_here_spec; eauto).
           congruence.
        -- destruct (Hno body' d Hd) as [Hno1 _]. contradiction.
        -- assert (Ht : PyStr.dot_digit_end_here (String "." (String d PyStr.newline)) = true)
             by (apply dot_digit_end_here_spec; eauto).
           congruence.
        -- destruct (Hno body' d Hd) as [_ Hno2]. contradiction.
      * right; left. exists (String c body), d. rewrite Hsub. auto.
      * right; right. exists (String c body), d. rewrite Hsub. auto.
Qed.

End SuffixFacts.

(** On a label in which "Parand_" does not occur, the cleanup does one of
    three things: it leaves a label that does not end with a dot and one
    digit as it is; it removes a final dot and digit; and, the [$] of the
    pattern also standing before a final newline, it removes a dot and digit
    that are followed by a newline and nothing else. *)
Theorem clean_gene_id_suffix_cases :
  forall s : string,
    PyStr.contains "Parand_" s = false ->
    (clean_gene_id s = s /\
     forall body d, PyStr.is_digit d = true ->
       s <> body +:+ String "." (String d "") /\
       s <> body +:+ String "." (String d PyStr.newline)) \/
    (exists body d, PyStr.is_digit d = true /\
       s = body +:+ String "." (String d "") /\ clean_gene_id s = body) \/
    (exists body d, PyStr.is_digit d = true /\
       s = body +:+ String "." (String d PyStr.newline) /\
       clean_gene_id s = body +:+ PyStr.newline).
Proof.
  intros s Hs. unfold clean_gene_id. rewrite (remove_all_absent _ _ Hs).
  apply sub_dot_digit_end_cases.
Qed.

(** ** The order of the sorted frames *)

(** [sort_values(by='NSP2ox6')] returns the rows that have a key first, the
    same rows as in the frame and in ascending order of the key: the key of
    a row is less than or equal to the key of every later row.  The rows
    without a key follow in the order of the frame.  This holds for frames
    of every size, through the insertion sort, the quicksort and the
    heap sort of numpy's [argsort]. *)
Theorem sort_values_ascending :
  forall (R : Type) (C : LfcColumns R) (df : list R),
    sort_values df
    = List.filter keyed (sort_values df) ++ List.filter (fun r => isna (NSP2ox6 r)) df /\
    List.filter keyed (sort_values df) ≡ₚ List.filter keyed df /\
    StronglySorted (fun r s => PrimFloat.leb (NSP2ox6 r) (NSP2ox6 s) = true)
                   (List.filter keyed (sort_values df)).
Proof.
  intros R C df.
  pose proof (argsort_perm (non_nans (map NSP2ox6 df))) as Hperm.
  split; [apply (sort_values_keyed_first df Hperm)|].
  split; [apply filter_perm, (sort_values_perm df Hperm)|].
  apply keyed_rows_ascending.
Qed.

(** ** The order of the two-condition frame *)

Section LeftRows.
Context {A B : Type} (key_l : A -> string) (key_r : B -> string).

(** With distinct keys on both sides, the left rows of the inner join are
    the left rows that have a match, in left order. *)
Lemma merge_inner_left_rows (l : list A) (r : list B) :
  NoDup (map key_l l) -> NoDup (map key_r r) ->
  map fst (merge_inner key_l key_r l r)
  = List.filter (fun a => existsb (fun b => String.eqb (key_l a) (key_r b)) r) l.
Proof.
  intros Hl Hr. rewrite (merge_inner_left_order key_l key_r l r Hl). clear Hl.
  induction l as [|a l IH]; [reflexivity|].
  cbn [flat_map List.filter]. rewrite map_app, IH. clear IH.
  rewrite (matches_unique key_r _ r Hr).
  destruct (List.find _ r) as [b|] eqn:Hfind.
  - apply find_some in Hfind as [Hb Heq].
    replace (existsb _ r) with true; [reflexivity|].
    symmetry. apply existsb_exists. exists b. auto.
  - replace (existsb _ r) with false; [reflexivity|].
    symmetry. apply not_true_iff_false. intros (b & Hb & Heq)%existsb_exists.
    rewrite (find_none _ _ Hfind b Hb) in Heq. discriminate.
Qed.
End LeftRows.

Section SortedLists.
Context {X : Type} (Rel : X -> X -> Prop).

Lemma StronglySorted_filter (p : X -> bool) (l : list X) :
  StronglySorted Rel l -> StronglySorted Rel (List.filter p l).
Proof.
  induction 1 as [|x l Hs IH Hall]; simpl; [constructor|].
  destruct (p x); [|exact IH]. constructor; [exact IH|].
  apply Forall_forall. intros y Hy%list_elem_of_In%filter_In.
  rewrite Forall_forall in Hall. apply Hall, list_elem_of_In, Hy.
Qed.

Lemma StronglySorted_map {Y : Type} (f : Y -> X) (l : list Y) :
  StronglySorted Rel (map f l) <-> StronglySorted (fun a b => Rel (f a) (f b)) l.
Proof.
  induction l as [|y l IH]; simpl.
  - split; constructor.
  - split; intros [Hs Hall]%StronglySorted_inv; constructor;
      try (apply IH, Hs); try (apply Forall_map, Hall); apply Forall_map in Hall; exact Hall.
Qed.

Lemma StronglySorted_weaken (Rel' : X -> X -> Prop) (l : list X) :
  (forall a b, Rel a b -> Rel' a b) -> StronglySorted Rel l -> StronglySorted Rel' l.
Proof.
  intros Himpl. induction 1 as [|x l Hs IH Hall]; constructor; [exact IH|].
  eapply Forall_impl; [exact Hall|]. intros y. apply Himpl.
Qed.

Lemma filter_comm (p q : X -> bool) (l : list X) :
  List.filter p (List.filter q l) = List.filter q (List.filter p l).
Proof.
  induction l as [|x l IH]; [reflexivity|]. simpl.
  destruct (p x) eqn:Hp, (q x) eqn:Hq; simpl; rewrite ?Hp, ?Hq, IH; reflexivity.
Qed.
End SortedLists.

(** When no label is repeated in the two prepared frames, the two-condition
    frame is in the order of the left frame, so in ascending order of the
    NSP2ox6 of the first condition: its rows are left rows, in their order,
    with the columns of the right row of the same label beside them, and
    among its rows with such a key every key is less than or equal to the
    keys of the later rows. *)
Theorem merged_frame_sorted_by_first_condition :
  forall (cssp_df : list pathway_row) (df_lfc_NPlow_df df_lfc_NlowPhigh : list lfc_row),
    NoDup (map Gene_id (prepare_dataframe cssp_df df_lfc_NPlow_df)) ->
    NoDup (map Gene_id (prepare_dataframe cssp_df df_lfc_NlowPhigh)) ->
    (exists kept,
       sublist kept (prepare_dataframe cssp_df df_lfc_NPlow_df) /\
       map (fun d => (dual_Gene_id d, nsp2_9_x d, NSP2ox1_x d, NSP2ox3_x d, NSP2ox6_x d))
           (merge (prepare_dataframe cssp_df df_lfc_NPlow_df)
                  (prepare_dataframe cssp_df df_lfc_NlowPhigh))
       = map (fun l => (Gene_id l, nsp2_9 l, lfc_NSP2ox1 l, lfc_NSP2ox3 l, lfc_NSP2ox6 l))
             kept) /\
    StronglySorted (fun r s => PrimFloat.leb (NSP2ox6_x r) (NSP2ox6_x s) = true)
      (List.filter (fun d => negb (isna (NSP2ox6_x d)))
         (merge (prepare_dataframe cssp_df df_lfc_NPlow_df)
                (prepare_dataframe cssp_df df_lfc_NlowPhigh))).
Proof.
  intros cssp df1 df2 Hl Hr.
  set (left := prepare_dataframe cssp df1) in *.
  set (right := prepare_dataframe cssp df2) in *.
  pose proof (merge_inner_left_rows Gene_id Gene_id left right Hl Hr) as Hrows.
  set (matched := fun a : lfc_row =>
                    existsb (fun b : lfc_row => String.eqb (Gene_id a) (Gene_id b)) right) in *.
  split.
  - exists (List.filter matched left). split; [apply filter_sublist|].
    unfold merge. rewrite map_map, <- Hrows, map_map.
    apply map_ext. intros [l r]. reflexivity.
  - unfold merge. rewrite filter_map_comm.
    apply StronglySorted_map.
    rewrite (filter_ext _ (fun m : lfc_row * lfc_row => negb (isna (lfc_NSP2ox6 m.1))))
      by (intros [l r]; reflexivity).
    apply (StronglySorted_weaken
             (fun a b : lfc_row * lfc_row =>
                PrimFloat.leb (lfc_NSP2ox6 a.1) (lfc_NSP2ox6 b.1) = true));
      [intros [l r] [l' r'] Hle; exact Hle|].
    apply (StronglySorted_map
             (fun r s : lfc_row => PrimFloat.leb (lfc_NSP2ox6 r) (lfc_NSP2ox6 s) = true) fst).
    rewrite <- (filter_map_comm fst (fun l : lfc_row => negb (isna (lfc_NSP2ox6 l)))).
    rewrite Hrows, filter_comm.
    apply StronglySorted_filter.
    unfold left, prepare_dataframe.
    exact (@keyed_rows_ascending lfc_row lfc_row_lfc (map labelled_row (pathway_merge cssp df1))).
Qed.

(** ** The frames after drawing *)

Section RendererFacts.

Lemma column_removed (name : string) (labels : list cell) (f : frame) :
  column name (Renderer.indexed_by name labels f) = None.
Proof.
  unfold column, Renderer.indexed_by. simpl.
  induction (columns f) as [|c cols IH]; [reflexivity|]. simpl.
  destruct (String.eqb name c.1) eqn:Hc; simpl; [exact IH|].
  rewrite Hc. exact IH.
Qed.

Lemma set_index_missing (w : Renderer.world) (df : nat) (f : frame) (name : string) :
  Renderer.frames w !! df = Some f -> column name f = None ->
  Renderer.set_index df name w = None.
Proof. intros Hdf Hcol. unfold Renderer.set_index. rewrite Hdf, Hcol. reflexivity. Qed.

(** A call of [create_heatmapLFC] on a frame that has the column: the line
    is printed and the column moved before anything is drawn. *)
Lemma create_heatmapLFC_run (heatmap : nat -> Renderer.py unit) (w : Renderer.world)
    (df : nat) (f : frame) (name : string) (labels : list cell) :
  Renderer.frames w !! df = Some f ->
  column name f = Some labels ->
  Renderer.create_heatmapLFC heatmap df name w
  = heatmap df (Renderer.World
                  (<[df := Renderer.indexed_by name labels f]> (Renderer.frames w))
                  (Renderer.stdout w
                   ++ ["Column name used for naming the samples: " +:+ name])).
Proof.
  intros Hdf Hcol.
  unfold Renderer.create_heatmapLFC, Renderer.bind, Renderer.print, Renderer.set_index.
  simpl. rewrite Hdf, Hcol. reflexivity.
Qed.

End RendererFacts.

(** [create_heatmapLFC] changes the frame it is given.  Whatever the drawing
    does, as long as it only reads the frames: on a frame that has the label
    column the function prints its line and moves the column out of the
    columns into the index of that very frame object, and then draws; so it
    returns exactly when the drawing of the changed frame does, and leaves
    the frame changed.  On a frame without the column, as the frame is after
    a first call, it raises, and so does [create_heatmap] when the column is
    'Names'.  When a copy is drawn, as the script does, the frame that was
    copied keeps its column. *)
Theorem create_heatmapLFC_moves_label_column :
  forall (heatmap : nat -> Renderer.py unit) (w : Renderer.world) (dfLFC : nat)
         (f : frame) (column_name : string) (labels : list cell),
    Renderer.reads_only heatmap ->
    Renderer.frames w !! dfLFC = Some f ->
    column column_name f = Some labels ->
    (forall w', Renderer.create_heatmapLFC heatmap dfLFC column_name w = Some (tt, w') <->
       heatmap dfLFC w' = Some (tt, w') /\
       w' = Renderer.World
              (<[dfLFC := Renderer.indexed_by column_name labels f]> (Renderer.frames w))
              (Renderer.stdout w
               ++ ["Column name used for naming the samples: " +:+ column_name])) /\
    column column_name (Renderer.indexed_by column_name labels f) = None /\
    (forall (w' : Renderer.world) (f' : frame),
       Renderer.frames w' !! dfLFC = Some f' -> column column_name f' = None ->
       Renderer.create_heatmapLFC heatmap dfLFC column_name w' = None /\
       (column_name = "Names" -> Renderer.create_heatmap heatmap dfLFC w' = None)) /\
    (forall (processed_df_lfc : nat) (w' : Renderer.world),
       Renderer.bind (Renderer.copy dfLFC)
         (fun c => Renderer.bind (Renderer.create_heatmapLFC heatmap c column_name)
                     (fun _ => Renderer.ret c)) w
       = Some (processed_df_lfc, w') ->
       processed_df_lfc <> dfLFC /\
       Renderer.frames w' !! dfLFC = Some f /\
       Renderer.frames w' !! processed_df_lfc
       = Some (Renderer.indexed_by column_name labels f)).
Proof.
  intros heatmap w df f name labels Hreads Hdf Hcol.
  split; [|split; [apply column_removed|split]].
  - intros w'. rewrite (create_heatmapLFC_run heatmap w df f name labels Hdf Hcol).
    split.
    + intros Hrun. pose proof (Hreads _ _ _ Hrun) as [= Hw].
      split; [rewrite Hw at 1; exact Hrun|exact Hw].
    + intros [Hrun Hw]. rewrite <- Hw. exact Hrun.
  - intros w' f' Hdf' Hgone. split.
    + unfold Renderer.create_heatmapLFC, Renderer.bind at 1. unfold Renderer.print.
      unfold Renderer.bind.
      rewrite (set_index_missing _ df f' name); [reflexivity|exact Hdf'|exact Hgone].
    + intros ->. unfold Renderer.create_heatmap, Renderer.bind.
      rewrite (set_index_missing _ df f' "Names"); [reflexivity|exact Hdf'|exact Hgone].
  - intros c w'. unfold Renderer.bind at 1. unfold Renderer.copy. rewrite Hdf.
    set (new := fresh (dom (Renderer.frames w))).
    assert (Hfresh : Renderer.frames w !! new = None) by apply not_elem_of_dom, is_fresh.
    assert (Hne : new <> df) by congruence.
    unfold Renderer.bind at 1.
    rewrite (create_heatmapLFC_run heatmap _ new f name labels)
      by (apply lookup_insert_eq || exact Hcol).
    destruct (heatmap new _) as [[[] w1]|] eqn:Hdraw; [|discriminate].
    pose proof (Hreads _ _ _ Hdraw) as [= ->].
    unfold Renderer.ret. intros [= <- <-]. simpl.
    split; [exact Hne|]. split.
    + rewrite !lookup_insert_ne by exact Hne. exact Hdf.
    + apply lookup_insert_eq.
Qed.


(** * The theorems at concrete tables *)

(** A row of NaNs next to a row that passes. *)
Lemma filter_lfc_drops_all_missing_witness :
  lfc_mask_row (-6) 6 missing_row = false /\
  ~ In missing_row (filter_rows [example_row "a" (-8); missing_row] (-6) 6).
Proof.
  apply (filter_lfc_drops_all_missing named_row _
           [example_row "a" (-8); missing_row] (-6) 6 missing_row); reflexivity.
Defined.

(** Two genes, the second with an annotation. *)
Lemma annotate_left_join_keeps_every_row_witness :
  Unbiased.annotate_dataframe
    [lfc "Parand_0007777.1" 1; lfc "Parand_0001234.1" 2] annotation_example
  = [ {| Annotation := " | "; an_Gene_id := "0007777"; an_nsp2_9 := 0;
         an_NSP2ox1 := 0; an_NSP2ox3 := 0; an_NSP2ox6 := 1 |};
      {| Annotation := "ABC | "; an_Gene_id := "0001234"; an_nsp2_9 := 0;
         an_NSP2ox1 := 0; an_NSP2ox3 := 0; an_NSP2ox6 := 2 |} ]
  /\ length (annotate_with " | "
               [lfc "Parand_0007777.1" 1; lfc "Parand_0001234.1" 2] annotation_example)
     = 2.
Proof.
  split; [reflexivity|].
  apply (annotate_left_join_keeps_every_row " | "
           [lfc "Parand_0007777.1" 1; lfc "Parand_0001234.1" 2] annotation_example).
  apply NoDup_singleton.
Defined.

(** Three pathway genes, two of them measured. *)
Lemma prepare_dataframe_inner_join_bounds_witness :
  map Gene_id (prepare_dataframe pathway_example expression_example)
  = ["CCD7 | 0001234"; "CCD8 | 0005678"]
  /\ length (pathway_merge pathway_example expression_example) <= 3
  /\ length (prepare_dataframe pathway_example expression_example) <= 3.
Proof.
  split; [vm_compute; reflexivity|].
  apply (prepare_dataframe_inner_join_bounds pathway_example expression_example).
  - apply (bool_decide_unpack _). vm_compute. exact I.
  - apply (bool_decide_unpack _). vm_compute. exact I.
Defined.

(** Two frames that share g1, g2 and g3: the merge has them in the order of
    the left frame. *)
Lemma merge_common_rows_in_left_order_witness :
  map dual_Gene_id (merge left_example right_example) = ["g2"; "g1"; "g3"]
  /\ sublist (map dual_Gene_id (merge left_example right_example))
             (map Gene_id left_example).
Proof.
  split; [vm_compute; reflexivity|].
  apply (merge_common_rows_in_left_order left_example right_example).
  - apply (bool_decide_unpack _). vm_compute. exact I.
  - apply (bool_decide_unpack _). vm_compute. exact I.
Defined.

(** The filter on the example frame in a store. *)
Lemma filter_lfc_is_row_selection_witness :
  exists (df_filtered : nat) (w' : world named_row) (kept : list named_row),
    filter_lfc 0 (-6) 6 example_world = Some (df_filtered, w') /\
    frames w' !! df_filtered = Some kept /\
    kept = filter_rows example_frame (-6) 6 /\
    sublist kept example_frame /\
    (exists idx : list nat,
        StronglySorted lt idx /\
        Forall2 (fun i r => example_frame !! i = Some r) idx kept) /\
    df_filtered <> 0 /\
    frames w' !! 0 = Some example_frame /\
    (forall df, df <> df_filtered -> frames w' !! df = frames example_world !! df).
Proof.
  apply (filter_lfc_is_row_selection named_row _ example_world 0 example_frame (-6) 6).
  vm_compute. reflexivity.
Defined.

(** The filter on a frame none of whose rows passes. *)
Lemma filter_lfc_prints_count_only_witness :
  exists (df_filtered : nat) (w' : world named_row),
    filter_lfc 0 (-6) 6 quiet_world = Some (df_filtered, w') /\
    warnings w' = warnings quiet_world /\
    stdout w' = stdout quiet_world ++
      [Filtering_dataframe;
       Done_filtering
         (length (filter_rows [example_row "b" (-1); example_row "c" 3] (-6) 6)) (-6) 6] /\
    (filter_rows [example_row "b" (-1); example_row "c" 3] (-6) 6 = [] ->
     frames w' !! df_filtered = Some [] /\
     stdout w' = stdout quiet_world ++ [Filtering_dataframe; Done_filtering 0 (-6) 6]).
Proof.
  apply (filter_lfc_prints_count_only named_row _ quiet_world 0
           [example_row "b" (-1); example_row "c" 3] (-6) 6).
  vm_compute. reflexivity.
Defined.

(** The example frame with the cutoffs -7 and 10 instead of -6 and 6. *)
Lemma filter_lfc_wider_cutoffs_select_fewer_witness :
  filter_rows example_frame (-7) 10 = [example_row "a" (-8)]
  /\ sublist (filter_rows example_frame (-7) 10) (filter_rows example_frame (-6) 6)
  /\ filter_rows (filter_rows example_frame (-6) 6) (-7) 10
     = filter_rows example_frame (-7) 10.
Proof.
  split; [vm_compute; reflexivity|].
  apply (filter_lfc_wider_cutoffs_select_fewer named_row _ example_frame (-6) 6 (-7) 10);
    reflexivity.
Defined.

(** A row with the values 6, -6 and a missing one is dropped by the cutoffs
    -6 and 6. *)
Lemma filter_lfc_drops_closed_interval_witness :
  lfc_mask_row (-6) 6 boundary_row = false <->
  forall v, In v (condition_values boundary_row) ->
    isna v = true \/ (PrimFloat.leb (-6) v = true /\ PrimFloat.leb v 6 = true).
Proof.
  apply (filter_lfc_drops_closed_interval named_row _ (-6) 6 boundary_row); reflexivity.
Defined.

(** The cutoffs 6 and -6: the row inside the interval is selected, the row
    without a measured value is not. *)
Lemma filter_lfc_crossed_cutoffs_select_measured_rows_witness :
  filter_rows [example_row "b" (-1); missing_row] 6 (-6) = [example_row "b" (-1)]
  /\ forall r, In r (filter_rows [example_row "b" (-1); missing_row] 6 (-6)) <->
               In r [example_row "b" (-1); missing_row] /\
               exists v, In v (condition_values r) /\ isna v = false.
Proof.
  split; [vm_compute; reflexivity|].
  apply (filter_lfc_crossed_cutoffs_select_measured_rows named_row _
           [example_row "b" (-1); missing_row] 6 (-6)).
  reflexivity.
Defined.

(** The filter run twice on the example frame. *)
Lemma filter_lfc_again_selects_all_witness :
  exists (df_filtered df_again : nat) (w' w'' : world named_row),
    filter_lfc 0 (-6) 6 example_world = Some (df_filtered, w') /\
    bind (filter_lfc 0 (-6) 6) (fun df => filter_lfc df (-6) 6) example_world
    = Some (df_again, w'') /\
    df_again <> df_filtered /\ df_again <> 0 /\
    frames w'' !! df_again = Some (filter_rows example_frame (-6) 6) /\
    frames w'' !! df_filtered = Some (filter_rows example_frame (-6) 6) /\
    frames w'' !! 0 = Some example_frame /\
    stdout w'' = stdout example_world ++
      [Filtering_dataframe;
       Done_filtering (length (filter_rows example_frame (-6) 6)) (-6) 6;
       Filtering_dataframe;
       Done_filtering (length (filter_rows example_frame (-6) 6)) (-6) 6].
Proof.
  apply (filter_lfc_again_selects_all named_row _ example_world 0 example_frame (-6) 6).
  vm_compute. reflexivity.
Defined.

(** Two genes through the annotator of [makeheatmap_NSPpathways.py]: the
    first has no annotation row, the second has the symbol "ABC". *)
Lemma annotated_names_per_gene_witness :
  map Names (merge_geneid_annotation
               (Pathways.annotate_dataframe
                  [lfc "Parand_0007777.1" 1; lfc "Parand_0001234.1" 2] annotation_example))
  = ["0007777"; "ABC  0001234"]
  /\ length (merge_geneid_annotation
               (annotate_with " " [lfc "Parand_0007777.1" 1; lfc "Parand_0001234.1" 2]
                              annotation_example)) = 2.
Proof.
  split; [vm_compute; reflexivity|].
  apply (annotated_names_per_gene " "
           [lfc "Parand_0007777.1" 1; lfc "Parand_0001234.1" 2] annotation_example).
  - reflexivity.
  - apply NoDup_singleton.
Defined.

(** A label whose identifier ends with a dot and two digits, and one that
    ends with two suffixes. *)
Lemma clean_gene_id_suffix_cases_witness :
  clean_gene_id "CCD7 | 0001234.10" = "CCD7 | 0001234.10"
  /\ clean_gene_id "CCD7 | 0001234.1.2" = "CCD7 | 0001234.1"
  /\ ((clean_gene_id "CCD7 | 0001234.10" = "CCD7 | 0001234.10" /\
       forall body d, PyStr.is_digit d = true ->
         "CCD7 | 0001234.10" <> body +:+ String "." (String d "") /\
         "CCD7 | 0001234.10" <> body +:+ String "." (String d PyStr.newline)) \/
      (exists body d, PyStr.is_digit d = true /\
         "CCD7 | 0001234.10" = body +:+ String "." (String d "") /\
         clean_gene_id "CCD7 | 0001234.10" = body) \/
      (exists body d, PyStr.is_digit d = true /\
         "CCD7 | 0001234.10" = body +:+ String "." (String d PyStr.newline) /\
         clean_gene_id "CCD7 | 0001234.10" = body +:+ PyStr.newline)).
Proof.
  split; [reflexivity|]. split; [reflexivity|].
  apply (clean_gene_id_suffix_cases "CCD7 | 0001234.10"). reflexivity.
Defined.

(** Two conditions for the genes of the pathway example. *)
Lemma merged_frame_sorted_by_first_condition_witness :
  map (fun d => (dual_Gene_id d, NSP2ox6_x d))
      (merge (prepare_dataframe pathway_example expression_example)
             (prepare_dataframe pathway_example second_condition))
  = [("CCD7 | 0001234", (-2)%float); ("CCD8 | 0005678", 3%float)]
  /\ StronglySorted (fun r s => PrimFloat.leb (NSP2ox6_x r) (NSP2ox6_x s) = true)
       (List.filter (fun d => negb (isna (NSP2ox6_x d)))
          (merge (prepare_dataframe pathway_example expression_example)
                 (prepare_dataframe pathway_example second_condition))).
Proof.
  split; [vm_compute; reflexivity|].
  apply (merged_frame_sorted_by_first_condition pathway_example expression_example
           second_condition).
  - apply (bool_decide_unpack _). vm_compute. exact I.
  - apply (bool_decide_unpack _). vm_compute. exact I.
Defined.

(** A prepared frame drawn twice: the second call raises. *)
Lemma create_heatmapLFC_moves_label_column_witness :
  Renderer.create_heatmapLFC Renderer.draws_anything 0 "Gene_id" prepared_world
  = Some (tt, Renderer.World
                {[ 0 := Frame (Some ("Gene_id", [Text "CCD7 | 0001234"; Text "CCD8 | 0005678"]))
                              [ ("nsp2-9", [Number 0; Number 0]);
                                ("NSP2ox1", [Number 0; Number 0]);
                                ("NSP2ox3", [Number 0; Number 0]);
                                ("NSP2ox6", [Number (-2); Number 3]) ] ]}
                ["Column name used for naming the samples: Gene_id"])
  /\ forall (w' : Renderer.world) (f' : frame),
       Renderer.frames w' !! 0 = Some f' -> column "Gene_id" f' = None ->
       Renderer.create_heatmapLFC Renderer.draws_anything 0 "Gene_id" w' = None /\
       ("Gene_id" = "Names" -> Renderer.create_heatmap Renderer.draws_anything 0 w' = None).
Proof.
  split; [vm_compute; reflexivity|].
  apply (create_heatmapLFC_moves_label_column Renderer.draws_anything prepared_world 0
           (frame_of_lfc (prepare_dataframe pathway_example expression_example))
           "Gene_id" [Text "CCD7 | 0001234"; Text "CCD8 | 0005678"]).
  - intros df w r [= <-]. reflexivity.
  - vm_compute. reflexivity.
  - vm_compute. reflexivity.
Defined.
